(** * check_presigned_url_expiry.py: a shallow embedding and its properties

    The script reads one command-line argument, extracts the query
    parameters [X-Amz-Date] and [X-Amz-Expires] with [urllib.parse],
    parses them with [datetime.strptime] and [int], adds them, samples
    the clock and prints a four-line report.

    The script itself is thirty-six lines; what it does is decided by the
    library functions it calls.  These are embedded from the CPython 3.11
    library ([urllib/parse.py], [_strptime.py] and [datetime.py], the
    Python implementation that the C module is held to agree with) and,
    for [int], from the interpreter's conversion routine.

    - A [str] is a list of code points.
    - A call that can raise returns a [Result]; the script runs in a
      monad over the text written to standard output and the number of
      clock readings.
    - The parts of the interpreter that are tables or foreign code (the
      Unicode database, the UTF-8 codec, [ipaddress], the text of
      exception messages, the encoder of standard output) are fields of
      the class [Runtime]; every theorem holds for every instance.
    - A [print] whose text standard output cannot encode raises
      [UnicodeEncodeError]; other failures of the output device are not
      modelled.
    - The clock is a sequence of [datetime] values, one per call of
      [datetime.utcnow()]; the conversion from the floating-point
      [time.time()] is not modelled. *)

From Stdlib Require Import ZArith NArith List Ascii String Bool Lia.
From stdpp Require Import base option list gmap.
Import ListNotations.

Local Open Scope Z_scope.

(** ** Python strings

    A [str] is a sequence of Unicode code points. *)

Abbreviation str := (list N).

Definition ord (a : ascii) : N := N_of_ascii a.

(** A string literal of the source. *)
Definition lit (s : string) : str := map ord (list_ascii_of_string s).

Definition str_eqb (a b : str) : bool := bool_decide (a = b).

(** [c in s] for a one-character [c]. *)
Definition contains (c : N) (s : str) : bool := existsb (N.eqb c) s.

(** Truth value of a string: empty strings are false. *)
Definition truthy (s : str) : bool :=
  match s with [] => false | _ => true end.

(** [s.find(c, start)]: index of the first [c] at or after [start], or -1. *)
Fixpoint find_at (c : N) (s : str) (i : Z) : Z :=
  match s with
  | [] => -1
  | x :: s' => if N.eqb x c then i else find_at c s' (i + 1)
  end.

Definition find (c : N) (s : str) (start : nat) : Z :=
  find_at c (drop start s) (Z.of_nat start).

(** [s.split(sep)] for a one-character separator. *)
Fixpoint split (sep : N) (s : str) : list str :=
  match s with
  | [] => [[]]
  | c :: s' =>
      if N.eqb c sep then [] :: split sep s'
      else match split sep s' with
           | p :: ps => (c :: p) :: ps
           | [] => [[c]]
           end
  end.

(** [s.split(sep, 1)]. *)
Fixpoint split1 (sep : N) (s : str) : list str :=
  match s with
  | [] => [[]]
  | c :: s' =>
      if N.eqb c sep then [[]; s']
      else match split1 sep s' with
           | p :: ps => (c :: p) :: ps
           | [] => [[c]]
           end
  end.

(** [s.partition(sep)]: text before the first [sep], whether it was found,
    text after it. *)
Fixpoint partition (sep : N) (s : str) : str * bool * str :=
  match s with
  | [] => ([], false, [])
  | c :: s' =>
      if N.eqb c sep then ([], true, s')
      else let '(a, f, b) := partition sep s' in (c :: a, f, b)
  end.

(** [s.rpartition(sep)[2]]: text after the last [sep], or all of [s]. *)
Fixpoint rpartition_tail (sep : N) (s : str) : str :=
  match s with
  | [] => []
  | c :: s' =>
      if contains sep s' then rpartition_tail sep s'
      else if N.eqb c sep then s' else c :: s'
  end.

(** [s.replace(a, b)] for one-character [a]; [b] is any string. *)
Definition replace (a : N) (b : str) (s : str) : str :=
  flat_map (fun c => if N.eqb c a then b else [c]) s.

(** [s.lstrip(chars)]. *)
Fixpoint lstrip (chars : N -> bool) (s : str) : str :=
  match s with
  | [] => []
  | c :: s' => if chars c then lstrip chars s' else s
  end.

Definition isascii_char (c : N) : bool := (c <? 128)%N.

Definition isascii (s : str) : bool := forallb isascii_char s.

Definition is_upper (c : N) : bool := ((65 <=? c) && (c <=? 90))%N.
Definition is_lower (c : N) : bool := ((97 <=? c) && (c <=? 122))%N.
Definition is_digit (c : N) : bool := ((48 <=? c) && (c <=? 57))%N.

(** [c.lower()] on ASCII. *)
Definition lower_char (c : N) : N := if is_upper c then (c + 32)%N else c.

(** ** Exceptions *)

Inductive ValueErrorCause :=
  | InvalidIPv6URL
  | BracketedHostInvalid (hostname : str)
  | NetlocNFKC (netloc : str)
  | BadDirective (format : string)
  | TimeDataMismatch (data_string : str)
  | UnconvertedData (rest : str)
  | YearOutOfRange (year : Z)
  | MonthOutOfRange (month : Z)
  | DayOutOfRange (day : Z)
  | HourOutOfRange (hour : Z)
  | MinuteOutOfRange (minute : Z)
  | SecondOutOfRange (second : Z)
  | MicrosecondOutOfRange (microsecond : Z)
  | InvalidLiteral (s : str)
  | ExceedsDigitLimit (digits : Z).

Inductive Exception :=
  | SystemExit (code : Z)
  | ValueError (cause : ValueErrorCause)
  | OverflowError
  | TypeError
  | IndexError
  | UnicodeEncodeError (text : str).

(** [except Exception] catches everything but [SystemExit], which derives
    from [BaseException] only.  ([UnicodeEncodeError] derives from
    [ValueError].) *)
Definition isinstance_Exception (e : Exception) : bool :=
  match e with SystemExit _ => false | _ => true end.

Inductive Result (A : Type) :=
  | Ok (a : A)
  | Raise (e : Exception).
Arguments Ok {A} a.
Arguments Raise {A} e.

Definition rbind {A B} (r : Result A) (k : A -> Result B) : Result B :=
  match r with Ok a => k a | Raise e => Raise e end.

(** ** The interpreter's tables and foreign code *)

Class Runtime := {
  (** [Py_UNICODE_TODECIMAL] on code points from 128 up *)
  unicode_todecimal : N -> option N;
  (** [Py_UNICODE_ISSPACE] on code points from 127 up *)
  unicode_isspace : N -> bool;
  (** [bytes.decode('utf-8', 'replace')] *)
  decode_utf8_replace : list N -> str;
  (** [_check_bracketed_host] of [urllib.parse] ([ipaddress] and a regular
      expression): [true] when it returns, [false] when it raises *)
  bracketed_host_ok : str -> bool;
  (** [unicodedata.normalize('NFKC', s)] *)
  normalize_NFKC : str -> str;
  (** [sys.get_int_max_str_digits()], 4300 unless configured; 0 means no
      limit *)
  int_max_str_digits : Z;
  (** [str(e)] for an exception *)
  exception_str : Exception -> str;
  (** whether the encoding and error handler of [sys.stdout] encode a
      text that is not all ASCII *)
  stdout_encodes : str -> bool
}.

Section Library.
Context {rt : Runtime}.

(** ** urllib.parse *)

Definition uses_params : list str :=
  map lit ["" ; "ftp"; "hdl"; "prospero"; "http"; "imap";
           "https"; "shttp"; "rtsp"; "rtspu"; "sip"; "sips";
           "mms"; "sftp"; "tel"]%string.

(** Characters valid in scheme names: letters, digits, [+-.] *)
Definition scheme_chars (c : N) : bool :=
  is_lower c || is_upper c || is_digit c
  || N.eqb c (ord "+") || N.eqb c (ord "-") || N.eqb c (ord ".").

(** Code points 0 to 0x20. *)
Definition _WHATWG_C0_CONTROL_OR_SPACE (c : N) : bool := (c <=? 32)%N.

(** Tab, carriage return, line feed. *)
Definition _UNSAFE_URL_BYTES_TO_REMOVE : list N := [9; 13; 10]%N.

Record ParseResult := {
  scheme : str;
  netloc : str;
  path : str;
  params : str;
  query : str;
  fragment : str
}.

Definition _splitnetloc (url : str) (start : nat) : str * str :=
  let delim :=
    fold_left
      (fun delim c =>
         let wdelim := find c url start in
         if 0 <=? wdelim then Z.min delim wdelim else delim)
      [ord "/"; ord "?"; ord "#"] (Z.of_nat (length url)) in
  (drop start (take (Z.to_nat delim) url), drop (Z.to_nat delim) url).

Definition _checknetloc (netloc : str) : Result unit :=
  if negb (truthy netloc) || isascii netloc then Ok tt
  else
    let n := replace (ord "@") [] netloc in
    let n := replace (ord ":") [] n in
    let n := replace (ord "#") [] n in
    let n := replace (ord "?") [] n in
    let netloc2 := normalize_NFKC n in
    if str_eqb n netloc2 then Ok tt
    else if existsb (fun c => contains c netloc2)
              [ord "/"; ord "?"; ord "#"; ord "@"; ord ":"]
         then Raise (ValueError (NetlocNFKC netloc))
         else Ok tt.

Definition _check_bracketed_host (hostname : str) : Result unit :=
  if bracketed_host_ok hostname then Ok tt
  else Raise (ValueError (BracketedHostInvalid hostname)).

Definition _check_bracketed_netloc (netloc : str) : Result unit :=
  let hostname_and_port := rpartition_tail (ord "@") netloc in
  let '(before_bracket, have_open_br, bracketed) :=
    partition (ord "[") hostname_and_port in
  if have_open_br then
    if truthy before_bracket then Raise (ValueError InvalidIPv6URL)
    else
      let '(hostname, _, port) := partition (ord "]") bracketed in
      if truthy port && negb (bool_decide (head port = Some (ord ":")))
      then Raise (ValueError InvalidIPv6URL)
      else _check_bracketed_host hostname
  else
    let '(hostname, _, port) := partition (ord ":") hostname_and_port in
    _check_bracketed_host hostname.

(** [urlsplit(url)] with the default [scheme=''] and
    [allow_fragments=True]; the result is the 5-tuple
    (scheme, netloc, url, query, fragment). *)
Definition urlsplit (url : str) : Result (str * str * str * str * str) :=
  let url := lstrip _WHATWG_C0_CONTROL_OR_SPACE url in
  let url := fold_left (fun u b => replace b [] u)
                       _UNSAFE_URL_BYTES_TO_REMOVE url in
  let i := find (ord ":") url 0 in
  let '(scheme, url) :=
    if (0 <? i)
       && match url with
          | c0 :: _ => isascii_char c0 && (is_upper c0 || is_lower c0)
          | [] => false
          end
       && forallb scheme_chars (take (Z.to_nat i) url)
    then (map lower_char (take (Z.to_nat i) url), drop (Z.to_nat i + 1) url)
    else ([], url) in
  rbind
    (if str_eqb (take 2 url) (lit "//") then
       let '(netloc, url) := _splitnetloc url 2 in
       if (contains (ord "[") netloc && negb (contains (ord "]") netloc))
          || (contains (ord "]") netloc && negb (contains (ord "[") netloc))
       then Raise (ValueError InvalidIPv6URL)
       else
         rbind
           (if contains (ord "[") netloc && contains (ord "]") netloc
            then _check_bracketed_netloc netloc else Ok tt)
           (fun _ => Ok (netloc, url))
     else Ok ([], url))
    (fun '(netloc, url) =>
       let '(url, fragment) :=
         if contains (ord "#") url then
           match split1 (ord "#") url with
           | [u; f] => (u, f)
           | _ => (url, [])
           end
         else (url, []) in
       let '(url, query) :=
         if contains (ord "?") url then
           match split1 (ord "?") url with
           | [u; q] => (u, q)
           | _ => (url, [])
           end
         else (url, []) in
       rbind (_checknetloc netloc)
             (fun _ => Ok (scheme, netloc, url, query, fragment))).

(** [s.rfind(c)]: index of the last [c], or -1. *)
Definition rfind (c : N) (s : str) : Z :=
  fst (fold_left (fun '(r, i) x => (if N.eqb x c then i else r, i + 1))
                 s (-1, 0)).

Definition _splitparams (url : str) : str * str :=
  let cut i := (take (Z.to_nat i) url, drop (Z.to_nat i + 1) url) in
  if contains (ord "/") url then
    let i := find (ord ";") url (Z.to_nat (rfind (ord "/") url)) in
    if i <? 0 then (url, []) else cut i
  else
    (* [i] may be -1 here: the slices are then url[:-1] and url[0:] *)
    let i := find (ord ";") url 0 in
    if i <? 0 then (take (length url - 1) url, url) else cut i.

Definition urlparse (url : str) : Result ParseResult :=
  rbind (urlsplit url)
    (fun '(scheme, netloc, url, query, fragment) =>
       let '(url, params) :=
         if existsb (str_eqb scheme) uses_params && contains (ord ";") url
         then _splitparams url
         else (url, []) in
       Ok {| scheme := scheme; netloc := netloc; path := url;
             params := params; query := query; fragment := fragment |}).

(** Value of a hexadecimal digit, as the keys of [_hextobyte] allow. *)
Definition hexval (c : N) : option N :=
  if is_digit c then Some (c - 48)%N
  else if ((97 <=? c) && (c <=? 102))%N then Some (c - 87)%N
  else if ((65 <=? c) && (c <=? 70))%N then Some (c - 55)%N
  else None.

(** The loop of [unquote_to_bytes] over [bits[1:]]. *)
Definition unquote_item (item : list N) : list N :=
  match item with
  | a :: b :: tl =>
      match hexval a, hexval b with
      | Some x, Some y => (16 * x + y)%N :: tl
      | _, _ => ord "%" :: item
      end
  | _ => ord "%" :: item
  end.

(** [unquote_to_bytes] on an all-ASCII string, whose UTF-8 encoding is
    the string itself. *)
Definition unquote_to_bytes (string : str) : list N :=
  if negb (truthy string) then []
  else
    match split (ord "%") string with
    | [] | [_] => string
    | b0 :: rest => b0 ++ flat_map unquote_item rest
    end.

(** [_asciire.split(string)] for [_asciire = re.compile('([\x00-\x7f]+)')]:
    the pieces outside and inside the maximal ASCII runs, alternating,
    starting and ending with a piece outside. *)
Fixpoint _asciire_split_from (in_run : bool) (cur : str) (s : str)
  : list str :=
  match s with
  | [] => if in_run then [rev cur; []] else [rev cur]
  | c :: s' =>
      if isascii_char c then
        if in_run then _asciire_split_from true (c :: cur) s'
        else rev cur :: _asciire_split_from true [c] s'
      else
        if in_run then rev cur :: _asciire_split_from false [c] s'
        else _asciire_split_from false (c :: cur) s'
  end.

Definition _asciire_split (s : str) : list str :=
  _asciire_split_from false [] s.

(** The loop [for i in range(1, len(bits), 2)] of [unquote]. *)
Fixpoint unquote_bits (bits : list str) : str :=
  match bits with
  | run :: plain :: rest =>
      decode_utf8_replace (unquote_to_bytes run) ++ plain ++ unquote_bits rest
  | _ => []
  end.

Definition unquote (string : str) : str :=
  if negb (contains (ord "%") string) then string
  else
    match _asciire_split string with
    | [] => []
    | b0 :: rest => b0 ++ unquote_bits rest
    end.

(** The body of the loop [for name_value in query_args] of [parse_qsl],
    with the defaults [keep_blank_values=False], [strict_parsing=False]:
    the pairs it appends to [r]. *)
Definition parse_qsl_field (name_value : str) : list (str * str) :=
  if negb (truthy name_value) then []
  else
    match split1 (ord "=") name_value with
    | [n; v] =>
        if (0 <? length v)%nat then
          let name := unquote (replace (ord "+") (lit " ") n) in
          let value := unquote (replace (ord "+") (lit " ") v) in
          [(name, value)]
        else []
    | _ => []
    end.

(** [parse_qsl(qs)] with the defaults [max_num_fields=None],
    [separator='&']. *)
Definition parse_qsl (qs : str) : list (str * str) :=
  let query_args := if truthy qs then split (ord "&") qs else [] in
  flat_map parse_qsl_field query_args.

(** The body of the loop [for name, value in pairs] of [parse_qs]. *)
Definition parse_qs_step (parsed_result : gmap str (list str))
    (pair : str * str) : gmap str (list str) :=
  let '(name, value) := pair in
  match parsed_result !! name with
  | Some vs => <[name := vs ++ [value]]> parsed_result
  | None => <[name := [value]]> parsed_result
  end.

Definition parse_qs (qs : str) : gmap str (list str) :=
  fold_left parse_qs_step (parse_qsl qs) ∅.

(** ** int(str)

    [PyLong_FromUnicodeObject]: the string is first mapped to ASCII, then
    read by [PyLong_FromString] in base 10. *)

Definition Py_ISSPACE (c : N) : bool :=
  N.eqb c 32 || ((9 <=? c) && (c <=? 13))%N.

Definition Py_UNICODE_TODECIMAL (c : N) : option N :=
  if isascii_char c then (if is_digit c then Some (c - 48)%N else None)
  else unicode_todecimal c.

Fixpoint _PyUnicode_TransformDecimalAndSpaceToASCII_loop (s : str) : str :=
  match s with
  | [] => []
  | ch :: s' =>
      if (ch <? 127)%N then
        ch :: _PyUnicode_TransformDecimalAndSpaceToASCII_loop s'
      else if unicode_isspace ch then
        ord " " :: _PyUnicode_TransformDecimalAndSpaceToASCII_loop s'
      else
        match Py_UNICODE_TODECIMAL ch with
        | None => [ord "?"]
        | Some decimal =>
            (ord "0" + decimal)%N
              :: _PyUnicode_TransformDecimalAndSpaceToASCII_loop s'
        end
  end.

Definition _PyUnicode_TransformDecimalAndSpaceToASCII (s : str) : str :=
  if isascii s then s
  else _PyUnicode_TransformDecimalAndSpaceToASCII_loop s.

(** The scan over digits and underscores: [None] on a doubled or trailing
    underscore, otherwise the number of digits, their value and the rest. *)
Fixpoint scan_digits (s : str) (prev : N) (digits value : Z)
  : option (Z * Z * str) :=
  let stop := if N.eqb prev (ord "_") then None
              else Some (digits, value, s) in
  match s with
  | [] => stop
  | c :: s' =>
      if is_digit c then
        scan_digits s' c (digits + 1) (10 * value + Z.of_N (c - 48))
      else if N.eqb c (ord "_") then
        if N.eqb prev (ord "_") then None
        else scan_digits s' c digits value
      else stop
  end.

Definition _PY_LONG_MAX_STR_DIGITS_THRESHOLD : Z := 640.

(** [PyLong_FromString(str, &end, 10)] followed by the caller's test that
    [end] is the end of the buffer. *)
Definition PyLong_FromString (orig : str) (buffer : str) : Result Z :=
  let invalid := Raise (ValueError (InvalidLiteral orig)) in
  let s := lstrip Py_ISSPACE buffer in
  let '(sign, s) :=
    match s with
    | c :: s' =>
        if N.eqb c (ord "+") then (1, s')
        else if N.eqb c (ord "-") then (-1, s')
        else (1, s)
    | [] => (1, s)
    end in
  if bool_decide (head s = Some (ord "_")) then invalid
  else
    match scan_digits s 0%N 0 0 with
    | None => invalid
    | Some (digits, value, rest) =>
        if (_PY_LONG_MAX_STR_DIGITS_THRESHOLD <? digits)
           && (0 <? int_max_str_digits) && (int_max_str_digits <? digits)
        then Raise (ValueError (ExceedsDigitLimit digits))
        else if digits =? 0 then invalid
        else if truthy (lstrip Py_ISSPACE rest) then invalid
        else Ok (sign * value)
    end.

(** [int(x)] for [x] a string or [None]. *)
Definition int (x : option str) : Result Z :=
  match x with
  | None => Raise TypeError
  | Some s =>
      PyLong_FromString s (_PyUnicode_TransformDecimalAndSpaceToASCII s)
  end.

(** ** datetime *)

Definition MINYEAR : Z := 1.
Definition MAXYEAR : Z := 9999.
Definition _MAXORDINAL : Z := 3652059.

Definition _DAYS_IN_MONTH : list Z :=
  [-1; 31; 28; 31; 30; 31; 30; 31; 31; 30; 31; 30; 31].

Definition _DAYS_BEFORE_MONTH : list Z :=
  [-1; 0; 31; 59; 90; 120; 151; 181; 212; 243; 273; 304; 334].

(** [l[i]] for an index that the source asserts to be in range. *)
Definition at_index (l : list Z) (i : Z) : Z := nth (Z.to_nat i) l 0.

Definition b2z (b : bool) : Z := if b then 1 else 0.

Definition _is_leap (year : Z) : bool :=
  (year mod 4 =? 0) && (negb (year mod 100 =? 0) || (year mod 400 =? 0)).

Definition _days_before_year (year : Z) : Z :=
  let y := year - 1 in
  y * 365 + y / 4 - y / 100 + y / 400.

Definition _days_in_month (year month : Z) : Z :=
  if (month =? 2) && _is_leap year then 29
  else at_index _DAYS_IN_MONTH month.

Definition _days_before_month (year month : Z) : Z :=
  at_index _DAYS_BEFORE_MONTH month + b2z ((2 <? month) && _is_leap year).

Definition _ymd2ord (year month day : Z) : Z :=
  _days_before_year year + _days_before_month year month + day.

Definition _DI400Y : Z := Eval cbv in _days_before_year 401.
Definition _DI100Y : Z := Eval cbv in _days_before_year 101.
Definition _DI4Y : Z := Eval cbv in _days_before_year 5.

Definition _ord2ymd (n : Z) : Z * Z * Z :=
  let n := n - 1 in
  let '(n400, n) := (n / _DI400Y, n mod _DI400Y) in
  let year := n400 * 400 + 1 in
  let '(n100, n) := (n / _DI100Y, n mod _DI100Y) in
  let '(n4, n) := (n / _DI4Y, n mod _DI4Y) in
  let '(n1, n) := (n / 365, n mod 365) in
  let year := year + n100 * 100 + n4 * 4 + n1 in
  if (n1 =? 4) || (n100 =? 4) then (year - 1, 12, 31)
  else
    let leapyear := (n1 =? 3) && (negb (n4 =? 24) || (n100 =? 3)) in
    let month := Z.shiftr (n + 50) 5 in
    let preceding :=
      at_index _DAYS_BEFORE_MONTH month + b2z ((2 <? month) && leapyear) in
    let '(month, preceding) :=
      if n <? preceding then
        (month - 1,
         preceding - (at_index _DAYS_IN_MONTH (month - 1)
                      + b2z ((month - 1 =? 2) && leapyear)))
      else (month, preceding) in
    (year, month, n - preceding + 1).

Definition _check_date_fields (year month day : Z) : Result (Z * Z * Z) :=
  if negb ((MINYEAR <=? year) && (year <=? MAXYEAR))
  then Raise (ValueError (YearOutOfRange year))
  else if negb ((1 <=? month) && (month <=? 12))
  then Raise (ValueError (MonthOutOfRange month))
  else
    let dim := _days_in_month year month in
    if negb ((1 <=? day) && (day <=? dim))
    then Raise (ValueError (DayOutOfRange day))
    else Ok (year, month, day).

Definition _check_time_fields (hour minute second microsecond : Z)
  : Result (Z * Z * Z * Z) :=
  if negb ((0 <=? hour) && (hour <=? 23))
  then Raise (ValueError (HourOutOfRange hour))
  else if negb ((0 <=? minute) && (minute <=? 59))
  then Raise (ValueError (MinuteOutOfRange minute))
  else if negb ((0 <=? second) && (second <=? 59))
  then Raise (ValueError (SecondOutOfRange second))
  else if negb ((0 <=? microsecond) && (microsecond <=? 999999))
  then Raise (ValueError (MicrosecondOutOfRange microsecond))
  else Ok (hour, minute, second, microsecond).

(** A naive [datetime] ([tzinfo=None], [fold=0]). *)
Record datetime := {
  year : Z;
  month : Z;
  day : Z;
  hour : Z;
  minute : Z;
  second : Z;
  microsecond : Z
}.

(** [datetime(year, month, day, hour, minute, second, microsecond)] *)
Definition datetime_new (year month day hour minute second microsecond : Z)
  : Result datetime :=
  rbind (_check_date_fields year month day) (fun '(year, month, day) =>
  rbind (_check_time_fields hour minute second microsecond)
    (fun '(hour, minute, second, microsecond) =>
  Ok {| year := year; month := month; day := day; hour := hour;
        minute := minute; second := second;
        microsecond := microsecond |})).

Record timedelta := {
  days : Z;
  seconds : Z;
  microseconds : Z
}.

(** [timedelta(days, seconds, microseconds, minutes=, hours=)] on integer
    arguments ([milliseconds] and [weeks] are left at 0 by every caller
    here, and the float branches are not taken). *)
Definition timedelta_new (days seconds microseconds minutes hours : Z)
  : Result timedelta :=
  let seconds := seconds + minutes * 60 + hours * 3600 in
  let d := days in
  let '(days, seconds) := (seconds / (24 * 3600), seconds mod (24 * 3600)) in
  let d := d + days in
  let s := seconds in
  let '(seconds, microseconds) :=
    (microseconds / 1000000, microseconds mod 1000000) in
  let '(days, seconds) := (seconds / (24 * 3600), seconds mod (24 * 3600)) in
  let d := d + days in
  let s := s + seconds in
  let '(seconds, us) := (microseconds / 1000000, microseconds mod 1000000) in
  let s := s + seconds in
  let '(days, s) := (s / (24 * 3600), s mod (24 * 3600)) in
  let d := d + days in
  if 999999999 <? Z.abs d then Raise OverflowError
  else Ok {| days := d; seconds := s; microseconds := us |}.

(** [timedelta.__add__] *)
Definition timedelta_add (self other : timedelta) : Result timedelta :=
  timedelta_new (days self + days other) (seconds self + seconds other)
                (microseconds self + microseconds other) 0 0.

Definition toordinal (self : datetime) : Z :=
  _ymd2ord (year self) (month self) (day self).

(** [datetime.__add__(self, other)] for a [timedelta]: through
    [date.fromordinal], [time(...)] and [datetime.combine]. *)
Definition datetime_add (self : datetime) (other : timedelta)
  : Result datetime :=
  rbind (timedelta_new (toordinal self) (second self) (microsecond self)
                       (minute self) (hour self)) (fun delta =>
  rbind (timedelta_add delta other) (fun delta =>
  let '(hour, rem) := (seconds delta / 3600, seconds delta mod 3600) in
  let '(minute, second) := (rem / 60, rem mod 60) in
  if (0 <? days delta) && (days delta <=? _MAXORDINAL) then
    let '(y, m, d) := _ord2ymd (days delta) in
    rbind (_check_date_fields y m d) (fun '(y, m, d) =>
    rbind (_check_time_fields hour minute second (microseconds delta))
      (fun '(hour, minute, second, us) =>
    datetime_new y m d hour minute second us))
  else Raise OverflowError)).

(** Comparison of the 7-tuples of fields, as [_cmp] does: -1, 0 or 1. *)
Fixpoint _cmp (x y : list Z) : Z :=
  match x, y with
  | [], [] => 0
  | [], _ :: _ => -1
  | _ :: _, [] => 1
  | a :: x', b :: y' =>
      if a =? b then _cmp x' y' else if b <? a then 1 else -1
  end.

Definition datetime_fields (d : datetime) : list Z :=
  [year d; month d; day d; hour d; minute d; second d; microsecond d].

Definition datetime_cmp (self other : datetime) : Z :=
  _cmp (datetime_fields self) (datetime_fields other).

(** [self < other] *)
Definition datetime_lt (self other : datetime) : bool :=
  datetime_cmp self other <? 0.

(** *** str(datetime) *)

Fixpoint uint_digits (u : Decimal.uint) : str :=
  match u with
  | Decimal.Nil => []
  | Decimal.D0 u => ord "0" :: uint_digits u
  | Decimal.D1 u => ord "1" :: uint_digits u
  | Decimal.D2 u => ord "2" :: uint_digits u
  | Decimal.D3 u => ord "3" :: uint_digits u
  | Decimal.D4 u => ord "4" :: uint_digits u
  | Decimal.D5 u => ord "5" :: uint_digits u
  | Decimal.D6 u => ord "6" :: uint_digits u
  | Decimal.D7 u => ord "7" :: uint_digits u
  | Decimal.D8 u => ord "8" :: uint_digits u
  | Decimal.D9 u => ord "9" :: uint_digits u
  end.

(** ['%0<width>d' % n] *)
Definition fmt_d (width : nat) (n : Z) : str :=
  let ds := uint_digits (N.to_uint (Z.abs_N n)) in
  let sign := if n <? 0 then lit "-" else [] in
  sign ++ repeat (ord "0") (width - (length sign + length ds))%nat ++ ds.

(** [_format_time(hh, mm, ss, us)] with [timespec='auto'] *)
Definition _format_time (hh mm ss us : Z) : str :=
  if negb (us =? 0) then
    fmt_d 2 hh ++ lit ":" ++ fmt_d 2 mm ++ lit ":" ++ fmt_d 2 ss
      ++ lit "." ++ fmt_d 6 us
  else fmt_d 2 hh ++ lit ":" ++ fmt_d 2 mm ++ lit ":" ++ fmt_d 2 ss.

(** [self.isoformat(sep)] of a naive datetime *)
Definition isoformat (self : datetime) (sep : N) : str :=
  fmt_d 4 (year self) ++ lit "-" ++ fmt_d 2 (month self) ++ lit "-"
    ++ fmt_d 2 (day self) ++ [sep]
    ++ _format_time (hour self) (minute self) (second self)
                    (microsecond self).

(** [str(self)] *)
Definition datetime_str (self : datetime) : str := isoformat self (ord " ").

(** ** _strptime

    The regular expressions of [TimeRE] are sequences of one-character
    atoms, grouped in ordered alternatives; [re.match] tries the
    alternatives from left to right and backtracks. *)

Inductive Atom :=
  | Digit                   (* \d: any Unicode decimal digit *)
  | Range (lo hi : N)       (* [lo-hi] *)
  | Char (c : N)            (* an uncased literal *)
  | Letter (c : N).         (* a literal letter under IGNORECASE *)

Inductive Node :=
  | One (a : Atom)
  | Group (name : ascii) (alternatives : list (list Atom)).

(** The letters of the format used here are T and Z, to which only their
    own two ASCII forms case-fold. *)
Definition atom_match (a : Atom) (c : N) : bool :=
  match a with
  | Digit => bool_decide (is_Some (Py_UNICODE_TODECIMAL c))
  | Range lo hi => ((lo <=? c) && (c <=? hi))%N
  | Char x => N.eqb c x
  | Letter x => N.eqb (lower_char c) (lower_char x)
  end.

Fixpoint match_atoms (p : list Atom) (s : str) : option (str * str) :=
  match p with
  | [] => Some ([], s)
  | a :: p' =>
      match s with
      | c :: s' =>
          if atom_match a c then
            match match_atoms p' s' with
            | Some (m, rest) => Some (c :: m, rest)
            | None => None
            end
          else None
      | [] => None
      end
  end.

(** [regex.match(s)]: the groups of the first match in backtracking order
    and the text after [found.end()]. *)
Fixpoint re_match (p : list Node) (s : str)
  : option (list (ascii * str) * str) :=
  match p with
  | [] => Some ([], s)
  | One a :: p' =>
      match s with
      | c :: s' => if atom_match a c then re_match p' s' else None
      | [] => None
      end
  | Group g alternatives :: p' =>
      (fix try (alts : list (list Atom)) :=
         match alts with
         | [] => None
         | alt :: more =>
             match match_atoms alt s with
             | Some (m, rest) =>
                 match re_match p' rest with
                 | Some (found_dict, fin) => Some ((g, m) :: found_dict, fin)
                 | None => try more
                 end
             | None => try more
             end
         end) alternatives
  end.

Definition ch (x : ascii) : Atom := Char (ord x).
Definition rg (lo hi : ascii) : Atom := Range (ord lo) (ord hi).

(** The entries of [TimeRE] for the directives of the script's format. *)
Definition TimeRE (directive : ascii) : option Node :=
  match directive with
  | "d"%char => Some (Group "d" [[ch "3"; rg "0" "1"]; [rg "1" "2"; Digit];
                                 [ch "0"; rg "1" "9"]; [rg "1" "9"];
                                 [ch " "; rg "1" "9"]])
  | "H"%char => Some (Group "H" [[ch "2"; rg "0" "3"]; [rg "0" "1"; Digit];
                                 [Digit]])
  | "m"%char => Some (Group "m" [[ch "1"; rg "0" "2"]; [ch "0"; rg "1" "9"];
                                 [rg "1" "9"]])
  | "M"%char => Some (Group "M" [[rg "0" "5"; Digit]; [Digit]])
  | "S"%char => Some (Group "S" [[ch "6"; rg "0" "1"]; [rg "0" "5"; Digit];
                                 [Digit]])
  | "Y"%char => Some (Group "Y" [[Digit; Digit; Digit; Digit]])
  | _ => None
  end.

(** [TimeRE.pattern(format)] compiled with IGNORECASE, for a format whose
    literal characters are letters. *)
Fixpoint pattern (format : list ascii) : option (list Node) :=
  match format with
  | [] => Some []
  | "%"%char :: directive :: format' =>
      match TimeRE directive, pattern format' with
      | Some n, Some p => Some (n :: p)
      | _, _ => None
      end
  | c :: format' =>
      match pattern format' with
      | Some p => Some (One (Letter (ord c)) :: p)
      | None => None
      end
  end.

(** The fields that the loop over [found_dict] assigns. *)
Record Found := {
  f_year : option Z;
  f_month : Z;
  f_day : Z;
  f_hour : Z;
  f_minute : Z;
  f_second : Z
}.

Definition found_step (acc : Result Found) (kv : ascii * str)
  : Result Found :=
  rbind acc (fun f =>
  let '(group_key, text) := kv in
  rbind (int (Some text)) (fun v =>
  Ok match group_key with
     | "Y"%char => {| f_year := Some v; f_month := f_month f;
                      f_day := f_day f; f_hour := f_hour f;
                      f_minute := f_minute f; f_second := f_second f |}
     | "m"%char => {| f_year := f_year f; f_month := v;
                      f_day := f_day f; f_hour := f_hour f;
                      f_minute := f_minute f; f_second := f_second f |}
     | "d"%char => {| f_year := f_year f; f_month := f_month f;
                      f_day := v; f_hour := f_hour f;
                      f_minute := f_minute f; f_second := f_second f |}
     | "H"%char => {| f_year := f_year f; f_month := f_month f;
                      f_day := f_day f; f_hour := v;
                      f_minute := f_minute f; f_second := f_second f |}
     | "M"%char => {| f_year := f_year f; f_month := f_month f;
                      f_day := f_day f; f_hour := f_hour f;
                      f_minute := v; f_second := f_second f |}
     | "S"%char => {| f_year := f_year f; f_month := f_month f;
                      f_day := f_day f; f_hour := f_hour f;
                      f_minute := f_minute f; f_second := v |}
     | _ => f
     end)).

(** [_strptime(data_string, format)], as far as its first six results:
    year, month, day, hour, minute, second. *)
Definition _strptime (data_string : option str) (format : string)
  : Result (Z * Z * Z * Z * Z * Z) :=
  match data_string with
  | None => Raise TypeError
  | Some data_string =>
      match pattern (list_ascii_of_string format) with
      | None => Raise (ValueError (BadDirective format))
      | Some format_regex =>
          match re_match format_regex data_string with
          | None => Raise (ValueError (TimeDataMismatch data_string))
          | Some (found_dict, rest) =>
              if truthy rest then Raise (ValueError (UnconvertedData rest))
              else
                rbind (fold_left found_step found_dict
                         (Ok {| f_year := None; f_month := 1; f_day := 1;
                                f_hour := 0; f_minute := 0;
                                f_second := 0 |})) (fun f =>
                let year :=
                  match f_year f with
                  | Some y => y
                  | None => if (f_month f =? 2) && (f_day f =? 29)
                            then 1904 else 1900
                  end in
                (* julian: datetime_date(year, month, day) and
                   datetime_date(year, 1, 1) are constructed *)
                rbind (_check_date_fields year (f_month f) (f_day f))
                  (fun _ =>
                rbind (_check_date_fields year 1 1) (fun _ =>
                let year :=
                  match f_year f with
                  | Some y => y
                  | None => 1900
                  end in
                Ok (year, f_month f, f_day f,
                    f_hour f, f_minute f, f_second f))))
          end
      end
  end.

(** [datetime.strptime(date_string, format)]: [_strptime_datetime]. *)
Definition strptime (date_string : option str) (format : string)
  : Result datetime :=
  rbind (_strptime date_string format)
    (fun '(year, month, day, hour, minute, second) =>
       datetime_new year month day hour minute second 0).

(** ** The script

    The process state is what has been written to standard output, one
    entry per [print] that returned, and how often the clock has been
    read.  The clock
    is a sequence of readings: the [i]-th call of [datetime.utcnow()]
    returns [clock i]. *)

Record World := {
  stdout : list str;
  clock_reads : nat
}.

Definition M (A : Type) : Type := World -> Result A * World.

Definition ret {A} (a : A) : M A := fun w => (Ok a, w).

Definition bind {A B} (m : M A) (k : A -> M B) : M B :=
  fun w => match m w with
           | (Ok a, w') => k a w'
           | (Raise e, w') => (Raise e, w')
           end.

Definition raise {A} (e : Exception) : M A := fun w => (Raise e, w).

Definition lift {A} (r : Result A) : M A := fun w => (r, w).

(** Whether [sys.stdout.write(text)] returns: ASCII text is encoded by
    every encoding that standard output is given; for other text the
    stream's encoding decides. *)
Definition stdout_accepts (text : str) : bool :=
  isascii text || stdout_encodes text.

(** [print(text)]: the text and a line feed are written to standard
    output, or the encoder raises and nothing is written. *)
Definition print (text : str) : M unit :=
  fun w => if stdout_accepts text
           then (Ok tt, {| stdout := stdout w ++ [text];
                           clock_reads := clock_reads w |})
           else (Raise (UnicodeEncodeError text), w).

Definition sys_exit {A} (code : Z) : M A := raise (SystemExit code).

(** [try: body except Exception as e: handler e] *)
Definition try_except {A} (body : M A) (handler : Exception -> M A) : M A :=
  fun w => match body w with
           | (Raise e, w') =>
               if isinstance_Exception e then handler e w'
               else (Raise e, w')
           | r => r
           end.

End Library.

Notation "x <- m ;; k" := (bind m (fun x => k))
  (at level 100, m at next level, right associativity).
Notation "m ;;; k" := (bind m (fun _ => k))
  (at level 100, right associativity).

Section Script.
Context {rt : Runtime}.
Variable clock : nat -> datetime.

(** [datetime.utcnow()] *)
Definition utcnow : M datetime :=
  fun w => (Ok (clock (clock_reads w)),
            {| stdout := stdout w; clock_reads := S (clock_reads w) |}).

(** [l[i]] *)
Definition getitem {A} (l : list A) (i : nat) : M A :=
  match l !! i with
  | Some x => ret x
  | None => raise IndexError
  end.

(** [params.get(key, [None])] *)
Definition params_get (params : gmap str (list str)) (key : str)
  : list (option str) :=
  match params !! key with
  | Some values => map Some values
  | None => [None]
  end.

(** [not x] for [x] a string or [None] *)
Definition py_not (x : option str) : bool :=
  match x with
  | None => true
  | Some s => negb (truthy s)
  end.

Definition usage_line : str :=
  lit "Usage: python check_presigned_url_expiry.py <presigned_url>".
Definition missing_line : str :=
  lit "Could not find X-Amz-Date or X-Amz-Expires in the URL.".
Definition valid_line : str := lit "The pre-signed URL is still valid.".
Definition expired_line : str := lit "The pre-signed URL has expired.".

(** The lines of check_presigned_url_expiry.py, in order. *)
Definition script (argv : list str) : M unit :=
  (if negb (length argv =? 2)%nat
   then print usage_line ;;; sys_exit 1
   else ret tt) ;;;
  url <- getitem argv 1 ;;
  parsed <- lift (urlparse url) ;;
  let params := parse_qs (query parsed) in
  amz_date <- getitem (params_get params (lit "X-Amz-Date")) 0 ;;
  expires <- getitem (params_get params (lit "X-Amz-Expires")) 0 ;;
  (if py_not amz_date || py_not expires
   then print missing_line ;;; sys_exit 1
   else ret tt) ;;;
  parsed_values <-
    try_except
      (dt <- lift (strptime amz_date "%Y%m%dT%H%M%SZ") ;;
       expires <- lift (int expires) ;;
       ret (dt, expires))
      (fun e =>
         print (lit "Error parsing date or expires: " ++ exception_str e) ;;;
         sys_exit 1) ;;
  let '(dt, expires) := parsed_values in
  delta <- lift (timedelta_new 0 expires 0 0 0) ;;
  expiry_time <- lift (datetime_add dt delta) ;;
  now <- utcnow ;;
  print (lit "URL generated at: " ++ datetime_str dt ++ lit " UTC") ;;;
  print (lit "Expires at:      " ++ datetime_str expiry_time ++ lit " UTC") ;;;
  print (lit "Current time:    " ++ datetime_str now ++ lit " UTC") ;;;
  (if datetime_lt now expiry_time
   then print valid_line
   else print expired_line).

(** What the operating system sees of a run: the texts written to
    standard output, one per [print], the exit status, the exception of the traceback on standard
    error if the run ended in one, and the number of clock readings. *)
Record Outcome := {
  output : list str;
  exit_status : Z;
  traceback : option Exception;
  clock_read_count : nat
}.

(** Running the interpreter on the script with [sys.argv = argv]. *)
Definition run (argv : list str) : Outcome :=
  let '(r, w) := script argv {| stdout := []; clock_reads := 0 |} in
  match r with
  | Ok _ =>
      {| output := stdout w; exit_status := 0; traceback := None;
         clock_read_count := clock_reads w |}
  | Raise (SystemExit code) =>
      {| output := stdout w; exit_status := code; traceback := None;
         clock_read_count := clock_reads w |}
  | Raise e =>
      {| output := stdout w; exit_status := 1; traceback := Some e;
         clock_read_count := clock_reads w |}
  end.

End Script.

(** ** Notions used in the statements *)

Section Notions.
Context {rt : Runtime}.

(** The values that follow [key] in a list of pairs, in order. *)
Definition values_of (key : str) (pairs : list (str * str)) : list str :=
  omap (fun kv => if decide (kv.1 = key) then Some kv.2 else None) pairs.

(** The value of the first field of the query string named [key], among
    the fields that [parse_qsl] keeps. *)
Definition first_value (qs key : str) : option str :=
  head (values_of key (parse_qsl qs)).

(** The name of a query field as the mapping shows it. *)
Definition decode (raw : str) : str := unquote (replace (ord "+") (lit " ") raw).

(** The body of the script's [try] block. *)
Definition parse_values (amz_date expires : option str)
  : Result (datetime * Z) :=
  rbind (strptime amz_date "%Y%m%dT%H%M%SZ") (fun dt =>
  rbind (int expires) (fun expires => Ok (dt, expires))).

(** The script's line [expiry_time = dt + timedelta(seconds=expires)]. *)
Definition expiry_of (dt : datetime) (expires : Z) : Result datetime :=
  rbind (timedelta_new 0 expires 0 0 0) (datetime_add dt).

(** The outcome of a run that stops at the missing-parameter check. *)
Definition missing_outcome : Outcome :=
  {| output := [missing_line]; exit_status := 1; traceback := None;
     clock_read_count := 0 |}.

(** The outcome of a run that stops at the argument count. *)
Definition usage_outcome : Outcome :=
  {| output := [usage_line]; exit_status := 1; traceback := None;
     clock_read_count := 0 |}.

(** *** Calendar notions *)

(** A month and a day that exist in the year. *)
Definition valid_date (y m d : Z) : Prop :=
  1 <= m <= 12 /\ 1 <= d <= _days_in_month y m.

(** A [datetime] object that the constructor accepts. *)
Definition valid_datetime (d : datetime) : Prop :=
  datetime_new (year d) (month d) (day d) (hour d) (minute d) (second d)
               (microsecond d) = Ok d.

(** Position on the linear time line, in seconds and in microseconds
    after 0000-12-31 00:00:00 (the start of the day of ordinal 0). *)
Definition seconds_since_origin (d : datetime) : Z :=
  toordinal d * 86400 + hour d * 3600 + minute d * 60 + second d.

Definition microseconds_since_origin (d : datetime) : Z :=
  seconds_since_origin d * 1000000 + microsecond d.

Definition timedelta_microseconds (delta : timedelta) : Z :=
  (days delta * 86400 + seconds delta) * 1000000 + microseconds delta.

(** The instants a [datetime] can hold: from 0001-01-01 00:00:00.000000
    to 9999-12-31 23:59:59.999999. *)
Definition representable (t : Z) : Prop :=
  86400 * 1000000 <= t < (_MAXORDINAL + 1) * 86400 * 1000000.

(** The last step of [_ord2ymd]: month and day from the offset in the
    year. *)
Definition month_day (leapyear : bool) (n : Z) : Z * Z :=
  let month := Z.shiftr (n + 50) 5 in
  let preceding :=
    at_index _DAYS_BEFORE_MONTH month + b2z ((2 <? month) && leapyear) in
  let '(month, preceding) :=
    if n <? preceding then
      (month - 1,
       preceding - (at_index _DAYS_IN_MONTH (month - 1)
                    + b2z ((month - 1 =? 2) && leapyear)))
    else (month, preceding) in
  (month, n - preceding + 1).

Definition month_day_ok (leapyear : bool) (n : Z) : bool :=
  let '(m, d) := month_day leapyear n in
  (1 <=? m) && (m <=? 12) && (1 <=? d)
  && (d <=? (if (m =? 2) && leapyear then 29 else at_index _DAYS_IN_MONTH m))
  && (at_index _DAYS_BEFORE_MONTH m + b2z ((2 <? m) && leapyear) + d =? n + 1).

(** A field of the query string that names [name] and carries no value:
    [name=], or [name] alone. *)
Definition empty_field (name field : str) : Prop :=
  exists n, decode n = name /\
            (split1 (ord "=") field = [n; []] \/ split1 (ord "=") field = [n]).

(** Every field of the query string that names [name] has an empty
    value. *)
Definition only_empty_values (qs name : str) : Prop :=
  forall field n v,
    field ∈ split (ord "&") qs ->
    split1 (ord "=") field = [n; v] ->
    decode n = name ->
    v = [].

(** The query string has a field that names [name] with a non-empty
    value. *)
Definition occurs_with_value (qs name : str) : Prop :=
  exists field n raw,
    field ∈ split (ord "&") qs /\ split1 (ord "=") field = [n; raw]
    /\ raw <> [] /\ decode n = name.

(** [raw] is the value, as written, of the first field of the query string
    that names [name] with a non-empty value: the fields before it that
    name [name] have an empty value. *)
Definition first_valued_occurrence (qs name raw : str) : Prop :=
  exists pre field post n,
    split (ord "&") qs = pre ++ field :: post
    /\ split1 (ord "=") field = [n; raw] /\ raw <> [] /\ decode n = name
    /\ forall f n' v,
         f ∈ pre -> split1 (ord "=") f = [n'; v] -> decode n' = name ->
         v = [].

End Notions.

(** The format YYYYMMDD'T'HHMMSS'Z' as the specification words it: eight
    digits, the letter T, six digits, the letter Z.  It is compared below
    with what [strptime] accepts. *)
Definition spec_fixed_format (s : str) : bool :=
  match s with
  | [y1; y2; y3; y4; m1; m2; d1; d2; t; h1; h2; mi1; mi2; s1; s2; z] =>
      forallb is_digit [y1; y2; y3; y4; m1; m2; d1; d2; h1; h2; mi1; mi2;
                        s1; s2]
      && N.eqb t (ord "T") && N.eqb z (ord "Z")
  | _ => false
  end.

(** An ASCII character other than a square bracket. *)
Definition plain_char (c : N) : bool :=
  isascii_char c && negb (N.eqb c (ord "[")) && negb (N.eqb c (ord "]")).

(** A string of such characters. *)
Definition plain (s : str) : Prop := Forall (fun c => plain_char c = true) s.

(** ** Notions used in the further properties *)

Section FurtherNotions.
Context {rt : Runtime}.

(** The phase at which a run ends, with what decided it. *)
Inductive Ending (clock : nat -> datetime) (argv : list str) : Prop :=
  | EndUsage :
      length argv <> 2%nat ->
      run clock argv = usage_outcome ->
      Ending clock argv
  | EndUrlError prog url cause :
      argv = [prog; url] ->
      urlparse url = Raise (ValueError cause) ->
      run clock argv =
        {| output := []; exit_status := 1;
           traceback := Some (ValueError cause); clock_read_count := 0 |} ->
      Ending clock argv
  | EndMissing prog url parsed :
      argv = [prog; url] ->
      urlparse url = Ok parsed ->
      py_not (first_value (query parsed) (lit "X-Amz-Date"))
      || py_not (first_value (query parsed) (lit "X-Amz-Expires")) = true ->
      run clock argv = missing_outcome ->
      Ending clock argv
  | EndParseError prog url parsed e :
      argv = [prog; url] ->
      urlparse url = Ok parsed ->
      parse_values (first_value (query parsed) (lit "X-Amz-Date"))
                   (first_value (query parsed) (lit "X-Amz-Expires"))
        = Raise e ->
      isinstance_Exception e = true ->
      stdout_accepts (lit "Error parsing date or expires: "
                        ++ exception_str e) = true ->
      run clock argv =
        {| output := [lit "Error parsing date or expires: "
                        ++ exception_str e];
           exit_status := 1; traceback := None; clock_read_count := 0 |} ->
      Ending clock argv
  | EndEncodeError prog url parsed e :
      argv = [prog; url] ->
      urlparse url = Ok parsed ->
      parse_values (first_value (query parsed) (lit "X-Amz-Date"))
                   (first_value (query parsed) (lit "X-Amz-Expires"))
        = Raise e ->
      isinstance_Exception e = true ->
      stdout_accepts (lit "Error parsing date or expires: "
                        ++ exception_str e) = false ->
      run clock argv =
        {| output := []; exit_status := 1;
           traceback :=
             Some (UnicodeEncodeError
                     (lit "Error parsing date or expires: "
                        ++ exception_str e));
           clock_read_count := 0 |} ->
      Ending clock argv
  | EndOverflow prog url parsed dt n :
      argv = [prog; url] ->
      urlparse url = Ok parsed ->
      parse_values (first_value (query parsed) (lit "X-Amz-Date"))
                   (first_value (query parsed) (lit "X-Amz-Expires"))
        = Ok (dt, n) ->
      ~ representable (microseconds_since_origin dt + n * 1000000) ->
      run clock argv =
        {| output := []; exit_status := 1; traceback := Some OverflowError;
           clock_read_count := 0 |} ->
      Ending clock argv
  | EndReport prog url parsed dt n expiry_time :
      argv = [prog; url] ->
      urlparse url = Ok parsed ->
      parse_values (first_value (query parsed) (lit "X-Amz-Date"))
                   (first_value (query parsed) (lit "X-Amz-Expires"))
        = Ok (dt, n) ->
      expiry_of dt n = Ok expiry_time ->
      run clock argv =
        {| output :=
             [lit "URL generated at: " ++ datetime_str dt ++ lit " UTC";
              lit "Expires at:      " ++ datetime_str expiry_time
                ++ lit " UTC";
              lit "Current time:    " ++ datetime_str (clock 0%nat)
                ++ lit " UTC";
              if datetime_lt (clock 0%nat) expiry_time
              then valid_line else expired_line];
           exit_status := 0; traceback := None; clock_read_count := 1 |} ->
      Ending clock argv.

(** The alternatives of a group, tried in order, with the match of the
    rest of the pattern as a continuation: the inner loop of
    [re_match]. *)
Fixpoint match_group (g : ascii) (alts : list (list Atom))
    (k : str -> option (list (ascii * str) * str)) (s : str)
  : option (list (ascii * str) * str) :=
  match alts with
  | [] => None
  | alt :: more =>
      match match_atoms alt s with
      | Some (m, rest) =>
          match k rest with
          | Some (found_dict, fin) => Some ((g, m) :: found_dict, fin)
          | None => match_group g more k s
          end
      | None => match_group g more k s
      end
  end.

End FurtherNotions.

(** The number that a string of ASCII digits denotes in base 10. *)
Definition digits_value (ds : str) : Z :=
  fold_left (fun acc c => 10 * acc + Z.of_N (c - 48)) ds 0.

(** A string of ASCII digits. *)
Definition all_digits (ds : str) : Prop :=
  Forall (fun c => is_digit c = true) ds.

(** The number written in [s[i : i + n]]. *)
Definition field (i n : nat) (s : str) : Z := digits_value (take n (drop i s)).

(** None of the characters [cs] occurs in [s]. *)
Definition free_of (cs : list N) (s : str) : bool :=
  forallb (fun c => negb (contains c s)) cs.

(** Tab, line feed, carriage return, the characters that end the network
    location, and the square brackets. *)
Definition netloc_delimiters : list N :=
  [9; 10; 13; ord "/"; ord "?"; ord "#"; ord "["; ord "]"]%N.

(** ** An instance for evaluating examples

    No digits or spaces beyond ASCII, bytes decoded as Latin-1, every
    bracketed host accepted, the default digit limit, a standard output
    that encodes every text.  The examples below are ASCII strings without
    percent signs or brackets, on which the tables are not consulted. *)

(** [repr(s)] for a string of printable ASCII characters other than the
    quote and the backslash. *)
Definition sample_repr (s : str) : str := lit "'" ++ s ++ lit "'".

(** [str(e)] for the exceptions that [strptime], with the format of the
    script, and [int] raise. *)
Definition sample_exception_str (e : Exception) : str :=
  match e with
  | ValueError (TimeDataMismatch data_string) =>
      lit "time data " ++ sample_repr data_string
        ++ lit " does not match format '%Y%m%dT%H%M%SZ'"
  | ValueError (UnconvertedData rest) =>
      lit "unconverted data remains: " ++ rest
  | ValueError (InvalidLiteral s) =>
      lit "invalid literal for int() with base 10: " ++ sample_repr s
  | ValueError (ExceedsDigitLimit digits) =>
      lit "Exceeds the limit (4300 digits) for integer string conversion: value has "
        ++ fmt_d 0 digits
        ++ lit " digits; use sys.set_int_max_str_digits() to increase the limit"
  | ValueError (YearOutOfRange year) =>
      lit "year " ++ fmt_d 0 year ++ lit " is out of range"
  | ValueError (MonthOutOfRange _) => lit "month must be in 1..12"
  | ValueError (DayOutOfRange _) => lit "day is out of range for month"
  | ValueError (HourOutOfRange _) => lit "hour must be in 0..23"
  | ValueError (MinuteOutOfRange _) => lit "minute must be in 0..59"
  | ValueError (SecondOutOfRange _) => lit "second must be in 0..59"
  | ValueError (MicrosecondOutOfRange _) =>
      lit "microsecond must be in 0..999999"
  | _ => []
  end.

Definition sample_runtime : Runtime :=
  {| unicode_todecimal := fun _ => None;
     unicode_isspace := fun _ => false;
     decode_utf8_replace := fun bytes => bytes;
     bracketed_host_ok := fun _ => true;
     normalize_NFKC := fun s => s;
     int_max_str_digits := 4300;
     exception_str := sample_exception_str;
     stdout_encodes := fun _ => true |}.

(** The same with a standard output that encodes ASCII only. *)
Definition ascii_stdout_runtime : Runtime :=
  {| unicode_todecimal := fun _ => None;
     unicode_isspace := fun _ => false;
     decode_utf8_replace := fun bytes => bytes;
     bracketed_host_ok := fun _ => true;
     normalize_NFKC := fun s => s;
     int_max_str_digits := 4300;
     exception_str := sample_exception_str;
     stdout_encodes := fun _ => false |}.

(** A clock whose first reading is 2020-01-01 02:00:00.000001 and which
    advances by one second per reading. *)
Definition sample_clock (i : nat) : datetime :=
  {| year := 2020; month := 1; day := 1; hour := 2; minute := 0;
     second := Z.of_nat i mod 60; microsecond := 1 |}.

(** * Properties *)

(** ** Inputs of the examples *)

Definition prog_name : str := lit "check_presigned_url_expiry.py".

(** Scenario A of the specification. *)
Definition url_scenario : str :=
  lit "https://x.example.com/obj?X-Amz-Date=20200101T000000Z&X-Amz-Expires=3600".

Definition url_huge_expires : str :=
  lit "https://x.example.com/obj?X-Amz-Date=20200101T000000Z&X-Amz-Expires=99999999999999999".

Definition url_last_second : str :=
  lit "https://x.example.com/obj?X-Amz-Date=99991231T235959Z&X-Amz-Expires=1".

Definition url_first_second : str :=
  lit "https://x.example.com/obj?X-Amz-Date=00010101T000000Z&X-Amz-Expires=-1".

Definition url_negative_expires : str :=
  lit "https://x.example.com/obj?X-Amz-Date=20200101T000000Z&X-Amz-Expires=-60".

Definition url_lowercase_tz : str :=
  lit "https://x.example.com/obj?X-Amz-Date=20200101t000000z&X-Amz-Expires=3600".

Definition url_bad_date : str :=
  lit "https://x.example.com/obj?X-Amz-Date=bad-date&X-Amz-Expires=3600".

Definition url_open_bracket : str := lit "http://[".

Definition url_blank_then_3600 : str :=
  lit "https://x.example.com/obj?X-Amz-Date=20200101T000000Z&X-Amz-Expires=&X-Amz-Expires=3600".

Definition url_blank_then_7200 : str :=
  lit "https://x.example.com/obj?X-Amz-Date=20200101T000000Z&X-Amz-Expires=&X-Amz-Expires=7200".

Definition url_repeated_3600_7200 : str :=
  lit "https://x.example.com/obj?X-Amz-Date=20200101T000000Z&X-Amz-Expires=3600&X-Amz-Expires=7200".

Definition url_repeated_3600_60 : str :=
  lit "https://x.example.com/obj?X-Amz-Date=20200101T000000Z&X-Amz-Expires=3600&X-Amz-Date=x&X-Amz-Expires=60".

Definition url_no_date : str :=
  lit "https://x.example.com/obj?X-Amz-Expires=3600".

Definition url_empty_expires : str :=
  lit "https://x.example.com/obj?X-Amz-Date=20200101T000000Z&X-Amz-Expires=".

Definition url_unclosed_bracket : str :=
  lit "https://[x.example.com/obj?X-Amz-Expires=3600".

Definition url_3600_then_blank : str :=
  lit "https://x.example.com/obj?X-Amz-Date=20200101T000000Z&X-Amz-Expires=3600&X-Amz-Expires=".

(** A URL whose X-Amz-Date value ends in the letter e with an acute
    accent. *)
Definition url_accented_date : str :=
  lit "https://x.example.com/obj?X-Amz-Date=20200101T000000Z" ++ [233%N]
    ++ lit "&X-Amz-Expires=3600".

Definition url_three_hours : str :=
  lit "https://x.example.com/obj?X-Amz-Date=20200101T000000Z&X-Amz-Expires=10800".

Definition url_one_day : str :=
  lit "https://x.example.com/obj?X-Amz-Date=20200101T000000Z&X-Amz-Expires=86400".

Definition url_with_algorithm : str :=
  lit "https://x.example.com/obj?X-Amz-Date=20200101T000000Z&X-Amz-Algorithm=AWS4-HMAC-SHA256&X-Amz-Expires=3600".

Definition url_expires_first : str :=
  lit "https://x.example.com/obj?X-Amz-Expires=3600&X-Amz-Date=20200101T000000Z".

(** A clock half a minute ahead of [sample_clock]. *)
Definition later_clock (i : nat) : datetime := sample_clock (i + 30).

(** The parts of a pre-signed URL as S3 writes them. *)
Definition s3_host : str := lit "my-bucket.s3.amazonaws.com".

Definition s3_path : str := lit "/photos/cat.jpg".

Definition s3_query : str :=
  lit "X-Amz-Algorithm=AWS4-HMAC-SHA256&X-Amz-Credential=EXAMPLEKEY%2F20200101%2Fus-east-1%2Fs3%2Faws4_request&X-Amz-Date=20200101T000000Z&X-Amz-Expires=3600&X-Amz-SignedHeaders=host&X-Amz-Signature=0123abcd".

Section Properties.
Context {rt : Runtime}.

(** ** The query mapping *)

Lemma fold_parse_qs_step_lookup (pairs : list (str * str)) :
  forall (m : gmap str (list str)) (k : str),
    fold_left parse_qs_step pairs m !! k =
    match m !! k with
    | Some vs => Some (vs ++ values_of k pairs)
    | None => match values_of k pairs with
              | [] => None
              | vs => Some vs
              end
    end.
Proof.
  induction pairs as [|[n v] pairs IH]; intros m k.
  - cbn. destruct (m !! k); [by rewrite app_nil_r | done].
  - cbn [fold_left]. rewrite IH. unfold parse_qs_step, values_of.
    cbn [omap list_omap fst snd]. fold (values_of k pairs).
    destruct (decide (n = k)) as [->|Hne].
    + destruct (m !! k) as [vs|] eqn:E.
      * rewrite lookup_insert_eq. by rewrite <- app_assoc.
      * by rewrite lookup_insert_eq.
    + destruct (m !! n) as [vs|] eqn:E;
        by rewrite lookup_insert_ne.
Qed.

Lemma parse_qs_lookup (qs k : str) :
  parse_qs qs !! k =
  match values_of k (parse_qsl qs) with
  | [] => None
  | vs => Some vs
  end.
Proof.
  unfold parse_qs. rewrite fold_parse_qs_step_lookup.
  by rewrite lookup_empty.
Qed.

Lemma parse_qs_lookup_None (qs k : str) :
  parse_qs qs !! k = None <-> first_value qs k = None.
Proof.
  rewrite parse_qs_lookup. unfold first_value.
  by destruct (values_of k (parse_qsl qs)).
Qed.

(** [params.get(key, [None])[0]] never fails, and is the first value. *)
Lemma getitem_params_get (qs key : str) :
  getitem (params_get (parse_qs qs) key) 0 = ret (first_value qs key).
Proof.
  unfold params_get, first_value. rewrite parse_qs_lookup.
  by destruct (values_of key (parse_qsl qs)).
Qed.

(** ** What standard output accepts *)

Lemma print_accepted (text : str) (w : World) :
  stdout_accepts text = true ->
  print text w = (Ok tt, {| stdout := stdout w ++ [text];
                            clock_reads := clock_reads w |}).
Proof. unfold print. by intros ->. Qed.

Lemma print_refused (text : str) (w : World) :
  stdout_accepts text = false ->
  print text w = (Raise (UnicodeEncodeError text), w).
Proof. unfold print. by intros ->. Qed.

Lemma print_ascii (text : str) (w : World) :
  isascii text = true ->
  print text w = (Ok tt, {| stdout := stdout w ++ [text];
                            clock_reads := clock_reads w |}).
Proof.
  intros H. apply print_accepted. unfold stdout_accepts. by rewrite H.
Qed.

Lemma isascii_app (a b : str) : isascii (a ++ b) = isascii a && isascii b.
Proof. apply forallb_app. Qed.

Lemma isascii_uint_digits (u : Decimal.uint) : isascii (uint_digits u) = true.
Proof. induction u; cbn; done. Qed.

Lemma isascii_fmt_d (width : nat) (n : Z) : isascii (fmt_d width n) = true.
Proof.
  unfold fmt_d. rewrite !isascii_app, isascii_uint_digits, andb_true_r.
  apply andb_true_intro. split; [by destruct (n <? 0)|].
  apply forallb_forall. by intros c ->%repeat_spec.
Qed.

Lemma isascii_datetime_str (d : datetime) : isascii (datetime_str d) = true.
Proof.
  unfold datetime_str, isoformat, _format_time.
  destruct (negb (microsecond d =? 0)); by rewrite !isascii_app, !isascii_fmt_d.
Qed.

(** The three labelled lines of the report are ASCII. *)
Lemma isascii_report_line (label : string) (d : datetime) :
  isascii (lit label) = true ->
  isascii (lit label ++ datetime_str d ++ lit " UTC") = true.
Proof. intros H. by rewrite !isascii_app, H, isascii_datetime_str. Qed.

(** ** The phases of a run *)

Section Phases.
Variable clock : nat -> datetime.

Ltac run_unfold :=
  unfold run, script, bind, lift, ret, raise, sys_exit, utcnow, try_except.

Lemma run_wrong_argc (argv : list str) :
  length argv <> 2%nat -> run clock argv = usage_outcome.
Proof.
  intros H. run_unfold.
  destruct (Nat.eqb_spec (length argv) 2) as [E|_]; [done|].
  cbn [negb]. by rewrite print_ascii.
Qed.

(** *** Which exceptions the library functions raise *)

Lemma int_raises (x : option str) (e : Exception) :
  int x = Raise e -> isinstance_Exception e = true.
Proof.
  unfold int, PyLong_FromString. intros H.
  repeat case_match; simplify_eq; done.
Qed.

Lemma _check_date_fields_raises (y m d : Z) (e : Exception) :
  _check_date_fields y m d = Raise e -> isinstance_Exception e = true.
Proof.
  unfold _check_date_fields. intros H. repeat case_match; simplify_eq; done.
Qed.

Lemma _check_time_fields_raises (h mi sec us : Z) (e : Exception) :
  _check_time_fields h mi sec us = Raise e -> isinstance_Exception e = true.
Proof.
  unfold _check_time_fields. intros H. repeat case_match; simplify_eq; done.
Qed.

Lemma rbind_raises {A B} (r : Result A) (k : A -> Result B) (e : Exception) :
  rbind r k = Raise e ->
  r = Raise e \/ exists a, r = Ok a /\ k a = Raise e.
Proof.
  destruct r as [a|e0]; cbn; intros H.
  - right. exists a. by split.
  - left. by simplify_eq.
Qed.

Lemma datetime_new_raises (y m d h mi sec us : Z) (e : Exception) :
  datetime_new y m d h mi sec us = Raise e -> isinstance_Exception e = true.
Proof.
  unfold datetime_new. intros H.
  apply rbind_raises in H as [H|([[y' m'] d'] & _ & H)];
    [by eapply _check_date_fields_raises|].
  apply rbind_raises in H as [H|([[[h' mi'] s'] us'] & _ & H)];
    [by eapply _check_time_fields_raises|done].
Qed.

Lemma fold_found_step_raises (found_dict : list (ascii * str)) :
  forall (acc : Result Found) (e : Exception),
    (forall e', acc = Raise e' -> isinstance_Exception e' = true) ->
    fold_left found_step found_dict acc = Raise e ->
    isinstance_Exception e = true.
Proof.
  induction found_dict as [|[g text] l IH]; intros acc e Hacc H.
  - by apply Hacc.
  - cbn [fold_left] in H. eapply IH; [|exact H].
    intros e' He'. unfold found_step in He'.
    apply rbind_raises in He' as [He'|(f & _ & He')]; [by apply Hacc|].
    apply rbind_raises in He' as [He'|(v & _ & He')];
      [by eapply int_raises|done].
Qed.

Lemma _strptime_raises (s : option str) (format : string) (e : Exception) :
  _strptime s format = Raise e -> isinstance_Exception e = true.
Proof.
  unfold _strptime. intros H.
  destruct s as [s|]; [|by simplify_eq].
  destruct (pattern _) as [p|]; [|by simplify_eq].
  destruct (re_match p s) as [[found_dict rest]|]; [|by simplify_eq].
  destruct (truthy rest); [by simplify_eq|].
  apply rbind_raises in H as [H|(f & _ & H)].
  { eapply fold_found_step_raises; [|exact H]. intros; simplify_eq. }
  apply rbind_raises in H as [H|(? & _ & H)];
    [by eapply _check_date_fields_raises|].
  apply rbind_raises in H as [H|(? & _ & H)];
    [by eapply _check_date_fields_raises|done].
Qed.

Lemma strptime_raises (s : option str) (format : string) (e : Exception) :
  strptime s format = Raise e -> isinstance_Exception e = true.
Proof.
  unfold strptime. intros H.
  apply rbind_raises in H as [H|([[[[[y m] d] h] mi] sec] & _ & H)];
    [by eapply _strptime_raises | by eapply datetime_new_raises].
Qed.

Lemma parse_values_raises (amz_date expires : option str) (e : Exception) :
  parse_values amz_date expires = Raise e -> isinstance_Exception e = true.
Proof.
  unfold parse_values. intros H.
  apply rbind_raises in H as [H|(dt & _ & H)]; [by eapply strptime_raises|].
  apply rbind_raises in H as [H|(n & _ & H)]; [by eapply int_raises|done].
Qed.

Lemma timedelta_new_raises (d s us mi h : Z) (e : Exception) :
  timedelta_new d s us mi h = Raise e -> e = OverflowError.
Proof.
  unfold timedelta_new. intros H. by case_match; simplify_eq.
Qed.

Lemma datetime_add_raises (dt : datetime) (delta : timedelta) (e : Exception) :
  datetime_add dt delta = Raise e -> isinstance_Exception e = true.
Proof.
  unfold datetime_add, timedelta_add. intros H.
  apply rbind_raises in H as [H|(d1 & _ & H)];
    [by apply timedelta_new_raises in H as ->|].
  apply rbind_raises in H as [H|(d2 & _ & H)];
    [by apply timedelta_new_raises in H as ->|].
  case_match; [|by simplify_eq].
  destruct (_ord2ymd (days d2)) as [[y m] d].
  apply rbind_raises in H as [H|([[y' m'] d'] & _ & H)];
    [by eapply _check_date_fields_raises|].
  apply rbind_raises in H as [H|([[[h' mi'] s'] us'] & _ & H)];
    [by eapply _check_time_fields_raises | by eapply datetime_new_raises].
Qed.

Lemma expiry_of_raises (dt : datetime) (n : Z) (e : Exception) :
  expiry_of dt n = Raise e -> isinstance_Exception e = true.
Proof.
  unfold expiry_of. intros H.
  apply rbind_raises in H as [H|(d & _ & H)];
    [by apply timedelta_new_raises in H as -> | by eapply datetime_add_raises].
Qed.

Lemma urlsplit_raises (url : str) (e : Exception) :
  urlsplit url = Raise e -> exists cause, e = ValueError cause.
Proof.
  unfold urlsplit, _check_bracketed_netloc, _check_bracketed_host,
    _checknetloc. intros H.
  repeat (case_match; simplify_eq; cbn in *; eauto).
Qed.

Lemma urlparse_raises (url : str) (e : Exception) :
  urlparse url = Raise e -> exists cause, e = ValueError cause.
Proof.
  unfold urlparse. intros H.
  apply rbind_raises in H as [H|(x & _ & H)]; [by eapply urlsplit_raises|].
  repeat case_match; simplify_eq.
Qed.

(** *** The six ways a run with one argument ends *)

Lemma run_urlparse_raises (prog url : str) (e : Exception) :
  urlparse url = Raise e ->
  run clock [prog; url] =
  {| output := []; exit_status := 1; traceback := Some e;
     clock_read_count := 0 |}.
Proof.
  intros H. destruct (urlparse_raises _ _ H) as [cause ->].
  run_unfold. cbn [length Nat.eqb negb getitem lookup list_lookup].
  run_unfold. by rewrite H.
Qed.

Lemma run_missing (prog url : str) (parsed : ParseResult) :
  urlparse url = Ok parsed ->
  py_not (first_value (query parsed) (lit "X-Amz-Date"))
  || py_not (first_value (query parsed) (lit "X-Amz-Expires")) = true ->
  run clock [prog; url] = missing_outcome.
Proof.
  intros H Hnot. run_unfold.
  cbn [length Nat.eqb negb getitem lookup list_lookup].
  run_unfold. rewrite H, !getitem_params_get. run_unfold.
  rewrite Hnot. by rewrite print_ascii.
Qed.

Lemma run_parse_error (prog url : str) (parsed : ParseResult)
    (e : Exception) :
  urlparse url = Ok parsed ->
  py_not (first_value (query parsed) (lit "X-Amz-Date"))
  || py_not (first_value (query parsed) (lit "X-Amz-Expires")) = false ->
  parse_values (first_value (query parsed) (lit "X-Amz-Date"))
               (first_value (query parsed) (lit "X-Amz-Expires")) = Raise e ->
  stdout_accepts (lit "Error parsing date or expires: " ++ exception_str e)
    = true ->
  run clock [prog; url] =
  {| output := [lit "Error parsing date or expires: " ++ exception_str e];
     exit_status := 1; traceback := None; clock_read_count := 0 |}.
Proof.
  intros H Hnot Hp Hacc. pose proof (parse_values_raises _ _ _ Hp) as He.
  run_unfold. cbn [length Nat.eqb negb getitem lookup list_lookup].
  run_unfold. rewrite H, !getitem_params_get. run_unfold.
  rewrite Hnot. unfold parse_values, rbind in Hp.
  destruct (strptime _ _) as [dt|e1].
  - destruct (int _) as [n|e2]; [done|].
    simplify_eq. by rewrite He, print_accepted.
  - simplify_eq. by rewrite He, print_accepted.
Qed.

(** The [print] of the handler raises when standard output cannot encode
    the text of the exception; the new exception is not caught. *)
Lemma run_parse_error_refused (prog url : str) (parsed : ParseResult)
    (e : Exception) :
  urlparse url = Ok parsed ->
  py_not (first_value (query parsed) (lit "X-Amz-Date"))
  || py_not (first_value (query parsed) (lit "X-Amz-Expires")) = false ->
  parse_values (first_value (query parsed) (lit "X-Amz-Date"))
               (first_value (query parsed) (lit "X-Amz-Expires")) = Raise e ->
  stdout_accepts (lit "Error parsing date or expires: " ++ exception_str e)
    = false ->
  run clock [prog; url] =
  {| output := []; exit_status := 1;
     traceback :=
       Some (UnicodeEncodeError
               (lit "Error parsing date or expires: " ++ exception_str e));
     clock_read_count := 0 |}.
Proof.
  intros H Hnot Hp Hacc. pose proof (parse_values_raises _ _ _ Hp) as He.
  run_unfold. cbn [length Nat.eqb negb getitem lookup list_lookup].
  run_unfold. rewrite H, !getitem_params_get. run_unfold.
  rewrite Hnot. unfold parse_values, rbind in Hp.
  destruct (strptime _ _) as [dt|e1].
  - destruct (int _) as [n|e2]; [done|].
    simplify_eq. by rewrite He, print_refused.
  - simplify_eq. by rewrite He, print_refused.
Qed.

Lemma run_arithmetic_error (prog url : str) (parsed : ParseResult)
    (dt : datetime) (n : Z) (e : Exception) :
  urlparse url = Ok parsed ->
  py_not (first_value (query parsed) (lit "X-Amz-Date"))
  || py_not (first_value (query parsed) (lit "X-Amz-Expires")) = false ->
  parse_values (first_value (query parsed) (lit "X-Amz-Date"))
               (first_value (query parsed) (lit "X-Amz-Expires"))
    = Ok (dt, n) ->
  expiry_of dt n = Raise e ->
  run clock [prog; url] =
  {| output := []; exit_status := 1; traceback := Some e;
     clock_read_count := 0 |}.
Proof.
  intros H Hnot Hp Hx. pose proof (expiry_of_raises _ _ _ Hx) as He.
  run_unfold. cbn [length Nat.eqb negb getitem lookup list_lookup].
  run_unfold. rewrite H, !getitem_params_get. run_unfold.
  rewrite Hnot. unfold parse_values, rbind in Hp.
  destruct (strptime _ _) as [dt'|]; [|done].
  destruct (int _) as [n'|]; [|done]. simplify_eq.
  unfold expiry_of, rbind in Hx.
  destruct (timedelta_new _ _ _ _ _) as [delta|e1].
  - rewrite Hx. by destruct e.
  - simplify_eq. by destruct e.
Qed.

Lemma run_report (prog url : str) (parsed : ParseResult)
    (dt expiry_time : datetime) (n : Z) :
  urlparse url = Ok parsed ->
  py_not (first_value (query parsed) (lit "X-Amz-Date"))
  || py_not (first_value (query parsed) (lit "X-Amz-Expires")) = false ->
  parse_values (first_value (query parsed) (lit "X-Amz-Date"))
               (first_value (query parsed) (lit "X-Amz-Expires"))
    = Ok (dt, n) ->
  expiry_of dt n = Ok expiry_time ->
  run clock [prog; url] =
  {| output :=
       [lit "URL generated at: " ++ datetime_str dt ++ lit " UTC";
        lit "Expires at:      " ++ datetime_str expiry_time ++ lit " UTC";
        lit "Current time:    " ++ datetime_str (clock 0%nat) ++ lit " UTC";
        if datetime_lt (clock 0%nat) expiry_time
        then valid_line else expired_line];
     exit_status := 0; traceback := None; clock_read_count := 1 |}.
Proof.
  intros H Hnot Hp Hx.
  run_unfold. cbn [length Nat.eqb negb getitem lookup list_lookup].
  run_unfold. rewrite H, !getitem_params_get. run_unfold.
  rewrite Hnot. unfold parse_values, rbind in Hp.
  destruct (strptime _ _) as [dt'|]; [|done].
  destruct (int _) as [n'|]; [|done]. simplify_eq.
  unfold expiry_of, rbind in Hx.
  destruct (timedelta_new _ _ _ _ _) as [delta|e1]; [|done].
  rewrite Hx. cbn [stdout clock_reads].
  rewrite !print_ascii by (by apply isascii_report_line).
  by destruct (datetime_lt _ _); rewrite print_ascii.
Qed.

(** A run depends on the URL only through the first values of the two
    parameters. *)
Lemma run_determined (prog url1 url2 : str)
    (p1 p2 : ParseResult) :
  urlparse url1 = Ok p1 -> urlparse url2 = Ok p2 ->
  first_value (query p1) (lit "X-Amz-Date")
    = first_value (query p2) (lit "X-Amz-Date") ->
  first_value (query p1) (lit "X-Amz-Expires")
    = first_value (query p2) (lit "X-Amz-Expires") ->
  run clock [prog; url1] = run clock [prog; url2].
Proof.
  intros H1 H2 Hd He.
  run_unfold. cbn [length Nat.eqb negb getitem lookup list_lookup].
  run_unfold. rewrite H1, H2, !getitem_params_get. run_unfold.
  by rewrite Hd, He.
Qed.

End Phases.

(** ** Fields of the query string *)

Lemma elem_of_parse_qsl (qs k v : str) :
  (k, v) ∈ parse_qsl qs ->
  exists field n raw,
    field ∈ split (ord "&") qs /\ split1 (ord "=") field = [n; raw]
    /\ raw <> [] /\ k = decode n /\ v = decode raw.
Proof.
  unfold parse_qsl. rewrite list_elem_of_In, in_flat_map.
  intros (field & Hin & Hkv). unfold parse_qsl_field in Hkv.
  exists field. destruct (truthy qs); [|by destruct Hin].
  destruct (truthy field); [|by destruct Hkv]. cbn [negb] in Hkv.
  destruct (split1 (ord "=") field) as [|n [|raw [|? ?]]];
    try by destruct Hkv.
  destruct raw as [|c raw]; [by destruct Hkv|].
  cbn in Hkv. destruct Hkv as [Hkv|[]]. simplify_eq.
  exists n, (c :: raw). rewrite <- list_elem_of_In in Hin. done.
Qed.

Lemma values_of_nil_iff (k : str) (pairs : list (str * str)) :
  values_of k pairs = [] <-> forall v, (k, v) ∉ pairs.
Proof.
  unfold values_of. induction pairs as [|[n v] pairs IH]; cbn.
  - split; [intros _ v Hv; by apply elem_of_nil in Hv | done].
  - destruct (decide (n = k)) as [->|Hne]; cbn.
    + split; [done|]. intros H. exfalso. apply (H v). left.
    + rewrite IH. split.
      * intros H v' Hv'. apply elem_of_cons in Hv' as [?|?];
          [by simplify_eq | by eapply H].
      * intros H v' Hv'. apply (H v'). by right.
Qed.

Lemma first_value_None_of_only_empty (qs name : str) :
  only_empty_values qs name -> first_value qs name = None.
Proof.
  intros H. unfold first_value.
  assert (values_of name (parse_qsl qs) = []) as ->; [|done].
  apply values_of_nil_iff. intros v Hv.
  apply elem_of_parse_qsl in Hv as (field & n & raw & Hf & Hs & Hraw & -> & _).
  by apply Hraw, (H field n raw).
Qed.

(** A query string none of whose fields names [name] has no entry for it
    in the mapping. *)
Lemma parse_qs_lookup_None_of_no_field (qs name : str) :
  (forall field n v,
     field ∈ split (ord "&") qs -> split1 (ord "=") field = [n; v] ->
     decode n <> name) ->
  parse_qs qs !! name = None.
Proof.
  intros H. apply parse_qs_lookup_None, first_value_None_of_only_empty.
  intros field n v Hin Hs Hd. by destruct (H field n v Hin Hs).
Qed.

(** ** Success paths *)

(** A run exits with status 0 only after both values were parsed and the
    expiry instant was computed. *)
Lemma run_success_inv (clock : nat -> datetime) (argv : list str) :
  exit_status (run clock argv) = 0 ->
  exists prog url parsed dt n expiry_time,
    argv = [prog; url] /\ urlparse url = Ok parsed
    /\ py_not (first_value (query parsed) (lit "X-Amz-Date"))
       || py_not (first_value (query parsed) (lit "X-Amz-Expires")) = false
    /\ parse_values (first_value (query parsed) (lit "X-Amz-Date"))
                    (first_value (query parsed) (lit "X-Amz-Expires"))
       = Ok (dt, n)
    /\ expiry_of dt n = Ok expiry_time.
Proof.
  intros H.
  destruct (decide (length argv = 2%nat)) as [Hlen|Hlen];
    [|by rewrite run_wrong_argc in H].
  destruct argv as [|prog [|url [|? ?]]]; try done. clear Hlen.
  destruct (urlparse url) as [parsed|e] eqn:Hu;
    [|by rewrite (run_urlparse_raises _ _ _ _ Hu) in H].
  destruct (py_not (first_value (query parsed) (lit "X-Amz-Date"))
            || py_not (first_value (query parsed) (lit "X-Amz-Expires")))
    eqn:Hnot; [by rewrite (run_missing _ _ _ _ Hu Hnot) in H|].
  destruct (parse_values (first_value (query parsed) (lit "X-Amz-Date"))
              (first_value (query parsed) (lit "X-Amz-Expires")))
    as [[dt n]|e] eqn:Hp.
  2: { destruct (stdout_accepts
                   (lit "Error parsing date or expires: " ++ exception_str e))
         eqn:Hacc;
         [by rewrite (run_parse_error _ _ _ _ _ Hu Hnot Hp Hacc) in H
         |by rewrite (run_parse_error_refused _ _ _ _ _ Hu Hnot Hp Hacc)
            in H]. }
  destruct (expiry_of dt n) as [expiry_time|e] eqn:Hx;
    [|by rewrite (run_arithmetic_error _ _ _ _ _ _ _ Hu Hnot Hp Hx) in H].
  by exists prog, url, parsed, dt, n, expiry_time.
Qed.

(** ** Claims on the early exits and on the clock *)

(** C8: invoked with zero arguments or with two or more (so [sys.argv],
    which begins with the program name, has a length other than 2), the
    program prints the usage message and exits with status 1; the clock is
    not read and the outcome does not depend on the arguments. *)
Theorem C8_usage_on_wrong_argument_count
    (clock : nat -> datetime) (prog : str) (args : list str) :
  length args = 0%nat \/ (2 <= length args)%nat ->
  run clock (prog :: args) =
  {| output := [lit "Usage: python check_presigned_url_expiry.py <presigned_url>"];
     exit_status := 1; traceback := None; clock_read_count := 0 |}.
Proof.
  intros H. apply run_wrong_argc. cbn [length]. lia.
Qed.

(** C3 (amended): for every URL argument that [urlparse] decomposes, when
    the mapping parsed from its query string has no entry [X-Amz-Date] or
    no entry [X-Amz-Expires], the program prints the missing-parameter
    diagnostic and nothing else, and exits with status 1.  (On a URL that
    [urlparse] rejects the run ends in a traceback before the lookup.) *)
Theorem C3_missing_parameter_diagnostic
    (clock : nat -> datetime) (prog url : str) (parsed : ParseResult) :
  urlparse url = Ok parsed ->
  parse_qs (query parsed) !! lit "X-Amz-Date" = None
  \/ parse_qs (query parsed) !! lit "X-Amz-Expires" = None ->
  run clock [prog; url] =
  {| output := [lit "Could not find X-Amz-Date or X-Amz-Expires in the URL."];
     exit_status := 1; traceback := None; clock_read_count := 0 |}.
Proof.
  intros Hu H. apply (run_missing _ _ _ _ Hu).
  rewrite !parse_qs_lookup_None in H.
  destruct H as [-> | ->]; [done|]. apply orb_true_r.
Qed.


(** C10 (amended): for every URL that [urlparse] decomposes, when
    [X-Amz-Date] or [X-Amz-Expires] is present in the query string but
    every field that names it has an empty value, the mapping has no entry
    for it, as if it were absent: the program prints the missing-parameter
    diagnostic and exits with status 1 before the parse step.  (A field
    with a value, before or after the empty one, is used.) *)
Theorem C10_empty_value_is_absent
    (clock : nat -> datetime) (prog url name : str) (parsed : ParseResult) :
  urlparse url = Ok parsed ->
  name = lit "X-Amz-Date" \/ name = lit "X-Amz-Expires" ->
  (exists field, field ∈ split (ord "&") (query parsed)
                 /\ empty_field name field) ->
  only_empty_values (query parsed) name ->
  parse_qs (query parsed) !! name = None
  /\ run clock [prog; url] =
     {| output := [lit "Could not find X-Amz-Date or X-Amz-Expires in the URL."];
        exit_status := 1; traceback := None; clock_read_count := 0 |}.
Proof.
  intros Hu Hname _ Hempty.
  apply first_value_None_of_only_empty in Hempty.
  split; [by apply parse_qs_lookup_None|].
  apply (run_missing _ _ _ _ Hu).
  destruct Hname as [-> | ->]; rewrite Hempty; [done|apply orb_true_r].
Qed.

(** ** Calendar arithmetic *)

Lemma _days_before_year_succ (y : Z) :
  _days_before_year (y + 1) = _days_before_year y + 365 + b2z (_is_leap y).
Proof.
  unfold _days_before_year, _is_leap, b2z.
  replace (y + 1 - 1) with y by lia.
  destruct (Z.eqb_spec (y mod 4) 0), (Z.eqb_spec (y mod 100) 0),
    (Z.eqb_spec (y mod 400) 0); cbn [negb andb orb];
    Z.div_mod_to_equations; lia.
Qed.

Lemma _days_before_year_mono (y1 y2 : Z) :
  y1 <= y2 -> _days_before_year y1 <= _days_before_year y2.
Proof.
  unfold _days_before_year. intros H. Z.div_mod_to_equations. lia.
Qed.

Ltac month_cases m :=
  let E := fresh "E" in
  assert (m = 1 \/ m = 2 \/ m = 3 \/ m = 4 \/ m = 5 \/ m = 6 \/ m = 7
          \/ m = 8 \/ m = 9 \/ m = 10 \/ m = 11 \/ m = 12) as E by lia;
  repeat destruct E as [E|E]; subst m.

Ltac eval_tables :=
  repeat match goal with
  | |- context [at_index ?l ?k] =>
      let v := eval vm_compute in (at_index l k) in
      change (at_index l k) with v
  | H : context [at_index ?l ?k] |- _ =>
      let v := eval vm_compute in (at_index l k) in
      change (at_index l k) with v in H
  | |- context [Z.eqb ?a ?b] =>
      let v := eval vm_compute in (Z.eqb a b) in
      change (Z.eqb a b) with v
  | H : context [Z.eqb ?a ?b] |- _ =>
      let v := eval vm_compute in (Z.eqb a b) in
      change (Z.eqb a b) with v in H
  | |- context [Z.ltb ?a ?b] =>
      let v := eval vm_compute in (Z.ltb a b) in
      change (Z.ltb a b) with v
  | H : context [Z.ltb ?a ?b] |- _ =>
      let v := eval vm_compute in (Z.ltb a b) in
      change (Z.ltb a b) with v in H
  end; cbn [andb orb negb b2z] in *.

Lemma day_of_year_bounds (y m d : Z) :
  valid_date y m d ->
  1 <= _days_before_month y m + d <= 365 + b2z (_is_leap y).
Proof.
  unfold valid_date, _days_before_month, _days_in_month. intros [Hm Hd].
  month_cases m; destruct (_is_leap y); eval_tables; lia.
Qed.

Lemma day_of_year_lt (y m1 d1 m2 d2 : Z) :
  valid_date y m1 d1 -> valid_date y m2 d2 -> m1 < m2 ->
  _days_before_month y m1 + d1 < _days_before_month y m2 + d2.
Proof.
  unfold valid_date, _days_before_month, _days_in_month.
  intros [Hm1 Hd1] [Hm2 Hd2] Hlt.
  month_cases m1; month_cases m2; try lia;
    destruct (_is_leap y); eval_tables; lia.
Qed.

Lemma _ymd2ord_lt (y1 m1 d1 y2 m2 d2 : Z) :
  valid_date y1 m1 d1 -> valid_date y2 m2 d2 ->
  y1 < y2 \/ (y1 = y2 /\ (m1 < m2 \/ (m1 = m2 /\ d1 < d2))) ->
  _ymd2ord y1 m1 d1 < _ymd2ord y2 m2 d2.
Proof.
  intros H1 H2 Hlt. unfold _ymd2ord.
  destruct Hlt as [Hy|[-> [Hm|[-> Hd]]]].
  - pose proof (day_of_year_bounds _ _ _ H1).
    pose proof (day_of_year_bounds _ _ _ H2).
    pose proof (_days_before_year_succ y1).
    pose proof (_days_before_year_mono (y1 + 1) y2 ltac:(lia)). lia.
  - pose proof (day_of_year_lt _ _ _ _ _ H1 H2 Hm). lia.
  - lia.
Qed.

Lemma month_day_ok_all (leapyear : bool) (n : Z) :
  0 <= n < 365 + b2z leapyear -> month_day_ok leapyear n = true.
Proof.
  intros H.
  assert (forallb (month_day_ok leapyear) (seqZ 0 (365 + b2z leapyear)) = true)
    as Hall by (by destruct leapyear; vm_compute).
  rewrite forallb_forall in Hall. apply Hall.
  apply list_elem_of_In, elem_of_seqZ. lia.
Qed.

(* year decomposition, split in steps to keep lia fast *)
Lemma year_part (n0 : Z) :
  0 <= n0 < _MAXORDINAL ->
  let n400 := n0 / _DI400Y in let r1 := n0 mod _DI400Y in
  let n100 := r1 / _DI100Y in let r2 := r1 mod _DI100Y in
  let n4 := r2 / _DI4Y in let r3 := r2 mod _DI4Y in
  let n1 := r3 / 365 in let r4 := r3 mod 365 in
  let year := n400 * 400 + 1 + n100 * 100 + n4 * 4 + n1 in
  if (n1 =? 4) || (n100 =? 4)
  then _days_before_year year = n0 + 1 /\ 2 <= year <= 10000
  else _days_before_year year = n0 - r4 /\ 1 <= year <= 9999
       /\ (n1 =? 3) && (negb (n4 =? 24) || (n100 =? 3)) = _is_leap year
       /\ 0 <= r4 < 365 + b2z (_is_leap year).
Proof.
  intros Hn. unfold _MAXORDINAL in Hn. cbv zeta.
  unfold _DI400Y, _DI100Y, _DI4Y.
  pose proof (Z.div_mod n0 146097 ltac:(lia)) as E1.
  pose proof (Z.mod_pos_bound n0 146097 ltac:(lia)) as B1.
  set (n400 := n0 / 146097) in *. set (r1 := n0 mod 146097) in *.
  pose proof (Z.div_mod r1 36524 ltac:(lia)) as E2.
  pose proof (Z.mod_pos_bound r1 36524 ltac:(lia)) as B2.
  set (n100 := r1 / 36524) in *. set (r2 := r1 mod 36524) in *.
  pose proof (Z.div_mod r2 1461 ltac:(lia)) as E3.
  pose proof (Z.mod_pos_bound r2 1461 ltac:(lia)) as B3.
  set (n4 := r2 / 1461) in *. set (r3 := r2 mod 1461) in *.
  pose proof (Z.div_mod r3 365 ltac:(lia)) as E4.
  pose proof (Z.mod_pos_bound r3 365 ltac:(lia)) as B4.
  set (n1 := r3 / 365) in *. set (r4 := r3 mod 365) in *.
  assert (0 <= n400 <= 24) by lia.
  assert (0 <= n100 <= 4) by lia.
  assert (0 <= n4 <= 24) by lia.
  assert (0 <= n1 <= 4) by lia.
  clearbody n400 r1 n100 r2 n4 r3 n1 r4.
  set (y := n400 * 400 + n100 * 100 + n4 * 4 + n1).
  replace (n400 * 400 + 1 + n100 * 100 + n4 * 4 + n1) with (y + 1) by (unfold y; lia).
  assert (Hl : n1 < 4 -> n100 < 4 -> _is_leap (y + 1) = (n1 =? 3) && (negb (n4 =? 24) || (n100 =? 3))).
  { intros. unfold _is_leap.
    replace ((y + 1) mod 4) with ((n1 + 1) mod 4)
      by (unfold y; Z.div_mod_to_equations; lia).
    replace ((y + 1) mod 400) with ((n100 * 100 + n4 * 4 + n1 + 1) mod 400)
      by (unfold y; Z.div_mod_to_equations; lia).
    replace ((y + 1) mod 100) with ((n4 * 4 + n1 + 1) mod 100)
      by (unfold y; Z.div_mod_to_equations; lia).
    destruct (Z.eqb_spec n1 3), (Z.eqb_spec n4 24), (Z.eqb_spec n100 3);
      cbn [negb andb orb];
      repeat match goal with |- context [Z.eqb ?a ?b] => destruct (Z.eqb_spec a b) end;
      cbn [negb andb orb]; try reflexivity; exfalso; Z.div_mod_to_equations; lia. }
  assert (Hd : _days_before_year (y + 1) =
               n400 * 146097 + n100 * 36524 + n4 * 1461 + n1 * 365
               + (if n1 =? 4 then 1 else 0) + (if n100 =? 4 then 1 else 0)).
  { unfold _days_before_year. replace (y + 1 - 1) with y by lia.
    assert (y / 4 = n400 * 100 + n100 * 25 + n4 + (if n1 =? 4 then 1 else 0)) as ->
      by (unfold y; destruct (Z.eqb_spec n1 4); Z.div_mod_to_equations; lia).
    assert (y / 100 = n400 * 4 + n100) as ->
      by (unfold y; Z.div_mod_to_equations; lia).
    assert (y / 400 = n400 + (if n100 =? 4 then 1 else 0)) as ->
      by (unfold y; destruct (Z.eqb_spec n100 4); Z.div_mod_to_equations; lia).
    unfold y. lia. }
  destruct (Z.eqb_spec n1 4), (Z.eqb_spec n100 4); cbn [orb] in *.
  1-3: (split; [rewrite Hd; repeat case_match; lia | unfold y; lia]).
  rewrite <- Hl by lia.
  split; [rewrite Hd; repeat case_match; lia|]. split; [unfold y; lia|]. split; [done|].
  rewrite Hl by lia. unfold b2z.
  destruct (Z.eqb_spec n1 3), (Z.eqb_spec n4 24), (Z.eqb_spec n100 3);
      cbn [negb andb orb]; lia.
Qed.

Lemma _ord2ymd_month_day (n : Z) :
  _ord2ymd n =
  let n0 := n - 1 in
  let n400 := n0 / _DI400Y in let r1 := n0 mod _DI400Y in
  let n100 := r1 / _DI100Y in let r2 := r1 mod _DI100Y in
  let n4 := r2 / _DI4Y in let r3 := r2 mod _DI4Y in
  let n1 := r3 / 365 in let r4 := r3 mod 365 in
  let year := n400 * 400 + 1 + n100 * 100 + n4 * 4 + n1 in
  if (n1 =? 4) || (n100 =? 4) then (year - 1, 12, 31)
  else
    let '(m, d) :=
      month_day ((n1 =? 3) && (negb (n4 =? 24) || (n100 =? 3))) r4 in
    (year, m, d).
Proof.
  unfold _ord2ymd, month_day. cbv zeta.
  repeat case_match; simplify_eq; reflexivity.
Qed.

Lemma _ord2ymd_spec (n : Z) :
  1 <= n <= _MAXORDINAL ->
  let '(y, m, d) := _ord2ymd n in
  1 <= y <= 9999 /\ 1 <= m <= 12 /\ 1 <= d <= _days_in_month y m
  /\ _ymd2ord y m d = n.
Proof.
  intros Hn. rewrite _ord2ymd_month_day. cbv zeta.
  pose proof (year_part (n - 1) ltac:(lia)) as Hy. cbv zeta in Hy.
  destruct (_ || _).
  - destruct Hy as [Hd Hr].
    split; [lia|]. split; [lia|]. split.
    { unfold _days_in_month. change (12 =? 2) with false. cbn [andb].
      change (at_index _DAYS_IN_MONTH 12) with 31. lia. }
    unfold _ymd2ord, _days_before_month. rewrite Z.sub_add in Hd.
    match type of Hd with _days_before_year ?y = _ =>
      pose proof (_days_before_year_succ (y - 1)) as Hs;
      rewrite Z.sub_add in Hs; rewrite Hd in Hs end.
    change (at_index _DAYS_BEFORE_MONTH 12) with 334.
    change (2 <? 12) with true. cbn [andb]. lia.
  - destruct Hy as (Hd & Hr & Hl & Hb). rewrite Hl.
    pose proof (month_day_ok_all _ _ Hb) as Hok.
    unfold month_day_ok in Hok.
    destruct (month_day _ _) as [m d].
    repeat (apply andb_prop in Hok as [Hok ?]).
    repeat match goal with
           | H : (_ <=? _) = true |- _ => apply Z.leb_le in H
           | H : (_ =? _) = true |- _ => apply Z.eqb_eq in H
           end.
    unfold _days_in_month, _ymd2ord, _days_before_month.
    split; [lia|]. split; [lia|]. split; [lia|]. lia.
Qed.

Lemma datetime_new_Ok (y m d h mi s us : Z) (dt : datetime) :
  datetime_new y m d h mi s us = Ok dt <->
  dt = {| year := y; month := m; day := d; hour := h; minute := mi;
          second := s; microsecond := us |}
  /\ 1 <= y <= 9999 /\ 1 <= m <= 12 /\ 1 <= d <= _days_in_month y m
  /\ 0 <= h <= 23 /\ 0 <= mi <= 59 /\ 0 <= s <= 59 /\ 0 <= us <= 999999.
Proof.
  unfold datetime_new, _check_date_fields, _check_time_fields, rbind,
    MINYEAR, MAXYEAR.
  repeat (match goal with
          | |- context [Z.leb ?a ?b] => destruct (Z.leb_spec a b)
          end; cbn [andb negb];
          try solve [split; [intros ?; simplify_eq | intros ?; lia]]).
  split.
  - intros ?. simplify_eq. repeat split; lia.
  - by intros [-> _].
Qed.

Lemma valid_datetime_bounds (d : datetime) :
  valid_datetime d <->
  1 <= year d <= 9999 /\ 1 <= month d <= 12
  /\ 1 <= day d <= _days_in_month (year d) (month d)
  /\ 0 <= hour d <= 23 /\ 0 <= minute d <= 59 /\ 0 <= second d <= 59
  /\ 0 <= microsecond d <= 999999.
Proof.
  unfold valid_datetime. rewrite datetime_new_Ok. destruct d; cbn.
  split; [by intros [_ H] | by intros H].
Qed.

Lemma datetime_lt_spec (a b : datetime) :
  valid_datetime a -> valid_datetime b ->
  datetime_lt a b = true <->
  microseconds_since_origin a < microseconds_since_origin b.
Proof.
  rewrite !valid_datetime_bounds. intros Ha Hb.
  assert (valid_date (year a) (month a) (day a)) as Va by (unfold valid_date; lia).
  assert (valid_date (year b) (month b) (day b)) as Vb by (unfold valid_date; lia).
  pose proof (_ymd2ord_lt _ _ _ _ _ _ Va Vb) as Hab.
  pose proof (_ymd2ord_lt _ _ _ _ _ _ Vb Va) as Hba.
  assert (year a = year b -> month a = month b -> day a = day b ->
          toordinal a = toordinal b) as Heq
    by (unfold toordinal; intros -> -> ->; reflexivity).
  unfold microseconds_since_origin, seconds_since_origin.
  fold (toordinal a) in Hab, Hba. fold (toordinal b) in Hab, Hba.
  unfold datetime_lt, datetime_cmp, datetime_fields, _cmp.
  repeat match goal with
         | |- context [Z.eqb ?x ?y] => destruct (Z.eqb_spec x y)
         | |- context [Z.ltb ?x ?y] => destruct (Z.ltb_spec x y)
         | H : context [Z.ltb ?x ?y] |- _ => destruct (Z.ltb_spec x y)
         end; split; intros ?; try done; try lia.
Qed.

Lemma timedelta_new_spec (d s us mi h : Z) :
  let T := (d * 86400 + s + mi * 60 + h * 3600) * 1000000 + us in
  timedelta_new d s us mi h =
  if 999999999 <? Z.abs (T / 86400000000) then Raise OverflowError
  else Ok {| days := T / 86400000000;
             seconds := (T / 1000000) mod 86400;
             microseconds := T mod 1000000 |}.
Proof.
  intros T. unfold timedelta_new. cbv zeta. cbn [fst snd].
  change (24 * 3600) with 86400.
  match goal with
  | |- (if _ <? Z.abs ?D then _
        else Ok {| days := _; seconds := ?S; microseconds := ?U |}) = _ =>
      assert (D = T / 86400000000) as ->
        by (unfold T; Z.div_mod_to_equations; lia);
      assert (S = (T / 1000000) mod 86400) as ->
        by (unfold T; Z.div_mod_to_equations; lia);
      assert (U = T mod 1000000) as ->
        by (unfold T; Z.div_mod_to_equations; lia)
  end.
  reflexivity.
Qed.

Lemma _check_date_fields_Ok (y m d : Z) :
  1 <= y <= 9999 -> 1 <= m <= 12 -> 1 <= d <= _days_in_month y m ->
  _check_date_fields y m d = Ok (y, m, d).
Proof.
  intros. unfold _check_date_fields, MINYEAR, MAXYEAR.
  repeat (match goal with
          | |- context [Z.leb ?a ?b] => destruct (Z.leb_spec a b)
          end; try lia). reflexivity.
Qed.

Lemma _check_time_fields_Ok (h mi s us : Z) :
  0 <= h <= 23 -> 0 <= mi <= 59 -> 0 <= s <= 59 -> 0 <= us <= 999999 ->
  _check_time_fields h mi s us = Ok (h, mi, s, us).
Proof.
  intros. unfold _check_time_fields.
  repeat (match goal with
          | |- context [Z.leb ?a ?b] => destruct (Z.leb_spec a b)
          end; try lia). reflexivity.
Qed.

Lemma toordinal_range (d : datetime) :
  valid_datetime d -> 1 <= toordinal d <= _MAXORDINAL.
Proof.
  rewrite valid_datetime_bounds. intros H. unfold toordinal, _ymd2ord.
  pose proof (day_of_year_bounds (year d) (month d) (day d)
                ltac:(unfold valid_date; lia)).
  pose proof (_days_before_year_mono 1 (year d) ltac:(lia)).
  pose proof (_days_before_year_mono (year d + 1) 10000 ltac:(lia)).
  pose proof (_days_before_year_succ (year d)).
  change (_days_before_year 1) with 0 in *.
  change (_days_before_year 10000) with 3652059 in *.
  unfold _MAXORDINAL. lia.
Qed.

Lemma microseconds_since_origin_range (d : datetime) :
  valid_datetime d -> representable (microseconds_since_origin d).
Proof.
  intros H. pose proof (toordinal_range d H) as Ho.
  apply valid_datetime_bounds in H.
  unfold representable, microseconds_since_origin, seconds_since_origin,
    _MAXORDINAL in *. lia.
Qed.

Lemma datetime_add_spec (dt : datetime) (delta : timedelta) :
  valid_datetime dt ->
  let T := microseconds_since_origin dt + timedelta_microseconds delta in
  (representable T ->
   exists e, datetime_add dt delta = Ok e /\ valid_datetime e
             /\ microseconds_since_origin e = T)
  /\ (~ representable T -> datetime_add dt delta = Raise OverflowError).
Proof.
  intros Hv T. pose proof (toordinal_range dt Hv) as Ho.
  pose proof Hv as Hb. apply valid_datetime_bounds in Hb.
  unfold datetime_add, timedelta_add. rewrite timedelta_new_spec. cbv zeta.
  set (T1 := (toordinal dt * 86400 + second dt + minute dt * 60
              + hour dt * 3600) * 1000000 + microsecond dt).
  assert (T1 / 86400000000 = toordinal dt) as E1
    by (unfold T1; Z.div_mod_to_equations; lia).
  rewrite E1.
  destruct (Z.ltb_spec 999999999 (Z.abs (toordinal dt))) as [?|_];
    [unfold _MAXORDINAL in Ho; lia|].
  cbn [rbind days seconds microseconds]. rewrite timedelta_new_spec. cbv zeta.
  set (T2 := ((toordinal dt + days delta) * 86400
              + ((T1 / 1000000) mod 86400 + seconds delta) + 0 * 60
              + 0 * 3600) * 1000000
             + (T1 mod 1000000 + microseconds delta)).
  assert (T2 = T) as ->.
  { unfold T2, T, T1, microseconds_since_origin, seconds_since_origin,
      timedelta_microseconds. Z.div_mod_to_equations. lia. }
  unfold representable, _MAXORDINAL in *.
  destruct (Z.ltb_spec 999999999 (Z.abs (T / 86400000000))) as [Hbig|Hsmall].
  { split; [|done]. intros Hr. exfalso. Z.div_mod_to_equations. lia. }
  cbn [rbind days seconds microseconds].
  destruct (Z.ltb_spec 0 (T / 86400000000)) as [Hpos|Hneg]; cbn [andb].
  2: { split; [|done]. intros Hr. exfalso. Z.div_mod_to_equations. lia. }
  destruct (Z.leb_spec (T / 86400000000) 3652059) as [Hle|Hgt].
  2: { split; [|done]. intros Hr. exfalso. Z.div_mod_to_equations. lia. }
  split; [|intros Hr; exfalso; Z.div_mod_to_equations; lia].
  intros _.
  pose proof (_ord2ymd_spec (T / 86400000000)
                ltac:(unfold _MAXORDINAL; lia)) as Hymd.
  destruct (_ord2ymd (T / 86400000000)) as [[y m] d].
  destruct Hymd as (Hy & Hm & Hd & Hord).
  rewrite (_check_date_fields_Ok _ _ _ Hy Hm Hd). cbn [rbind].
  set (S := (T / 1000000) mod 86400) in *.
  assert (0 <= S < 86400) by (unfold S; Z.div_mod_to_equations; lia).
  assert (0 <= T mod 1000000 <= 999999) by (Z.div_mod_to_equations; lia).
  rewrite (_check_time_fields_Ok (S / 3600) (S mod 3600 / 60)
             (S mod 3600 mod 60) (T mod 1000000))
    by (try done; Z.div_mod_to_equations; lia).
  cbn [rbind].
  eexists. split.
  { apply datetime_new_Ok. split; [reflexivity|].
    repeat split; try lia; Z.div_mod_to_equations; lia. }
  split.
  { apply valid_datetime_bounds. cbn.
    repeat split; try lia; Z.div_mod_to_equations; lia. }
  unfold microseconds_since_origin, seconds_since_origin, toordinal. cbn.
  rewrite Hord. unfold S. Z.div_mod_to_equations. lia.
Qed.

Lemma expiry_of_spec (dt : datetime) (n : Z) :
  valid_datetime dt ->
  let T := microseconds_since_origin dt + n * 1000000 in
  (representable T ->
   exists e, expiry_of dt n = Ok e /\ valid_datetime e
             /\ microseconds_since_origin e = T)
  /\ (~ representable T -> expiry_of dt n = Raise OverflowError).
Proof.
  intros Hv T. pose proof (microseconds_since_origin_range dt Hv) as Hr.
  unfold expiry_of. rewrite timedelta_new_spec. cbv zeta.
  replace ((0 * 86400 + n + 0 * 60 + 0 * 3600) * 1000000 + 0)
    with (n * 1000000) by lia.
  unfold representable, _MAXORDINAL in *.
  destruct (Z.ltb_spec 999999999 (Z.abs (n * 1000000 / 86400000000)))
    as [Hbig|Hsmall].
  { split; [|done]. intros H. exfalso. unfold T in H.
    Z.div_mod_to_equations. lia. }
  cbn [rbind].
  set (delta := {| days := n * 1000000 / 86400000000;
                   seconds := (n * 1000000 / 1000000) mod 86400;
                   microseconds := (n * 1000000) mod 1000000 |}).
  assert (timedelta_microseconds delta = n * 1000000) as Hd.
  { unfold timedelta_microseconds, delta. cbn [days seconds microseconds].
    Z.div_mod_to_equations. lia. }
  pose proof (datetime_add_spec dt delta Hv) as Ha. cbv zeta in Ha.
  rewrite Hd in Ha. exact Ha.
Qed.

Lemma strptime_valid (s : option str) (format : string) (dt : datetime) :
  strptime s format = Ok dt -> valid_datetime dt /\ microsecond dt = 0.
Proof.
  unfold strptime. intros H.
  destruct (_strptime s format) as [[[[[[y m] d] h] mi] sec]|]; [|done].
  cbn [rbind] in H. pose proof H as H'.
  apply datetime_new_Ok in H' as [-> _]. by split.
Qed.

Lemma parse_values_Ok (amz_date expires : option str) (dt : datetime) (n : Z) :
  parse_values amz_date expires = Ok (dt, n) ->
  strptime amz_date "%Y%m%dT%H%M%SZ" = Ok dt /\ int expires = Ok n
  /\ py_not amz_date || py_not expires = false.
Proof.
  unfold parse_values. intros H.
  destruct (strptime amz_date _) as [dt'|] eqn:Hs; [|done].
  destruct (int expires) as [n'|] eqn:Hi; [|done].
  cbn [rbind] in H. simplify_eq. split; [done|]. split; [done|].
  destruct amz_date as [[|c s]|]; [by vm_compute in Hs| |by vm_compute in Hs].
  destruct expires as [[|c' s']|]; [by vm_compute in Hi| |by vm_compute in Hi].
  reflexivity.
Qed.

(** The three labelled lines of the report differ from the two verdicts. *)
Lemma labelled_line_not_verdict (label : string) (text : str) :
  label = "URL generated at: "%string \/ label = "Expires at:      "%string
  \/ label = "Current time:    "%string ->
  lit label ++ text <> valid_line /\ lit label ++ text <> expired_line.
Proof.
  intros [-> | [-> | ->]]; split; intros H; vm_compute in H; discriminate H.
Qed.

Lemma verdict_in_report (l1 l2 l3 : str) (verdict line : str) :
  lit "URL generated at: " ++ l1 <> line ->
  lit "Expires at:      " ++ l2 <> line ->
  lit "Current time:    " ++ l3 <> line ->
  line ∈ [lit "URL generated at: " ++ l1; lit "Expires at:      " ++ l2;
          lit "Current time:    " ++ l3; verdict] <-> line = verdict.
Proof.
  intros H1 H2 H3. rewrite !elem_of_cons, elem_of_nil. split.
  - intros [E|[E|[E|[E|[]]]]]; congruence.
  - intros ->. do 3 right. by left.
Qed.

(** A run on well-formed values whose expiry instant is representable. *)
Lemma run_representable (clock : nat -> datetime) (prog url : str)
    (parsed : ParseResult) (dt : datetime) (n : Z) :
  urlparse url = Ok parsed ->
  parse_values (first_value (query parsed) (lit "X-Amz-Date"))
               (first_value (query parsed) (lit "X-Amz-Expires"))
    = Ok (dt, n) ->
  representable (microseconds_since_origin dt + n * 1000000) ->
  exists expiry_time,
    valid_datetime dt /\ microsecond dt = 0
    /\ valid_datetime expiry_time
    /\ microseconds_since_origin expiry_time
       = microseconds_since_origin dt + n * 1000000
    /\ run clock [prog; url] =
       {| output :=
            [lit "URL generated at: " ++ datetime_str dt ++ lit " UTC";
             lit "Expires at:      " ++ datetime_str expiry_time ++ lit " UTC";
             lit "Current time:    " ++ datetime_str (clock 0%nat)
               ++ lit " UTC";
             if datetime_lt (clock 0%nat) expiry_time
             then valid_line else expired_line];
          exit_status := 0; traceback := None; clock_read_count := 1 |}.
Proof.
  intros Hu Hp Hr.
  destruct (parse_values_Ok _ _ _ _ Hp) as (Hs & _ & Hnot).
  destruct (strptime_valid _ _ _ Hs) as [Hv Hus].
  destruct (expiry_of_spec dt n Hv) as [Hok _].
  destruct (Hok Hr) as (e & Hx & Hve & Hte).
  exists e. repeat (split; [done|]).
  exact (run_report clock _ _ _ _ _ _ Hu Hnot Hp Hx).
Qed.

(** ** The parsers on sample values

    These hold for every instance of [Runtime]: on ASCII input the tables
    are not consulted. *)

Example strptime_scenario :
  strptime (Some (lit "20200101T000000Z")) "%Y%m%dT%H%M%SZ"
  = Ok {| year := 2020; month := 1; day := 1; hour := 0; minute := 0;
          second := 0; microsecond := 0 |}.
Proof. reflexivity. Qed.

Example strptime_lowercase_letters :
  strptime (Some (lit "20200101t000000z")) "%Y%m%dT%H%M%SZ"
  = Ok {| year := 2020; month := 1; day := 1; hour := 0; minute := 0;
          second := 0; microsecond := 0 |}.
Proof. reflexivity. Qed.

Example strptime_short_fields :
  strptime (Some (lit "2020111T000000Z")) "%Y%m%dT%H%M%SZ"
  = Ok {| year := 2020; month := 11; day := 1; hour := 0; minute := 0;
          second := 0; microsecond := 0 |}.
Proof. reflexivity. Qed.

Example strptime_bad_date :
  strptime (Some (lit "bad-date")) "%Y%m%dT%H%M%SZ"
  = Raise (ValueError (TimeDataMismatch (lit "bad-date"))).
Proof. reflexivity. Qed.

Example strptime_trailing_text :
  strptime (Some (lit "20200101T000000Zx")) "%Y%m%dT%H%M%SZ"
  = Raise (ValueError (UnconvertedData (lit "x"))).
Proof. reflexivity. Qed.

Example strptime_february_30 :
  strptime (Some (lit "20200230T000000Z")) "%Y%m%dT%H%M%SZ"
  = Raise (ValueError (DayOutOfRange 30)).
Proof. reflexivity. Qed.

Example strptime_year_0 :
  strptime (Some (lit "00000101T000000Z")) "%Y%m%dT%H%M%SZ"
  = Raise (ValueError (YearOutOfRange 0)).
Proof. reflexivity. Qed.

Example strptime_second_60 :
  strptime (Some (lit "20200101T000060Z")) "%Y%m%dT%H%M%SZ"
  = Raise (ValueError (SecondOutOfRange 60)).
Proof. reflexivity. Qed.

Example int_plain : int (Some (lit "3600")) = Ok 3600.
Proof. reflexivity. Qed.

Example int_negative : int (Some (lit "-60")) = Ok (-60).
Proof. reflexivity. Qed.

Example int_spaces_sign_underscore : int (Some (lit " +1_000 ")) = Ok 1000.
Proof. reflexivity. Qed.

Example int_not_a_number :
  int (Some (lit "12a")) = Raise (ValueError (InvalidLiteral (lit "12a"))).
Proof. reflexivity. Qed.

Example int_double_underscore :
  int (Some (lit "1__0")) = Raise (ValueError (InvalidLiteral (lit "1__0"))).
Proof. reflexivity. Qed.

Example leap_day_rollover :
  expiry_of {| year := 2024; month := 2; day := 28; hour := 23; minute := 59;
               second := 59; microsecond := 0 |} 86401
  = Ok {| year := 2024; month := 3; day := 1; hour := 0; minute := 0;
          second := 0; microsecond := 0 |}.
Proof. reflexivity. Qed.

Example year_rollover :
  expiry_of {| year := 2023; month := 12; day := 31; hour := 23; minute := 0;
               second := 0; microsecond := 0 |} 3600
  = Ok {| year := 2024; month := 1; day := 1; hour := 0; minute := 0;
          second := 0; microsecond := 0 |}.
Proof. reflexivity. Qed.

(** ** Claims on the report *)

(** C1 (amended): for every well-formed input whose expiry instant
    IssueTimestamp + ExpirySeconds lies between 0001-01-01 00:00:00 and
    9999-12-31 23:59:59, the program prints "The pre-signed URL is still
    valid." exactly when the sampled current time is strictly before the
    expiry instant, prints "The pre-signed URL has expired." exactly when
    it is at or after it, and exits with status 0 in both cases. *)
Theorem C1_valid_or_expired
    (clock : nat -> datetime) (prog url : str) (parsed : ParseResult)
    (dt : datetime) (n : Z) :
  urlparse url = Ok parsed ->
  parse_values (first_value (query parsed) (lit "X-Amz-Date"))
               (first_value (query parsed) (lit "X-Amz-Expires"))
    = Ok (dt, n) ->
  representable (microseconds_since_origin dt + n * 1000000) ->
  valid_datetime (clock 0%nat) ->
  let now := microseconds_since_origin (clock 0%nat) in
  let expiry := microseconds_since_origin dt + n * 1000000 in
  (lit "The pre-signed URL is still valid." ∈ output (run clock [prog; url])
   <-> now < expiry)
  /\ (lit "The pre-signed URL has expired." ∈ output (run clock [prog; url])
      <-> expiry <= now)
  /\ exit_status (run clock [prog; url]) = 0.
Proof.
  intros Hu Hp Hr Hnow now expiry.
  destruct (run_representable clock prog _ _ _ _ Hu Hp Hr)
    as (e & Hv & Hus & Hve & Hte & ->).
  cbn [output exit_status].
  pose proof (datetime_lt_spec _ _ Hnow Hve) as Hlt. rewrite Hte in Hlt.
  fold now expiry in Hlt.
  fold valid_line expired_line.
  rewrite !verdict_in_report
    by (eapply labelled_line_not_verdict; eauto).
  destruct (datetime_lt (clock 0%nat) e).
  - split; [|split; [|done]].
    + split; [intros _; by apply Hlt | done].
    + split; [intros H; vm_compute in H; discriminate H|].
      intros H. assert (now < expiry) by (by apply Hlt). lia.
  - split; [|split; [|done]].
    + split; [intros H; vm_compute in H; discriminate H|].
      intros H. apply Hlt in H. discriminate H.
    + split; [|done]. intros _.
      destruct (Z.lt_ge_cases now expiry) as [H|H]; [|lia].
      apply Hlt in H. discriminate H.
Qed.

(** C2 (amended): for every successfully parsed issue timestamp and expiry
    integer whose sum lies between 0001-01-01 00:00:00 and 9999-12-31
    23:59:59, the expiry instant on the "Expires at" line is a valid
    calendar date and time that lies ExpirySeconds seconds after the issue
    timestamp on the linear time line. *)
Theorem C2_expiry_is_linear_sum
    (clock : nat -> datetime) (prog url : str) (parsed : ParseResult)
    (dt : datetime) (n : Z) :
  urlparse url = Ok parsed ->
  parse_values (first_value (query parsed) (lit "X-Amz-Date"))
               (first_value (query parsed) (lit "X-Amz-Expires"))
    = Ok (dt, n) ->
  representable (microseconds_since_origin dt + n * 1000000) ->
  exists expiry_time : datetime,
    output (run clock [prog; url]) !! 1%nat
      = Some (lit "Expires at:      " ++ datetime_str expiry_time
              ++ lit " UTC")
    /\ valid_datetime expiry_time
    /\ seconds_since_origin expiry_time = seconds_since_origin dt + n
    /\ microsecond expiry_time = 0.
Proof.
  intros Hu Hp Hr.
  destruct (run_representable clock prog _ _ _ _ Hu Hp Hr)
    as (e & Hv & Hus & Hve & Hte & ->).
  exists e. split; [done|]. split; [done|].
  pose proof Hve as Hb. apply valid_datetime_bounds in Hb.
  unfold microseconds_since_origin in Hte. rewrite Hus in Hte. lia.
Qed.

(** C7 (amended): for every input whose X-Amz-Expires value parses as a
    negative integer and whose expiry instant is not before 0001-01-01
    00:00:00, the program accepts it without error, computes an expiry
    instant strictly before the issue timestamp, and proceeds to the
    comparison and exit status 0; it reports the URL as expired whenever
    the current time is at or after the issue time. *)
Theorem C7_negative_expires_accepted
    (clock : nat -> datetime) (prog url : str) (parsed : ParseResult)
    (dt : datetime) (n : Z) :
  urlparse url = Ok parsed ->
  parse_values (first_value (query parsed) (lit "X-Amz-Date"))
               (first_value (query parsed) (lit "X-Amz-Expires"))
    = Ok (dt, n) ->
  n < 0 ->
  86400 * 1000000 <= microseconds_since_origin dt + n * 1000000 ->
  valid_datetime (clock 0%nat) ->
  exit_status (run clock [prog; url]) = 0
  /\ traceback (run clock [prog; url]) = None
  /\ (exists expiry_time : datetime,
        output (run clock [prog; url]) !! 1%nat
          = Some (lit "Expires at:      " ++ datetime_str expiry_time
                  ++ lit " UTC")
        /\ microseconds_since_origin expiry_time
           < microseconds_since_origin dt)
  /\ (microseconds_since_origin dt <= microseconds_since_origin (clock 0%nat)
      -> output (run clock [prog; url]) !! 3%nat
         = Some (lit "The pre-signed URL has expired.")).
Proof.
  intros Hu Hp Hn Hmin Hnow.
  destruct (parse_values_Ok _ _ _ _ Hp) as (Hs & _ & _).
  destruct (strptime_valid _ _ _ Hs) as [Hv _].
  pose proof (microseconds_since_origin_range dt Hv) as Hdt.
  assert (representable (microseconds_since_origin dt + n * 1000000)) as Hr
    by (unfold representable in *; lia).
  destruct (run_representable clock prog _ _ _ _ Hu Hp Hr)
    as (e & _ & Hus & Hve & Hte & ->).
  cbn [output exit_status traceback].
  split; [done|]. split; [done|]. split.
  - exists e. split; [done|lia].
  - intros Hle. cbn.
    destruct (datetime_lt (clock 0%nat) e) eqn:Hlt; [|done].
    apply (datetime_lt_spec _ _ Hnow Hve) in Hlt. lia.
Qed.

(** ** Repeated parameters *)

Lemma split_nonempty (sep : N) (s : str) : split sep s <> [].
Proof. destruct s as [|c s]; cbn; repeat case_match; done. Qed.

Lemma split_app (sep : N) (a b : str) :
  split sep (a ++ sep :: b) = split sep a ++ split sep b.
Proof.
  induction a as [|c a IH]; cbn.
  - by rewrite N.eqb_refl.
  - destruct (N.eqb c sep); [by rewrite IH|].
    rewrite IH. pose proof (split_nonempty sep a).
    by destruct (split sep a).
Qed.

Lemma parse_qsl_split (qs : str) :
  parse_qsl qs = flat_map parse_qsl_field (split (ord "&") qs).
Proof. by destruct qs. Qed.

Lemma parse_qsl_app (qs extra : str) :
  parse_qsl (qs ++ lit "&" ++ extra) = parse_qsl qs ++ parse_qsl extra.
Proof.
  rewrite !parse_qsl_split.
  change (lit "&" ++ extra) with (ord "&" :: extra).
  by rewrite split_app, flat_map_app.
Qed.

Lemma values_of_app (k : str) (l1 l2 : list (str * str)) :
  values_of k (l1 ++ l2) = values_of k l1 ++ values_of k l2.
Proof. unfold values_of. apply omap_app. Qed.

Lemma first_value_app (qs extra name : str) :
  first_value (qs ++ lit "&" ++ extra) name =
  match first_value qs name with
  | Some v => Some v
  | None => first_value extra name
  end.
Proof.
  unfold first_value. rewrite parse_qsl_app, values_of_app.
  by destruct (values_of name (parse_qsl qs)).
Qed.

Lemma elem_of_parse_qsl_field (field k v : str) :
  (k, v) ∈ parse_qsl_field field ->
  exists n raw,
    split1 (ord "=") field = [n; raw] /\ raw <> [] /\ k = decode n
    /\ v = decode raw.
Proof.
  unfold parse_qsl_field. intros Hkv.
  destruct (truthy field); [|by apply elem_of_nil in Hkv]. cbn [negb] in Hkv.
  destruct (split1 (ord "=") field) as [|n [|raw [|? ?]]];
    try by apply elem_of_nil in Hkv.
  destruct raw as [|c raw]; [by apply elem_of_nil in Hkv|].
  cbn in Hkv. apply list_elem_of_singleton in Hkv. simplify_eq.
  by exists n, (c :: raw).
Qed.

Lemma parse_qsl_field_valued (field n raw : str) :
  split1 (ord "=") field = [n; raw] -> raw <> [] ->
  parse_qsl_field field = [(decode n, decode raw)].
Proof.
  intros Hs Hraw. unfold parse_qsl_field.
  destruct field as [|c field]; [discriminate Hs|]. cbn [truthy negb].
  rewrite Hs. by destruct raw.
Qed.

(** The value that the mapping holds first is that of the first valued
    occurrence. *)
Lemma first_value_of_first_valued_occurrence (qs name raw : str) :
  first_valued_occurrence qs name raw ->
  first_value qs name = Some (decode raw).
Proof.
  intros (pre & field & post & n & Hsplit & Hs & Hraw & Hn & Hpre).
  unfold first_value.
  rewrite parse_qsl_split, Hsplit, flat_map_app, values_of_app.
  assert (values_of name (flat_map parse_qsl_field pre) = []) as ->.
  { apply values_of_nil_iff. intros v Hv.
    apply list_elem_of_In, in_flat_map in Hv as (f & Hf & Hv).
    apply list_elem_of_In in Hf, Hv.
    apply elem_of_parse_qsl_field in Hv as (n' & raw' & Hs' & Hraw' & Hk & _).
    by apply Hraw', (Hpre f n' raw'). }
  cbn [flat_map app]. rewrite (parse_qsl_field_valued _ _ _ Hs Hraw).
  cbn [app]. unfold values_of. cbn [omap list_omap fst snd]. rewrite Hn.
  by destruct (decide (name = name)).
Qed.

Lemma first_valued_occurrence_exists (qs name : str) :
  occurs_with_value qs name -> exists raw, first_valued_occurrence qs name raw.
Proof.
  intros (field & n & raw & Hin & Hs & Hraw & Hn).
  unfold first_valued_occurrence.
  induction (split (ord "&") qs) as [|f fields IH];
    [by apply elem_of_nil in Hin|].
  assert ((exists n0 raw0, split1 (ord "=") f = [n0; raw0] /\ raw0 <> []
                            /\ decode n0 = name)
          \/ (forall n' v, split1 (ord "=") f = [n'; v] ->
                           decode n' = name -> v = []))
    as [(n0 & raw0 & H1 & H2 & H3)|Hno].
  { destruct (split1 (ord "=") f) as [|n' [|v [|? ?]]];
      try (right; intros ? ? Heq; discriminate Heq).
    destruct (decide (v = [])) as [->|Hv];
      [right; intros ? ? Heq; by injection Heq as <- <-|].
    destruct (decide (decode n' = name)) as [Hd|Hd];
      [left; by exists n', v
      |right; intros ? ? Heq ?; by injection Heq as <- <-]. }
  - exists raw0, [], f, fields, n0. repeat split; try done.
    intros ? ? ? H. by apply elem_of_nil in H.
  - apply elem_of_cons in Hin as [->|Hin].
    { by destruct Hraw, (Hno n raw). }
    destruct (IH Hin) as (raw1 & pre & f1 & post & n1 & -> & H1 & H2 & H3
                          & Hpre).
    exists raw1, (f :: pre), f1, post, n1. repeat split; try done.
    intros g n' v [->|Hg]%elem_of_cons; [apply Hno|by apply Hpre].
Qed.

(** C6 (amended): for every query string in which X-Amz-Date and
    X-Amz-Expires each occur with a non-empty value, the program uses the
    value of the first occurrence of each name that has a non-empty value
    (occurrences with an empty value are passed over); whatever else the
    query string holds, later occurrences included, does not affect the
    result: a run on any other URL with the same two first valued
    occurrences is the same run. *)
Theorem C6_first_valued_occurrence_wins
    (clock : nat -> datetime) (prog url : str) (parsed : ParseResult) :
  urlparse url = Ok parsed ->
  occurs_with_value (query parsed) (lit "X-Amz-Date") ->
  occurs_with_value (query parsed) (lit "X-Amz-Expires") ->
  exists amz_date expires : str,
    first_valued_occurrence (query parsed) (lit "X-Amz-Date") amz_date
    /\ first_valued_occurrence (query parsed) (lit "X-Amz-Expires") expires
    /\ params_get (parse_qs (query parsed)) (lit "X-Amz-Date") !! 0%nat
       = Some (Some (decode amz_date))
    /\ params_get (parse_qs (query parsed)) (lit "X-Amz-Expires") !! 0%nat
       = Some (Some (decode expires))
    /\ forall (url' : str) (parsed' : ParseResult) (amz_date' expires' : str),
         urlparse url' = Ok parsed' ->
         first_valued_occurrence (query parsed') (lit "X-Amz-Date")
           amz_date' ->
         first_valued_occurrence (query parsed') (lit "X-Amz-Expires")
           expires' ->
         decode amz_date' = decode amz_date ->
         decode expires' = decode expires ->
         run clock [prog; url'] = run clock [prog; url].
Proof.
  intros Hu Hd He.
  destruct (first_valued_occurrence_exists _ _ Hd) as [amz_date Hfd].
  destruct (first_valued_occurrence_exists _ _ He) as [expires Hfe].
  exists amz_date, expires.
  assert (forall q name, params_get (parse_qs q) name !! 0%nat
                         = Some (first_value q name)) as Hget.
  { intros q name. unfold params_get, first_value. rewrite parse_qs_lookup.
    by destruct (values_of name (parse_qsl q)). }
  rewrite !Hget, (first_value_of_first_valued_occurrence _ _ _ Hfd),
    (first_value_of_first_valued_occurrence _ _ _ Hfe).
  repeat split; try done.
  intros url' parsed' amz_date' expires' Hu' Hfd' Hfe' Ed Ee.
  apply (run_determined clock _ _ _ _ _ Hu' Hu).
  - by rewrite (first_value_of_first_valued_occurrence _ _ _ Hfd'),
      (first_value_of_first_valued_occurrence _ _ _ Hfd), Ed.
  - by rewrite (first_value_of_first_valued_occurrence _ _ _ Hfe'),
      (first_value_of_first_valued_occurrence _ _ _ Hfe), Ee.
Qed.

(** ** Parse failures *)

(** C4 (amended): for every input where [datetime.strptime], with the
    format of the script, raises on the X-Amz-Date value, or [int] raises on
    the X-Amz-Expires value, the program catches the failure under the
    single class [Exception] and exits with status 1 without reading the
    clock.  When standard output can encode the text, it prints
    "Error parsing date or expires: " followed by the text of the exception
    and nothing else; when it cannot, that [print] raises
    [UnicodeEncodeError] inside the handler, nothing is printed and the run
    ends in a traceback. *)
Theorem C4_parse_failure_diagnostic
    (clock : nat -> datetime) (prog url : str) (parsed : ParseResult)
    (amz_date expires : str) (e : Exception) :
  urlparse url = Ok parsed ->
  first_value (query parsed) (lit "X-Amz-Date") = Some amz_date ->
  first_value (query parsed) (lit "X-Amz-Expires") = Some expires ->
  amz_date <> [] -> expires <> [] ->
  strptime (Some amz_date) "%Y%m%dT%H%M%SZ" = Raise e
  \/ (exists dt, strptime (Some amz_date) "%Y%m%dT%H%M%SZ" = Ok dt
                 /\ int (Some expires) = Raise e) ->
  isinstance_Exception e = true
  /\ exit_status (run clock [prog; url]) = 1
  /\ clock_read_count (run clock [prog; url]) = 0%nat
  /\ (stdout_accepts (lit "Error parsing date or expires: "
                        ++ exception_str e) = true ->
      run clock [prog; url] =
      {| output := [lit "Error parsing date or expires: "
                      ++ exception_str e];
         exit_status := 1; traceback := None; clock_read_count := 0 |})
  /\ (stdout_accepts (lit "Error parsing date or expires: "
                        ++ exception_str e) = false ->
      run clock [prog; url] =
      {| output := []; exit_status := 1;
         traceback :=
           Some (UnicodeEncodeError
                   (lit "Error parsing date or expires: "
                      ++ exception_str e));
         clock_read_count := 0 |}).
Proof.
  intros Hu Hd He Hdn Hen Hfail.
  assert (parse_values (Some amz_date) (Some expires) = Raise e) as Hp.
  { unfold parse_values.
    destruct Hfail as [-> | (dt & -> & Hi)]; [done|]. cbn [rbind].
    by rewrite Hi. }
  assert (py_not (Some amz_date) || py_not (Some expires) = false) as Hnot
    by (by destruct amz_date, expires).
  rewrite <- Hd, <- He in Hp, Hnot.
  pose proof (run_parse_error clock prog _ _ _ Hu Hnot Hp) as Hyes.
  pose proof (run_parse_error_refused clock prog _ _ _ Hu Hnot Hp) as Hno.
  split; [by eapply parse_values_raises|].
  destruct (stdout_accepts
              (lit "Error parsing date or expires: " ++ exception_str e));
    [rewrite Hyes by done | rewrite Hno by done]; done.
Qed.

(** ** URL decomposition *)

Lemma plain_lstrip (chars : N -> bool) (s : str) : plain s -> plain (lstrip chars s).
Proof.
  induction 1 as [|c s Hc Hs IH]; cbn; [constructor|].
  destruct (chars c); [done|by constructor].
Qed.

Lemma plain_remove (b : N) (s : str) : plain s -> plain (replace b [] s).
Proof.
  induction 1 as [|c s Hc Hs IH]; cbn; [constructor|].
  destruct (N.eqb c b); cbn; [done|by constructor].
Qed.

Lemma plain_take (n : nat) (s : str) : plain s -> plain (take n s).
Proof. apply Forall_take. Qed.

Lemma plain_drop (n : nat) (s : str) : plain s -> plain (drop n s).
Proof. apply Forall_drop. Qed.

Lemma plain_no_bracket (s : str) :
  plain s ->
  contains (ord "[") s = false /\ contains (ord "]") s = false
  /\ isascii s = true.
Proof.
  induction 1 as [|c s Hc Hs (IH1 & IH2 & IH3)]; [done|].
  unfold contains, isascii in *. cbn [existsb forallb].
  rewrite IH1, IH2, IH3. unfold plain_char in Hc.
  apply andb_prop in Hc as [Hc H2]. apply andb_prop in Hc as [H0 H1].
  rewrite H0. rewrite (N.eqb_sym (ord "[")), (N.eqb_sym (ord "]")).
  apply negb_true_iff in H1, H2. by rewrite H1, H2.
Qed.

Lemma urlsplit_plain (url : str) :
  plain url -> exists r, urlsplit url = Ok r.
Proof.
  intros Hp. unfold urlsplit.
  apply (plain_lstrip _WHATWG_C0_CONTROL_OR_SPACE) in Hp.
  set (url1 := lstrip _ url) in *.
  assert (plain (fold_left (fun u b => replace b [] u)
                           _UNSAFE_URL_BYTES_TO_REMOVE url1)) as Hp2
    by (cbn; by do 3 apply plain_remove).
  set (url2 := fold_left _ _ url1) in *. clearbody url2. clear Hp url1.
  set (i := find (ord ":") url2 0). clearbody i.
  match goal with
  | |- context [if ?c then (?a, ?b) else (?a', ?b')] =>
      assert (exists sch url3, (if c then (a, b) else (a', b')) = (sch, url3)
                               /\ plain url3) as (sch & url3 & -> & Hp3)
        by (destruct c; eexists _, _; (split; [reflexivity|]);
            [by apply plain_drop | done])
  end.
  clear Hp2 url2 i.
  assert (forall netloc, plain netloc -> _checknetloc netloc = Ok tt) as Hck.
  { intros netloc Hn. unfold _checknetloc.
    destruct (plain_no_bracket _ Hn) as (_ & _ & ->). by rewrite orb_true_r. }
  destruct (str_eqb (take 2 url3) (lit "//")).
  - unfold _splitnetloc.
    set (delim := Z.to_nat _). clearbody delim.
    assert (plain (drop 2 (take delim url3))) as Hn
      by (by apply plain_drop, plain_take).
    destruct (plain_no_bracket _ Hn) as (-> & -> & _).
    cbn [andb orb negb rbind]. rewrite (Hck _ Hn).
    repeat case_match; cbn [rbind]; eauto.
  - cbn [rbind]. rewrite (Hck [] ltac:(constructor)).
    repeat case_match; cbn [rbind]; eauto.
Qed.

Lemma urlparse_plain (url : str) :
  plain url -> exists parsed, urlparse url = Ok parsed.
Proof.
  intros Hp. destruct (urlsplit_plain url Hp) as [[[[[sch nl] u] q] fr] Hs].
  unfold urlparse. rewrite Hs. cbn [rbind]. repeat case_match; eauto.
Qed.

(** C5 (amended): for every input URL made of ASCII characters other than
    the square brackets, URL decomposition returns without an error, and a
    query component that is empty or lacks either parameter is treated as
    "parameter not found": the missing-parameter diagnostic and exit
    status 1.  ([urlparse] can raise [ValueError] only on the other URLs;
    the script does not catch it.) *)
Theorem C5_plain_url_never_a_url_error
    (clock : nat -> datetime) (prog url : str) :
  plain url ->
  exists parsed : ParseResult,
    urlparse url = Ok parsed
    /\ (query parsed = []
        \/ parse_qs (query parsed) !! lit "X-Amz-Date" = None
        \/ parse_qs (query parsed) !! lit "X-Amz-Expires" = None ->
        run clock [prog; url] =
        {| output :=
             [lit "Could not find X-Amz-Date or X-Amz-Expires in the URL."];
           exit_status := 1; traceback := None; clock_read_count := 0 |}).
Proof.
  intros Hp. destruct (urlparse_plain url Hp) as [parsed Hu].
  exists parsed. split; [done|]. intros H.
  apply (run_missing _ _ _ _ Hu).
  rewrite !parse_qs_lookup_None in H.
  destruct H as [-> | [-> | ->]]; [done|done|apply orb_true_r].
Qed.

(** * Further properties of the script *)



(** ** All the ways a run ends *)

Lemma representable_dec (t : Z) : {representable t} + {~ representable t}.
Proof.
  unfold representable.
  destruct (Z_le_dec (86400 * 1000000) t);
    destruct (Z_lt_dec t ((_MAXORDINAL + 1) * 86400 * 1000000));
    (left; lia) || (right; lia).
Qed.

(** After a successful parse the addition raises nothing but
    [OverflowError], and only outside the representable range. *)
Lemma expiry_of_parsed_raises (amz_date expires : option str)
    (dt : datetime) (n : Z) (e : Exception) :
  parse_values amz_date expires = Ok (dt, n) ->
  expiry_of dt n = Raise e ->
  e = OverflowError
  /\ ~ representable (microseconds_since_origin dt + n * 1000000).
Proof.
  intros Hp Hx. destruct (parse_values_Ok _ _ _ _ Hp) as (Hs & _ & _).
  destruct (strptime_valid _ _ _ Hs) as [Hv _].
  destruct (expiry_of_spec dt n Hv) as [Hok Hbad].
  destruct (representable_dec (microseconds_since_origin dt + n * 1000000))
    as [Hr|Hr].
  - destruct (Hok Hr) as (e' & He' & _). congruence.
  - rewrite (Hbad Hr) in Hx. by simplify_eq.
Qed.

Lemma run_ending (clock : nat -> datetime) (argv : list str) :
  Ending clock argv.
Proof.
  destruct (decide (length argv = 2%nat)) as [Hlen|Hlen];
    [|by apply EndUsage; [|apply run_wrong_argc]].
  destruct argv as [|prog [|url [|? ?]]]; try done. clear Hlen.
  destruct (urlparse url) as [parsed|e] eqn:Hu.
  2: { destruct (urlparse_raises _ _ Hu) as [cause ->].
       eapply EndUrlError; [done|done|]. by apply run_urlparse_raises. }
  destruct (py_not (first_value (query parsed) (lit "X-Amz-Date"))
            || py_not (first_value (query parsed) (lit "X-Amz-Expires")))
    eqn:Hnot.
  { eapply EndMissing; [done|done|done|]. by apply (run_missing _ _ _ _ Hu). }
  destruct (parse_values (first_value (query parsed) (lit "X-Amz-Date"))
              (first_value (query parsed) (lit "X-Amz-Expires")))
    as [[dt n]|e] eqn:Hp.
  2: { pose proof (parse_values_raises _ _ _ Hp) as He.
       destruct (stdout_accepts
                   (lit "Error parsing date or expires: " ++ exception_str e))
         eqn:Hacc.
       - eapply EndParseError; [done|done|done|done|done|].
         by apply (run_parse_error _ _ _ _ _ Hu Hnot).
       - eapply EndEncodeError; [done|done|done|done|done|].
         by apply (run_parse_error_refused _ _ _ _ _ Hu Hnot). }
  destruct (expiry_of dt n) as [expiry_time|e] eqn:Hx.
  2: { destruct (expiry_of_parsed_raises _ _ _ _ _ Hp Hx) as [-> Hr].
       eapply EndOverflow; [done|done|done|done|].
       by apply (run_arithmetic_error _ _ _ _ _ _ _ Hu Hnot Hp). }
  eapply EndReport; [done|done|done|done|].
  by apply (run_report _ _ _ _ _ _ _ Hu Hnot Hp).
Qed.

(** Every run ends in one of seven ways: the usage line; a traceback of
    the [ValueError] that [urlparse] raised; the missing-parameter line; the
    parse-error line, when standard output can encode it; a traceback of
    the [UnicodeEncodeError] that the [print] of the parse-error line
    raised, when it cannot; a traceback of [OverflowError]; or the report
    of four texts. *)
Theorem run_seven_outcomes (clock : nat -> datetime) (argv : list str) :
  run clock argv =
    {| output := [lit "Usage: python check_presigned_url_expiry.py <presigned_url>"];
       exit_status := 1; traceback := None; clock_read_count := 0 |}
  \/ (exists cause,
        run clock argv =
        {| output := []; exit_status := 1;
           traceback := Some (ValueError cause); clock_read_count := 0 |})
  \/ run clock argv =
     {| output := [lit "Could not find X-Amz-Date or X-Amz-Expires in the URL."];
        exit_status := 1; traceback := None; clock_read_count := 0 |}
  \/ (exists e,
        stdout_accepts (lit "Error parsing date or expires: "
                          ++ exception_str e) = true
        /\ run clock argv =
           {| output := [lit "Error parsing date or expires: "
                           ++ exception_str e];
              exit_status := 1; traceback := None; clock_read_count := 0 |})
  \/ (exists e,
        stdout_accepts (lit "Error parsing date or expires: "
                          ++ exception_str e) = false
        /\ run clock argv =
           {| output := []; exit_status := 1;
              traceback :=
                Some (UnicodeEncodeError
                        (lit "Error parsing date or expires: "
                           ++ exception_str e));
              clock_read_count := 0 |})
  \/ run clock argv =
     {| output := []; exit_status := 1; traceback := Some OverflowError;
        clock_read_count := 0 |}
  \/ (exists dt expiry_time : datetime,
        run clock argv =
        {| output :=
             [lit "URL generated at: " ++ datetime_str dt ++ lit " UTC";
              lit "Expires at:      " ++ datetime_str expiry_time
                ++ lit " UTC";
              lit "Current time:    " ++ datetime_str (clock 0%nat)
                ++ lit " UTC";
              if datetime_lt (clock 0%nat) expiry_time
              then lit "The pre-signed URL is still valid."
              else lit "The pre-signed URL has expired."];
           exit_status := 0; traceback := None; clock_read_count := 1 |}).
Proof.
  destruct (run_ending clock argv) as
    [? H | ? ? cause ? ? H | ? ? ? ? ? ? H | ? ? ? e ? ? ? ? ? H
     | ? ? ? e ? ? ? ? ? H | ? ? ? ? ? ? ? ? ? H
     | ? ? ? dt ? e ? ? ? ? H].
  - by left.
  - right; left. by exists cause.
  - do 2 right; left. done.
  - do 3 right; left. by exists e.
  - do 4 right; left. by exists e.
  - do 5 right; left. done.
  - do 6 right. by exists dt, e.
Qed.

(** The exit status is 0 or 1.  With status 0 exactly four calls of
    [print] wrote their text and there is no traceback; with status 1
    either exactly one call did and there is no traceback, or nothing was
    written and the run ended in a traceback.  (A text may hold line feeds
    that came with the URL, so the count is of calls, not of lines.) *)
Theorem exit_status_and_print_count (clock : nat -> datetime)
    (argv : list str) :
  (exit_status (run clock argv) = 0
   /\ length (output (run clock argv)) = 4%nat
   /\ traceback (run clock argv) = None)
  \/ (exit_status (run clock argv) = 1
      /\ length (output (run clock argv)) = 1%nat
      /\ traceback (run clock argv) = None)
  \/ (exit_status (run clock argv) = 1
      /\ output (run clock argv) = []
      /\ traceback (run clock argv) <> None).
Proof.
  destruct (run_ending clock argv) as
    [? H | ? ? cause ? ? H | ? ? ? ? ? ? H | ? ? ? e ? ? ? ? ? H
     | ? ? ? e ? ? ? ? ? H | ? ? ? ? ? ? ? ? ? H
     | ? ? ? dt ? e ? ? ? ? H]; rewrite H;
    cbn [exit_status output traceback usage_outcome missing_outcome length];
    auto 10.
Qed.

(** A run that does not exit with status 0 exits with status 1 and has
    not read the clock: every failure is decided before [utcnow] is
    called. *)
Theorem clock_not_read_on_failure (clock : nat -> datetime)
    (argv : list str) :
  exit_status (run clock argv) <> 0 ->
  exit_status (run clock argv) = 1
  /\ clock_read_count (run clock argv) = 0%nat.
Proof.
  destruct (run_ending clock argv) as
    [? H | ? ? cause ? ? H | ? ? ? ? ? ? H | ? ? ? e ? ? ? ? ? H
     | ? ? ? e ? ? ? ? ? H | ? ? ? ? ? ? ? ? ? H
     | ? ? ? dt ? e ? ? ? ? H]; by rewrite H.
Qed.

(** An uncaught exception is the [ValueError] that [urlparse] raised on
    the argument, an [OverflowError], or the [UnicodeEncodeError] that the
    [print] of the parse-error line raised inside the handler, on a
    standard output that cannot encode the text of the caught exception;
    indexing the parameter lists and passing the values to the parsers
    never raises [IndexError] or [TypeError]. *)
Theorem uncaught_exceptions (clock : nat -> datetime) (argv : list str)
    (e : Exception) :
  traceback (run clock argv) = Some e ->
  (exists prog url cause,
     argv = [prog; url] /\ urlparse url = Raise (ValueError cause)
     /\ e = ValueError cause)
  \/ e = OverflowError
  \/ (exists caught,
        isinstance_Exception caught = true
        /\ stdout_accepts (lit "Error parsing date or expires: "
                             ++ exception_str caught) = false
        /\ e = UnicodeEncodeError
                 (lit "Error parsing date or expires: "
                    ++ exception_str caught)).
Proof.
  destruct (run_ending clock argv) as
    [? H | prog url cause ? ? H | ? ? ? ? ? ? H | ? ? ? e' ? ? ? ? ? H
     | ? ? ? e' ? ? ? ? ? H | ? ? ? ? ? ? ? ? ? H
     | ? ? ? dt ? e' ? ? ? ? H]; rewrite H;
    cbn [traceback usage_outcome missing_outcome]; intros He;
    simplify_eq.
  - left. by exists prog, url, cause.
  - do 2 right. by exists e'.
  - right. by left.
Qed.

(** For well-formed values the run ends in the [OverflowError] traceback
    exactly when the expiry instant is outside 0001-01-01 00:00:00 ..
    9999-12-31 23:59:59, and then nothing is printed. *)
Theorem overflow_exactly_out_of_range
    (clock : nat -> datetime) (prog url : str) (parsed : ParseResult)
    (dt : datetime) (n : Z) :
  urlparse url = Ok parsed ->
  parse_values (first_value (query parsed) (lit "X-Amz-Date"))
               (first_value (query parsed) (lit "X-Amz-Expires"))
    = Ok (dt, n) ->
  (traceback (run clock [prog; url]) = Some OverflowError
   <-> ~ representable (microseconds_since_origin dt + n * 1000000))
  /\ (traceback (run clock [prog; url]) = Some OverflowError ->
      output (run clock [prog; url]) = []).
Proof.
  intros Hu Hp.
  destruct (representable_dec (microseconds_since_origin dt + n * 1000000))
    as [Hr|Hr].
  - destruct (run_representable clock prog _ _ _ _ Hu Hp Hr)
      as (e & _ & _ & _ & _ & ->). cbn [traceback output].
    split; [split; [done|intros H; by destruct H]|done].
  - destruct (parse_values_Ok _ _ _ _ Hp) as (Hs & _ & Hnot).
    destruct (strptime_valid _ _ _ Hs) as [Hv _].
    destruct (expiry_of_spec dt n Hv) as [_ Hbad].
    rewrite (run_arithmetic_error clock _ _ _ _ _ _ Hu Hnot Hp (Hbad Hr)).
    cbn [traceback output]. done.
Qed.

(** ** Instants and the addition *)

(** Objects that compare equal have the same fields. *)
Lemma datetime_cmp_eq (a b : datetime) :
  datetime_lt a b = false -> datetime_lt b a = false -> a = b.
Proof.
  unfold datetime_lt, datetime_cmp, datetime_fields, _cmp.
  destruct a as [ya ma da ha mia sa ua], b as [yb mb db hb mib sb ub].
  cbn [year month day hour minute second microsecond].
  repeat match goal with
         | |- context [Z.eqb ?x ?y] => destruct (Z.eqb_spec x y)
         | |- context [if Z.ltb ?x ?y then _ else _] =>
             destruct (Z.ltb_spec x y)
         end; intros H1 H2; try (by subst);
    try (vm_compute in H1; discriminate H1);
    try (vm_compute in H2; discriminate H2); lia.
Qed.

(** Two valid [datetime] objects at the same instant are equal. *)
Lemma microseconds_since_origin_inj (a b : datetime) :
  valid_datetime a -> valid_datetime b ->
  microseconds_since_origin a = microseconds_since_origin b -> a = b.
Proof.
  intros Ha Hb H. apply datetime_cmp_eq.
  - destruct (datetime_lt a b) eqn:E; [|done].
    apply (datetime_lt_spec _ _ Ha Hb) in E. lia.
  - destruct (datetime_lt b a) eqn:E; [|done].
    apply (datetime_lt_spec _ _ Hb Ha) in E. lia.
Qed.

(** Adding zero seconds returns the [datetime] itself. *)
Theorem expiry_of_zero (dt : datetime) :
  valid_datetime dt -> expiry_of dt 0 = Ok dt.
Proof.
  intros Hv. destruct (expiry_of_spec dt 0 Hv) as [Hok _].
  pose proof (microseconds_since_origin_range dt Hv) as Hr.
  destruct (Hok ltac:(by rewrite Z.add_0_r)) as (e & -> & Hve & Hte).
  f_equal. apply microseconds_since_origin_inj; [done|done|lia].
Qed.

(** Adding [a + b] seconds is adding [a] seconds and then [b] seconds,
    including whether the result overflows, provided the intermediate
    instant is representable. *)
Theorem expiry_of_add (dt : datetime) (a b : Z) :
  valid_datetime dt ->
  representable (microseconds_since_origin dt + a * 1000000) ->
  expiry_of dt (a + b) = rbind (expiry_of dt a) (fun e => expiry_of e b).
Proof.
  intros Hv Hra.
  destruct (expiry_of_spec dt a Hv) as [Hoka _].
  destruct (Hoka Hra) as (e1 & -> & Hv1 & Ht1). cbn [rbind].
  destruct (expiry_of_spec dt (a + b) Hv) as [Hok Hbad].
  destruct (expiry_of_spec e1 b Hv1) as [Hok1 Hbad1].
  rewrite Ht1 in Hok1, Hbad1.
  replace (microseconds_since_origin dt + a * 1000000 + b * 1000000)
    with (microseconds_since_origin dt + (a + b) * 1000000) in * by lia.
  destruct (Z_le_dec (86400 * 1000000) (microseconds_since_origin dt + (a + b) * 1000000)) as [H1|H1];
  destruct (Z_lt_dec (microseconds_since_origin dt + (a + b) * 1000000) ((_MAXORDINAL + 1) * 86400 * 1000000)) as [H2|H2].
  1: { destruct (Hok (conj H1 H2)) as (e & -> & Hve & Hte).
       destruct (Hok1 (conj H1 H2)) as (e' & -> & Hve' & Hte').
       f_equal. apply microseconds_since_origin_inj; [done|done|lia]. }
  all: rewrite Hbad, Hbad1; [done| |]; unfold representable; lia.
Qed.

(** [_ord2ymd] inverts [_ymd2ord] on every date of the years 1 to 9999:
    the date that the addition rebuilds from an ordinal is the date the
    ordinal was computed from. *)
Theorem _ord2ymd_ymd2ord (y m d : Z) :
  1 <= y <= 9999 -> valid_date y m d ->
  _ord2ymd (_ymd2ord y m d) = (y, m, d).
Proof.
  intros Hy Hd.
  set (a := {| year := y; month := m; day := d; hour := 0; minute := 0;
               second := 0; microsecond := 0 |}).
  assert (valid_datetime a) as Ha.
  { apply valid_datetime_bounds. unfold valid_date in Hd. cbn. lia. }
  pose proof (toordinal_range a Ha) as Hr. unfold toordinal in Hr. cbn in Hr.
  pose proof (_ord2ymd_spec _ Hr) as Hs.
  destruct (_ord2ymd (_ymd2ord y m d)) as [[y' m'] d'].
  destruct Hs as (Hy' & Hm' & Hd' & Ho).
  set (b := {| year := y'; month := m'; day := d'; hour := 0; minute := 0;
               second := 0; microsecond := 0 |}).
  assert (valid_datetime b) as Hb.
  { apply valid_datetime_bounds. cbn. lia. }
  assert (a = b) as E.
  { apply microseconds_since_origin_inj; [done|done|].
    unfold microseconds_since_origin, seconds_since_origin, toordinal.
    cbn. by rewrite Ho. }
  by injection E as <- <- <-.
Qed.

(** ** The order of instants *)

Lemma _cmp_refl (x : list Z) : _cmp x x = 0.
Proof. induction x as [|a x IH]; [done|]. cbn. by rewrite Z.eqb_refl. Qed.

Lemma _cmp_lt_asym (x : list Z) :
  forall y, _cmp x y < 0 -> 0 < _cmp y x.
Proof.
  induction x as [|a x IH]; intros [|b y]; cbn; try lia.
  destruct (Z.eqb_spec a b) as [->|Hab].
  - rewrite Z.eqb_refl. apply IH.
  - destruct (Z.eqb_spec b a) as [->|_]; [done|].
    destruct (Z.ltb_spec b a), (Z.ltb_spec a b); lia.
Qed.

Lemma _cmp_lt_trans (x : list Z) :
  forall y z, _cmp x y < 0 -> _cmp y z < 0 -> _cmp x z < 0.
Proof.
  induction x as [|a x IH]; intros [|b y] [|c z]; cbn; try lia.
  destruct (Z.eqb_spec a b) as [->|Hab].
  - destruct (Z.eqb_spec b c) as [->|Hbc]; [apply IH|].
    by destruct (c <? b).
  - destruct (Z.ltb_spec b a) as [Hba|Hba]; [lia|]. intros _.
    destruct (Z.eqb_spec b c) as [->|Hbc].
    + intros _. destruct (Z.eqb_spec a c) as [->|_]; [done|].
      destruct (Z.ltb_spec c a); lia.
    + destruct (Z.ltb_spec c b) as [Hcb|Hcb]; [lia|]. intros _.
      destruct (Z.eqb_spec a c) as [->|_]; [lia|].
      destruct (Z.ltb_spec c a); lia.
Qed.

(** The comparison [now < expiry_time] is a strict total order on
    [datetime] objects: irreflexive, asymmetric and transitive, and two
    objects of which neither is before the other have the same fields. *)
Theorem datetime_lt_strict_total_order (a b c : datetime) :
  datetime_lt a a = false
  /\ (datetime_lt a b = true -> datetime_lt b a = false)
  /\ (datetime_lt a b = true -> datetime_lt b c = true ->
      datetime_lt a c = true)
  /\ (datetime_lt a b = false -> datetime_lt b a = false -> a = b).
Proof.
  unfold datetime_lt, datetime_cmp. repeat split.
  - rewrite _cmp_refl. done.
  - intros H%Z.ltb_lt. apply _cmp_lt_asym in H. apply Z.ltb_ge. lia.
  - intros H1%Z.ltb_lt H2%Z.ltb_lt. apply Z.ltb_lt.
    by eapply _cmp_lt_trans.
  - apply datetime_cmp_eq.
Qed.

(** ** The verdict along the time line *)

(** The verdict line of a run on well-formed, representable values. *)
Lemma run_verdict (clock : nat -> datetime) (prog url : str)
    (parsed : ParseResult) (dt : datetime) (n : Z) :
  urlparse url = Ok parsed ->
  parse_values (first_value (query parsed) (lit "X-Amz-Date"))
               (first_value (query parsed) (lit "X-Amz-Expires"))
    = Ok (dt, n) ->
  representable (microseconds_since_origin dt + n * 1000000) ->
  valid_datetime (clock 0%nat) ->
  output (run clock [prog; url]) !! 3%nat =
  Some (if microseconds_since_origin (clock 0%nat)
           <? microseconds_since_origin dt + n * 1000000
        then valid_line else expired_line).
Proof.
  intros Hu Hp Hr Hnow.
  destruct (run_representable clock prog _ _ _ _ Hu Hp Hr)
    as (e & Hv & Hus & Hve & Hte & ->).
  cbn [output lookup list_lookup]. f_equal.
  pose proof (datetime_lt_spec _ _ Hnow Hve) as Hlt. rewrite Hte in Hlt.
  destruct (datetime_lt (clock 0%nat) e);
    destruct (Z.ltb_spec (microseconds_since_origin (clock 0%nat))
                (microseconds_since_origin dt + n * 1000000)) as [H|H];
    try done.
  - assert (true = true) as E by done. apply Hlt in E. lia.
  - apply Hlt in H. discriminate H.
Qed.

(** With the same signing time and the same clock, a URL that is reported
    valid is still reported valid when its X-Amz-Expires is larger. *)
Theorem longer_validity_keeps_valid
    (clock : nat -> datetime) (prog url1 url2 : str) (p1 p2 : ParseResult)
    (dt : datetime) (n1 n2 : Z) :
  urlparse url1 = Ok p1 -> urlparse url2 = Ok p2 ->
  parse_values (first_value (query p1) (lit "X-Amz-Date"))
               (first_value (query p1) (lit "X-Amz-Expires")) = Ok (dt, n1) ->
  parse_values (first_value (query p2) (lit "X-Amz-Date"))
               (first_value (query p2) (lit "X-Amz-Expires")) = Ok (dt, n2) ->
  representable (microseconds_since_origin dt + n1 * 1000000) ->
  representable (microseconds_since_origin dt + n2 * 1000000) ->
  valid_datetime (clock 0%nat) ->
  n1 <= n2 ->
  output (run clock [prog; url1]) !! 3%nat
    = Some (lit "The pre-signed URL is still valid.") ->
  output (run clock [prog; url2]) !! 3%nat
    = Some (lit "The pre-signed URL is still valid.").
Proof.
  intros H1 H2 Hp1 Hp2 Hr1 Hr2 Hnow Hle.
  rewrite (run_verdict _ _ _ _ _ _ H1 Hp1 Hr1 Hnow),
    (run_verdict _ _ _ _ _ _ H2 Hp2 Hr2 Hnow).
  repeat match goal with
         | |- context [Z.ltb ?x ?y] => destruct (Z.ltb_spec x y)
         end; try done; try lia.
Qed.

(** A URL that is reported expired at one clock reading is reported
    expired at every later one. *)
Theorem expired_stays_expired
    (clock1 clock2 : nat -> datetime) (prog url : str) (parsed : ParseResult)
    (dt : datetime) (n : Z) :
  urlparse url = Ok parsed ->
  parse_values (first_value (query parsed) (lit "X-Amz-Date"))
               (first_value (query parsed) (lit "X-Amz-Expires"))
    = Ok (dt, n) ->
  representable (microseconds_since_origin dt + n * 1000000) ->
  valid_datetime (clock1 0%nat) -> valid_datetime (clock2 0%nat) ->
  microseconds_since_origin (clock1 0%nat)
    <= microseconds_since_origin (clock2 0%nat) ->
  output (run clock1 [prog; url]) !! 3%nat
    = Some (lit "The pre-signed URL has expired.") ->
  output (run clock2 [prog; url]) !! 3%nat
    = Some (lit "The pre-signed URL has expired.").
Proof.
  intros Hu Hp Hr Hc1 Hc2 Hle.
  rewrite (run_verdict _ _ _ _ _ _ Hu Hp Hr Hc1),
    (run_verdict _ _ _ _ _ _ Hu Hp Hr Hc2).
  repeat match goal with
         | |- context [Z.ltb ?x ?y] => destruct (Z.ltb_spec x y)
         end; try done; try lia.
Qed.

(** ** Fields that name other parameters *)

Lemma first_value_None_of_other_names (f key : str) :
  (forall field n v,
     field ∈ split (ord "&") f -> split1 (ord "=") field = [n; v] ->
     decode n <> key) ->
  first_value f key = None.
Proof.
  intros H. apply parse_qs_lookup_None.
  by apply parse_qs_lookup_None_of_no_field.
Qed.

(** Fields of the query string that name neither [X-Amz-Date] nor
    [X-Amz-Expires] have no effect on the run: removing them changes
    nothing. *)
Theorem unrelated_parameters_ignored
    (clock : nat -> datetime) (prog url1 url2 : str) (p1 p2 : ParseResult)
    (a f b : str) :
  urlparse url1 = Ok p1 -> urlparse url2 = Ok p2 ->
  query p1 = a ++ lit "&" ++ f ++ lit "&" ++ b ->
  query p2 = a ++ lit "&" ++ b ->
  (forall field n v,
     field ∈ split (ord "&") f -> split1 (ord "=") field = [n; v] ->
     decode n <> lit "X-Amz-Date" /\ decode n <> lit "X-Amz-Expires") ->
  run clock [prog; url1] = run clock [prog; url2].
Proof.
  intros H1 H2 Hq1 Hq2 Hf.
  assert (forall key, key = lit "X-Amz-Date" \/ key = lit "X-Amz-Expires" ->
            first_value (query p1) key = first_value (query p2) key) as E.
  { intros key Hk. rewrite Hq1, Hq2, !first_value_app.
    rewrite (first_value_None_of_other_names f key); [done|].
    intros field n v Hin Hs. destruct (Hf field n v Hin Hs).
    by destruct Hk as [-> | ->]. }
  apply (run_determined clock _ _ _ _ _ H1 H2); apply E; auto.
Qed.

(** Two parts of a query string can be exchanged without effect on the
    run when, for each of the two parameters, at most one of the parts
    gives it a value. *)
Theorem parameter_order_irrelevant
    (clock : nat -> datetime) (prog url1 url2 : str) (p1 p2 : ParseResult)
    (a b : str) :
  urlparse url1 = Ok p1 -> urlparse url2 = Ok p2 ->
  query p1 = a ++ lit "&" ++ b ->
  query p2 = b ++ lit "&" ++ a ->
  (parse_qs a !! lit "X-Amz-Date" = None
   \/ parse_qs b !! lit "X-Amz-Date" = None) ->
  (parse_qs a !! lit "X-Amz-Expires" = None
   \/ parse_qs b !! lit "X-Amz-Expires" = None) ->
  run clock [prog; url1] = run clock [prog; url2].
Proof.
  intros H1 H2 Hq1 Hq2 Hd He.
  rewrite !parse_qs_lookup_None in Hd, He.
  apply (run_determined clock _ _ _ _ _ H1 H2);
    rewrite Hq1, Hq2, !first_value_app.
  - destruct Hd as [-> | ->]; by case_match.
  - destruct He as [-> | ->]; by case_match.
Qed.

(** ** int on digit strings *)

Lemma is_digit_range (c : N) : is_digit c = true <-> (48 <= c <= 57)%N.
Proof. unfold is_digit. rewrite andb_true_iff, !N.leb_le. done. Qed.

Lemma scan_digits_all (ds : str) :
  forall (prev : N) (digits value : Z),
    all_digits ds -> prev <> ord "_" ->
    scan_digits ds prev digits value
    = Some (digits + Z.of_nat (length ds),
            fold_left (fun acc c => 10 * acc + Z.of_N (c - 48)) ds value, []).
Proof.
  induction ds as [|c ds IH]; intros prev digits value Hd Hp;
    cbn [scan_digits fold_left length].
  - apply N.eqb_neq in Hp. rewrite Hp. by rewrite Z.add_0_r.
  - inversion Hd as [|? ? Hc Hds]; subst. rewrite Hc.
    rewrite IH; [|done|].
    + do 3 f_equal. lia.
    + apply is_digit_range in Hc. intros ->. change (ord "_") with 95%N in Hc. lia.
Qed.

Lemma isascii_digits (ds : str) : all_digits ds -> isascii ds = true.
Proof.
  unfold isascii. induction 1 as [|c ds Hc _ IH]; [done|].
  cbn [forallb]. rewrite IH, andb_true_r.
  apply is_digit_range in Hc. unfold isascii_char. apply N.ltb_lt. lia.
Qed.

(** The part of [PyLong_FromString] after the sign, on digits. *)
Lemma scan_digits_result (ds : str) :
  ds <> [] -> all_digits ds -> (length ds <= 640)%nat ->
  bool_decide (head ds = Some (ord "_")) = false
  /\ exists digits,
       scan_digits ds 0%N 0 0 = Some (digits, digits_value ds, [])
       /\ (_PY_LONG_MAX_STR_DIGITS_THRESHOLD <? digits) = false
       /\ (digits =? 0) = false.
Proof.
  intros Hne Hd Hlen. split.
  - destruct ds as [|c ds]; [done|]. inversion Hd as [|? ? Hc _]; subst.
    apply is_digit_range in Hc. apply bool_decide_eq_false. cbn [head].
    intros [= ->]. change (ord "_") with 95%N in Hc. lia.
  - exists (0 + Z.of_nat (length ds)).
    split; [by apply scan_digits_all|].
    unfold _PY_LONG_MAX_STR_DIGITS_THRESHOLD. split.
    + apply Z.ltb_ge. lia.
    + apply Z.eqb_neq. destruct ds; [done|]. cbn [length]. lia.
Qed.

(** [int] on a string of digits. *)
Lemma int_digits (ds : str) :
  ds <> [] -> all_digits ds -> (length ds <= 640)%nat ->
  int (Some ds) = Ok (digits_value ds).
Proof.
  intros Hne Hd Hlen. pose proof (isascii_digits ds Hd) as Ha.
  destruct (scan_digits_result ds Hne Hd Hlen)
    as (Hus & digits & Hscan & Hthr & Hzero).
  unfold int, _PyUnicode_TransformDecimalAndSpaceToASCII. rewrite Ha.
  unfold PyLong_FromString.
  destruct ds as [|c ds]; [done|].
  inversion Hd as [|? ? Hc _]; subst. apply is_digit_range in Hc.
  assert (Py_ISSPACE c = false) as Hsp.
  { unfold Py_ISSPACE. apply orb_false_iff. split.
    - apply N.eqb_neq. lia.
    - apply andb_false_iff. right. apply N.leb_gt. lia. }
  assert (N.eqb c (ord "+") = false) as Hplus
    by (apply N.eqb_neq; intros ->; change (ord "+") with 43%N in Hc; lia).
  assert (N.eqb c (ord "-") = false) as Hminus
    by (apply N.eqb_neq; intros ->; change (ord "-") with 45%N in Hc; lia).
  cbn [lstrip]. rewrite Hsp, Hplus, Hminus, Hus, Hscan, Hthr, Hzero.
  cbn [andb lstrip truthy]. f_equal; lia.
Qed.

Lemma scan_digits_app (ds rest : str) :
  forall (prev : N) (digits value : Z),
    all_digits ds ->
    match rest with
    | [] => True
    | c :: _ => is_digit c = false /\ c <> ord "_"
    end ->
    ds <> [] \/ prev <> ord "_" ->
    scan_digits (ds ++ rest) prev digits value
    = Some (digits + Z.of_nat (length ds),
            fold_left (fun acc c => 10 * acc + Z.of_N (c - 48)) ds value,
            rest).
Proof.
  induction ds as [|c ds IH]; intros prev digits value Hd Hrest Hp.
  - destruct Hp as [Hp|Hp]; [done|]. apply N.eqb_neq in Hp.
    cbn [app length fold_left]. rewrite Z.add_0_r.
    destruct rest as [|c r]; cbn [scan_digits]; [by rewrite Hp|].
    destruct Hrest as [Hc Hu]. apply N.eqb_neq in Hu.
    by rewrite Hc, Hu, Hp.
  - inversion Hd as [|? ? Hc Hds]; subst.
    cbn [app scan_digits fold_left length]. rewrite Hc.
    rewrite IH; [|done|done|].
    + do 3 f_equal. lia.
    + right. apply is_digit_range in Hc. intros ->.
      change (ord "_") with 95%N in Hc. lia.
Qed.

Lemma Py_ISSPACE_facts (c : N) :
  Py_ISSPACE c = true ->
  isascii_char c = true /\ is_digit c = false /\ c <> ord "_"
  /\ c <> ord "+" /\ c <> ord "-".
Proof.
  unfold Py_ISSPACE, isascii_char, is_digit.
  change (ord "_") with 95%N. change (ord "+") with 43%N.
  change (ord "-") with 45%N.
  rewrite orb_true_iff, andb_true_iff, N.eqb_eq, !N.leb_le, N.ltb_lt,
    andb_false_iff, N.leb_gt, N.leb_gt. lia.
Qed.

Lemma lstrip_spaces (ws s : str) :
  forallb Py_ISSPACE ws = true ->
  lstrip Py_ISSPACE (ws ++ s) = lstrip Py_ISSPACE s.
Proof.
  induction ws as [|c ws IH]; [done|]. cbn [forallb app lstrip].
  intros [-> H]%andb_prop. by apply IH.
Qed.

(** [int] accepts digits with ASCII white space around them and a sign in
    front of the first digit. *)
Theorem int_accepts_spaces_and_sign (ws1 sign ds ws2 : str) :
  forallb Py_ISSPACE ws1 = true -> forallb Py_ISSPACE ws2 = true ->
  sign = [] \/ sign = lit "+" \/ sign = lit "-" ->
  ds <> [] -> all_digits ds -> (length ds <= 640)%nat ->
  int (Some (ws1 ++ sign ++ ds ++ ws2))
  = Ok (if bool_decide (sign = lit "-") then - digits_value ds
        else digits_value ds).
Proof.
  intros H1 H2 Hsign Hne Hd Hlen.
  assert (isascii (ws1 ++ sign ++ ds ++ ws2) = true) as Ha.
  { unfold isascii. rewrite !forallb_app.
    fold (isascii ds). rewrite (isascii_digits ds Hd).
    assert (forall ws, forallb Py_ISSPACE ws = true ->
                       forallb isascii_char ws = true) as Hws.
    { intros ws Hw. apply forallb_forall. intros c Hc.
      apply (proj1 (forallb_forall _ _) Hw), Py_ISSPACE_facts in Hc.
      tauto. }
    rewrite (Hws _ H1), (Hws _ H2).
    by destruct Hsign as [->|[->| ->]]. }
  unfold int, _PyUnicode_TransformDecimalAndSpaceToASCII. rewrite Ha.
  unfold PyLong_FromString. rewrite lstrip_spaces by done.
  assert (exists c ds', ds = c :: ds' /\ is_digit c = true)
    as (c & ds' & Hds & Hc).
  { destruct ds as [|c ds']; [done|]. inversion Hd; subst. eauto. }
  assert (Py_ISSPACE c = false /\ N.eqb c (ord "+") = false
          /\ N.eqb c (ord "-") = false /\ c <> ord "_") as (C1 & C2 & C3 & C4).
  { apply is_digit_range in Hc. unfold Py_ISSPACE.
    change (ord "_") with 95%N. change (ord "+") with 43%N.
    change (ord "-") with 45%N.
    rewrite orb_false_iff, andb_false_iff, !N.eqb_neq, !N.leb_gt. lia. }
  assert (match ws2 with
          | [] => True
          | c :: _ => is_digit c = false /\ c <> ord "_"
          end) as Hrest.
  { destruct ws2 as [|w ws2]; [done|]. cbn [forallb] in H2.
    apply andb_prop in H2 as [Hw _]. apply Py_ISSPACE_facts in Hw. tauto. }
  assert (lstrip Py_ISSPACE ws2 = []) as Hstrip.
  { rewrite <- (app_nil_r ws2), lstrip_spaces by done. reflexivity. }
  assert (scan_digits (ds ++ ws2) 0%N 0 0
          = Some (Z.of_nat (length ds), digits_value ds, ws2)) as Hscan.
  { rewrite scan_digits_app by auto. reflexivity. }
  assert (bool_decide (head (ds ++ ws2) = Some (ord "_")) = false) as Hus.
  { apply bool_decide_eq_false. rewrite Hds. cbn [app head]. congruence. }
  assert ((_PY_LONG_MAX_STR_DIGITS_THRESHOLD <? Z.of_nat (length ds)) = false
          /\ (Z.of_nat (length ds) =? 0) = false) as [Hthr Hzero].
  { unfold _PY_LONG_MAX_STR_DIGITS_THRESHOLD. rewrite Z.ltb_ge, Z.eqb_neq.
    rewrite Hds. cbn [length]. rewrite Hds in Hlen. cbn [length] in Hlen.
    lia. }
  set (t := ds ++ ws2) in *.
  assert (exists t', t = c :: t') as [t' Ht] by (unfold t; rewrite Hds; eauto).
  clearbody t.
  destruct Hsign as [->|[->| ->]].
  - cbn [app]. rewrite Ht. cbn [lstrip]. rewrite C1, C2, C3.
    rewrite <- Ht, Hus, Hscan, Hthr, Hzero, Hstrip.
    cbn [andb truthy]. rewrite bool_decide_eq_false_2 by done.
    f_equal; lia.
  - change (lit "+" ++ t) with (ord "+" :: t).
    cbn [lstrip]. change (Py_ISSPACE (ord "+")) with false. cbn iota.
    rewrite N.eqb_refl, Hus, Hscan, Hthr, Hzero, Hstrip.
    cbn [andb truthy]. rewrite bool_decide_eq_false_2 by done.
    f_equal; lia.
  - change (lit "-" ++ t) with (ord "-" :: t).
    cbn [lstrip]. change (Py_ISSPACE (ord "-")) with false. cbn iota.
    change (N.eqb (ord "-") (ord "+")) with false. cbn iota.
    rewrite N.eqb_refl, Hus, Hscan, Hthr, Hzero, Hstrip.
    cbn [andb truthy]. rewrite bool_decide_eq_true_2 by done.
    f_equal; lia.
Qed.

(** ** strptime on strings in the fixed format *)

Lemma re_match_Group (g : ascii) (alts : list (list Atom)) (p' : list Node)
    (s : str) :
  re_match (Group g alts :: p') s = match_group g alts (re_match p') s.
Proof.
  induction alts as [|alt more IH]; [done|].
  cbn [match_group]. rewrite <- IH. reflexivity.
Qed.

Lemma is_digit_cases (c : N) :
  is_digit c = true ->
  (c = 48 \/ c = 49 \/ c = 50 \/ c = 51 \/ c = 52 \/ c = 53 \/ c = 54
   \/ c = 55 \/ c = 56 \/ c = 57)%N.
Proof. intros H%is_digit_range. lia. Qed.

Ltac digit_cases H :=
  apply is_digit_cases in H;
  destruct H as [->|[->|[->|[->|[->|[->|[->|[->|[->| ->]]]]]]]]].

Lemma atom_match_Digit (c : N) : is_digit c = true -> atom_match Digit c = true.
Proof. intros H. digit_cases H; reflexivity. Qed.

Lemma atom_match_Letter_digit (x : ascii) (c : N) :
  x = "T"%char \/ x = "Z"%char ->
  is_digit c = true -> atom_match (Letter (ord x)) c = false.
Proof. intros [-> | ->] H; digit_cases H; reflexivity. Qed.

Lemma re_match_Letter_digit (x : ascii) (p : list Node) (c : N) (s : str) :
  x = "T"%char \/ x = "Z"%char ->
  is_digit c = true -> re_match (One (Letter (ord x)) :: p) (c :: s) = None.
Proof.
  intros Hx Hc. cbn [re_match]. by rewrite atom_match_Letter_digit.
Qed.

(** A group whose alternatives take one or two characters fails when the
    rest of the pattern matches after neither. *)
Lemma match_group_fail (g : ascii) (alts : list (list Atom))
    (k : str -> option (list (ascii * str) * str)) (x y : N) (r : str) :
  Forall (fun alt => length alt = 1%nat \/ length alt = 2%nat) alts ->
  k (y :: r) = None -> k r = None ->
  match_group g alts k (x :: y :: r) = None.
Proof.
  intros Halts H1 H2. induction Halts as [|alt more Hlen _ IH]; [done|].
  cbn [match_group]. rewrite IH.
  destruct alt as [|a [|b [|? ?]]]; cbn in Hlen; try lia;
    cbn [match_atoms].
  - destruct (atom_match a x); [|done]. by rewrite H1.
  - destruct (atom_match a x); [|done].
    destruct (atom_match b y); [|done]. by rewrite H2.
Qed.

Local Abbreviation node_Y := (Group "Y" [[Digit; Digit; Digit; Digit]]).
Local Abbreviation node_m :=
  (Group "m" [[ch "1"; rg "0" "2"]; [ch "0"; rg "1" "9"]; [rg "1" "9"]]).
Local Abbreviation node_d :=
  (Group "d" [[ch "3"; rg "0" "1"]; [rg "1" "2"; Digit];
              [ch "0"; rg "1" "9"]; [rg "1" "9"]; [ch " "; rg "1" "9"]]).
Local Abbreviation node_H :=
  (Group "H" [[ch "2"; rg "0" "3"]; [rg "0" "1"; Digit]; [Digit]]).
Local Abbreviation node_M := (Group "M" [[rg "0" "5"; Digit]; [Digit]]).
Local Abbreviation node_S :=
  (Group "S" [[ch "6"; rg "0" "1"]; [rg "0" "5"; Digit]; [Digit]]).
Local Abbreviation node_T := (One (Letter (ord "T"))).
Local Abbreviation node_Z := (One (Letter (ord "Z"))).

Ltac group_step Ha Hb Hf :=
  digit_cases Ha; digit_cases Hb; vm_compute; rewrite ?Hf;
  match goal with
  | |- context [?k ?r] => is_var k; destruct (k r) as [[? ?]|]
  | _ => idtac
  end; reflexivity.

Section Groups.
Variable k : str -> option (list (ascii * str) * str).
Variables (a b : N) (r : str).
Hypothesis Ha : is_digit a = true.
Hypothesis Hb : is_digit b = true.
Hypothesis Hf : k (b :: r) = None.

(** A two-digit field followed by text on which the rest of the pattern
    cannot start one character early: the group takes both digits when they
    are in its range, and fails otherwise. *)
Lemma match_group_m :
  match_group "m" [[ch "1"; rg "0" "2"]; [ch "0"; rg "1" "9"]; [rg "1" "9"]]
    k (a :: b :: r)
  = if (1 <=? digits_value [a; b]) && (digits_value [a; b] <=? 12)
    then match k r with
         | Some (fd, fin) => Some (("m"%char, [a; b]) :: fd, fin)
         | None => None
         end
    else None.
Proof. revert Ha Hb Hf. intros Ha Hb Hf. group_step Ha Hb Hf. Qed.

Lemma match_group_d :
  match_group "d" [[ch "3"; rg "0" "1"]; [rg "1" "2"; Digit];
                   [ch "0"; rg "1" "9"]; [rg "1" "9"]; [ch " "; rg "1" "9"]]
    k (a :: b :: r)
  = if (1 <=? digits_value [a; b]) && (digits_value [a; b] <=? 31)
    then match k r with
         | Some (fd, fin) => Some (("d"%char, [a; b]) :: fd, fin)
         | None => None
         end
    else None.
Proof. revert Ha Hb Hf. intros Ha Hb Hf. group_step Ha Hb Hf. Qed.

Lemma match_group_H :
  match_group "H" [[ch "2"; rg "0" "3"]; [rg "0" "1"; Digit]; [Digit]]
    k (a :: b :: r)
  = if digits_value [a; b] <=? 23
    then match k r with
         | Some (fd, fin) => Some (("H"%char, [a; b]) :: fd, fin)
         | None => None
         end
    else None.
Proof. revert Ha Hb Hf. intros Ha Hb Hf. group_step Ha Hb Hf. Qed.

Lemma match_group_M :
  match_group "M" [[rg "0" "5"; Digit]; [Digit]] k (a :: b :: r)
  = if digits_value [a; b] <=? 59
    then match k r with
         | Some (fd, fin) => Some (("M"%char, [a; b]) :: fd, fin)
         | None => None
         end
    else None.
Proof. revert Ha Hb Hf. intros Ha Hb Hf. group_step Ha Hb Hf. Qed.

Lemma match_group_S :
  match_group "S" [[ch "6"; rg "0" "1"]; [rg "0" "5"; Digit]; [Digit]]
    k (a :: b :: r)
  = if digits_value [a; b] <=? 61
    then match k r with
         | Some (fd, fin) => Some (("S"%char, [a; b]) :: fd, fin)
         | None => None
         end
    else None.
Proof. revert Ha Hb Hf. intros Ha Hb Hf. group_step Ha Hb Hf. Qed.

End Groups.

Lemma match_group_Y (k : str -> option (list (ascii * str) * str))
    (a b c d : N) (r : str) :
  is_digit a = true -> is_digit b = true -> is_digit c = true ->
  is_digit d = true ->
  match_group "Y" [[Digit; Digit; Digit; Digit]] k (a :: b :: c :: d :: r)
  = match k r with
    | Some (fd, fin) => Some (("Y"%char, [a; b; c; d]) :: fd, fin)
    | None => None
    end.
Proof.
  intros Ha Hb Hc Hd. cbn [match_group match_atoms].
  rewrite !atom_match_Digit by done. by destruct (k r) as [[? ?]|].
Qed.

Lemma alternatives_short :
  Forall (fun alt : list Atom => length alt = 1%nat \/ length alt = 2%nat)
    [[ch "3"; rg "0" "1"]; [rg "1" "2"; Digit]; [ch "0"; rg "1" "9"];
     [rg "1" "9"]; [ch " "; rg "1" "9"]]
  /\ Forall (fun alt : list Atom => length alt = 1%nat \/ length alt = 2%nat)
       [[rg "0" "5"; Digit]; [Digit]]
  /\ Forall (fun alt : list Atom => length alt = 1%nat \/ length alt = 2%nat)
       [[ch "6"; rg "0" "1"]; [rg "0" "5"; Digit]; [Digit]].
Proof.
  repeat split;
    repeat (apply List.Forall_cons; [cbn; lia|]); apply List.Forall_nil.
Qed.

(** The match of the script's format against sixteen characters of the
    fixed shape: all six groups take their full width, or there is no
    match. *)
Lemma re_match_fixed_format
    (y1 y2 y3 y4 m1 m2 d1 d2 h1 h2 mi1 mi2 s1 s2 tc zc : N) :
  forallb is_digit [y1; y2; y3; y4; m1; m2; d1; d2; h1; h2; mi1; mi2; s1; s2]
    = true ->
  tc = ord "T" \/ tc = ord "t" -> zc = ord "Z" \/ zc = ord "z" ->
  re_match [node_Y; node_m; node_d; node_T; node_H; node_M; node_S; node_Z]
    [y1; y2; y3; y4; m1; m2; d1; d2; tc; h1; h2; mi1; mi2; s1; s2; zc]
  = if (1 <=? digits_value [m1; m2]) && (digits_value [m1; m2] <=? 12)
       && ((1 <=? digits_value [d1; d2]) && (digits_value [d1; d2] <=? 31))
       && (digits_value [h1; h2] <=? 23)
       && (digits_value [mi1; mi2] <=? 59)
       && (digits_value [s1; s2] <=? 61)
    then Some ([("Y"%char, [y1; y2; y3; y4]); ("m"%char, [m1; m2]);
                ("d"%char, [d1; d2]); ("H"%char, [h1; h2]);
                ("M"%char, [mi1; mi2]); ("S"%char, [s1; s2])], [])
    else None.
Proof.
  intros H Htc Hzc. cbn [forallb] in H. rewrite !andb_true_iff in H.
  destruct_and!.
  destruct alternatives_short as (Ad & AM & AS).
  assert (forall x y z r p,
            is_digit y = true -> is_digit z = true ->
            re_match (node_S :: node_Z :: p) (x :: y :: z :: r) = None)
    as FS.
  { intros x y z r p Hy Hz. rewrite re_match_Group.
    apply match_group_fail; [done| |];
      apply re_match_Letter_digit; auto. }
  assert (forall v w x y z r p,
            is_digit w = true -> is_digit x = true -> is_digit y = true ->
            is_digit z = true ->
            re_match (node_M :: node_S :: node_Z :: p)
              (v :: w :: x :: y :: z :: r) = None) as FM.
  { intros v w x y z r p Hw Hx Hy Hz. rewrite re_match_Group.
    apply match_group_fail; [done| |]; by apply FS. }
  assert (forall x y z r p,
            is_digit y = true -> is_digit z = true ->
            re_match (node_d :: node_T :: p) (x :: y :: z :: r) = None)
    as Fd.
  { intros x y z r p Hy Hz. rewrite re_match_Group.
    apply match_group_fail; [done| |];
      apply re_match_Letter_digit; auto. }
  rewrite re_match_Group, match_group_Y by done.
  rewrite re_match_Group, match_group_m by (try done; by apply Fd).
  destruct ((1 <=? digits_value [m1; m2]) && (digits_value [m1; m2] <=? 12));
    [|done]. cbn [andb].
  rewrite re_match_Group, match_group_d
    by (try done; apply re_match_Letter_digit; auto).
  destruct ((1 <=? digits_value [d1; d2]) && (digits_value [d1; d2] <=? 31));
    [|done]. cbn [andb].
  replace (re_match [node_T; node_H; node_M; node_S; node_Z]
             [tc; h1; h2; mi1; mi2; s1; s2; zc])
    with (re_match [node_H; node_M; node_S; node_Z]
            [h1; h2; mi1; mi2; s1; s2; zc])
    by (by destruct Htc as [-> | ->]).
  rewrite re_match_Group, match_group_H by (try done; by apply FM).
  destruct (digits_value [h1; h2] <=? 23); [|done]. cbn [andb].
  rewrite re_match_Group, match_group_M by (try done; by apply FS).
  destruct (digits_value [mi1; mi2] <=? 59); [|done]. cbn [andb].
  rewrite re_match_Group, match_group_S
    by (try done; apply re_match_Letter_digit; auto).
  destruct (digits_value [s1; s2] <=? 61); [|done].
  by destruct Hzc as [-> | ->].
Qed.

Lemma int_field (ds : str) :
  forallb is_digit ds = true -> (0 < length ds <= 4)%nat ->
  int (Some ds) = Ok (digits_value ds).
Proof.
  intros Hd Hlen. apply int_digits.
  - destruct ds; [cbn [length] in Hlen; lia|done].
  - apply List.Forall_forall. intros c Hc.
    by apply (proj1 (forallb_forall _ _) Hd).
  - lia.
Qed.

(** The two date checks of [_strptime] and the conversion to a [datetime]
    amount to the constructor. *)
Lemma checks_then_datetime_new (y m d h mi s : Z) :
  rbind (rbind (_check_date_fields y m d) (fun _ =>
         rbind (_check_date_fields y 1 1) (fun _ =>
         Ok (y, m, d, h, mi, s))))
    (fun '(year, month, day, hour, minute, second) =>
       datetime_new year month day hour minute second 0)
  = datetime_new y m d h mi s 0.
Proof.
  unfold datetime_new.
  destruct (_check_date_fields y m d) as [[[y' m'] d']|e] eqn:E;
    cbn [rbind]; [|done].
  assert (_check_date_fields y 1 1 = Ok (y, 1, 1)) as ->.
  { unfold _check_date_fields in *.
    destruct (negb ((MINYEAR <=? y) && (y <=? MAXYEAR))); [done|].
    reflexivity. }
  cbn [rbind]. unfold datetime_new. by rewrite E.
Qed.

(** On sixteen characters of the shape YYYYMMDD'T'HHMMSS'Z', the two
    letters in either case, with the
    format of the script, [strptime] reads each field at its fixed width.
    When month, day, hour, minute and second are within 01..12, 01..31,
    00..23, 00..59 and 00..61 the result is that of the [datetime]
    constructor on the six numbers, which rejects year 0, a day that the
    month does not have and seconds 60 and 61; otherwise the string does not
    match the format. *)
Lemma strptime_sixteen_any_case
    (y1 y2 y3 y4 m1 m2 d1 d2 h1 h2 mi1 mi2 s1 s2 tc zc : N) :
  forallb is_digit [y1; y2; y3; y4; m1; m2; d1; d2; h1; h2; mi1; mi2; s1; s2]
    = true ->
  tc = ord "T" \/ tc = ord "t" -> zc = ord "Z" \/ zc = ord "z" ->
  strptime (Some [y1; y2; y3; y4; m1; m2; d1; d2; tc; h1; h2; mi1; mi2;
                  s1; s2; zc]) "%Y%m%dT%H%M%SZ"
  = if (1 <=? digits_value [m1; m2]) && (digits_value [m1; m2] <=? 12)
       && ((1 <=? digits_value [d1; d2]) && (digits_value [d1; d2] <=? 31))
       && (digits_value [h1; h2] <=? 23)
       && (digits_value [mi1; mi2] <=? 59)
       && (digits_value [s1; s2] <=? 61)
    then datetime_new (digits_value [y1; y2; y3; y4]) (digits_value [m1; m2])
           (digits_value [d1; d2]) (digits_value [h1; h2])
           (digits_value [mi1; mi2]) (digits_value [s1; s2]) 0
    else Raise (ValueError
                  (TimeDataMismatch
                     [y1; y2; y3; y4; m1; m2; d1; d2; tc; h1; h2; mi1; mi2;
                      s1; s2; zc])).
Proof.
  intros H Ht Hz. unfold strptime, _strptime.
  change (pattern (list_ascii_of_string "%Y%m%dT%H%M%SZ"))
    with (Some [node_Y; node_m; node_d; node_T; node_H; node_M; node_S;
                node_Z]).
  cbv beta iota.
  rewrite (re_match_fixed_format _ _ _ _ _ _ _ _ _ _ _ _ _ _ _ _ H Ht Hz).
  destruct ((1 <=? digits_value [m1; m2]) && (digits_value [m1; m2] <=? 12)
            && ((1 <=? digits_value [d1; d2])
                && (digits_value [d1; d2] <=? 31))
            && (digits_value [h1; h2] <=? 23)
            && (digits_value [mi1; mi2] <=? 59)
            && (digits_value [s1; s2] <=? 61)); [|done].
  cbn [truthy].
  cbn [forallb] in H. rewrite !andb_true_iff in H. destruct_and!.
  unfold found_step. cbn [fold_left rbind].
  rewrite (int_field [y1; y2; y3; y4]), (int_field [m1; m2]),
    (int_field [d1; d2]), (int_field [h1; h2]), (int_field [mi1; mi2]),
    (int_field [s1; s2]);
    try (cbn [length]; lia);
    try (cbn [forallb]; rewrite !andb_true_iff; by repeat split).
  cbn [rbind].
  cbn [f_year f_month f_day f_hour f_minute f_second].
  apply checks_then_datetime_new.
Qed.

Lemma strptime_sixteen
    (y1 y2 y3 y4 m1 m2 d1 d2 h1 h2 mi1 mi2 s1 s2 : N) :
  forallb is_digit [y1; y2; y3; y4; m1; m2; d1; d2; h1; h2; mi1; mi2; s1; s2]
    = true ->
  strptime (Some [y1; y2; y3; y4; m1; m2; d1; d2; ord "T"; h1; h2; mi1; mi2;
                  s1; s2; ord "Z"]) "%Y%m%dT%H%M%SZ"
  = if (1 <=? digits_value [m1; m2]) && (digits_value [m1; m2] <=? 12)
       && ((1 <=? digits_value [d1; d2]) && (digits_value [d1; d2] <=? 31))
       && (digits_value [h1; h2] <=? 23)
       && (digits_value [mi1; mi2] <=? 59)
       && (digits_value [s1; s2] <=? 61)
    then datetime_new (digits_value [y1; y2; y3; y4]) (digits_value [m1; m2])
           (digits_value [d1; d2]) (digits_value [h1; h2])
           (digits_value [mi1; mi2]) (digits_value [s1; s2]) 0
    else Raise (ValueError
                  (TimeDataMismatch
                     [y1; y2; y3; y4; m1; m2; d1; d2; ord "T"; h1; h2; mi1;
                      mi2; s1; s2; ord "Z"])).
Proof. intros H. apply strptime_sixteen_any_case; auto. Qed.

(** [strptime] matches the letters T and Z of the format without regard
    to case: with [t] or [z] in their place the same [datetime] is
    returned, and a string that is rejected is still rejected. *)
Theorem strptime_ignores_letter_case
    (y1 y2 y3 y4 m1 m2 d1 d2 h1 h2 mi1 mi2 s1 s2 tc zc : N) (dt : datetime) :
  forallb is_digit [y1; y2; y3; y4; m1; m2; d1; d2; h1; h2; mi1; mi2; s1; s2]
    = true ->
  tc = ord "T" \/ tc = ord "t" -> zc = ord "Z" \/ zc = ord "z" ->
  strptime (Some [y1; y2; y3; y4; m1; m2; d1; d2; tc; h1; h2; mi1; mi2;
                  s1; s2; zc]) "%Y%m%dT%H%M%SZ" = Ok dt
  <-> strptime (Some [y1; y2; y3; y4; m1; m2; d1; d2; ord "T"; h1; h2; mi1;
                      mi2; s1; s2; ord "Z"]) "%Y%m%dT%H%M%SZ" = Ok dt.
Proof.
  intros H Ht Hz.
  rewrite (strptime_sixteen_any_case _ _ _ _ _ _ _ _ _ _ _ _ _ _ _ _ H Ht Hz),
    (strptime_sixteen _ _ _ _ _ _ _ _ _ _ _ _ _ _ H).
  by destruct ((1 <=? digits_value [m1; m2])
               && (digits_value [m1; m2] <=? 12)
               && ((1 <=? digits_value [d1; d2])
                   && (digits_value [d1; d2] <=? 31))
               && (digits_value [h1; h2] <=? 23)
               && (digits_value [mi1; mi2] <=? 59)
               && (digits_value [s1; s2] <=? 61)).
Qed.

Lemma fmt_d_two_digits (a b : N) :
  is_digit a = true -> is_digit b = true ->
  fmt_d 2 (digits_value [a; b]) = [a; b].
Proof. intros Ha Hb. digit_cases Ha; digit_cases Hb; reflexivity. Qed.

Lemma is_digit_In (c : N) :
  is_digit c = true -> In c [48; 49; 50; 51; 52; 53; 54; 55; 56; 57]%N.
Proof. intros H. digit_cases H; cbn; auto 12. Qed.

Lemma fmt_d_four_digits (a b c d : N) :
  is_digit a = true -> is_digit b = true -> is_digit c = true ->
  is_digit d = true ->
  fmt_d 4 (digits_value [a; b; c; d]) = [a; b; c; d].
Proof.
  intros Ha%is_digit_In Hb%is_digit_In Hc%is_digit_In Hd%is_digit_In.
  set (ds := [48; 49; 50; 51; 52; 53; 54; 55; 56; 57]%N) in *.
  assert (forallb (fun a => forallb (fun b => forallb (fun c =>
            forallb (fun d =>
              bool_decide (fmt_d 4 (digits_value [a; b; c; d])
                           = [a; b; c; d])) ds) ds) ds) ds = true) as Hall
    by (vm_compute; reflexivity).
  pose proof (proj1 (forallb_forall _ _) Hall a Ha) as H1. cbv beta in H1.
  pose proof (proj1 (forallb_forall _ _) H1 b Hb) as H2. cbv beta in H2.
  pose proof (proj1 (forallb_forall _ _) H2 c Hc) as H3. cbv beta in H3.
  pose proof (proj1 (forallb_forall _ _) H3 d Hd) as H4. cbv beta in H4.
  by apply bool_decide_eq_true in H4.
Qed.

Lemma spec_fixed_format_inv (s : str) :
  spec_fixed_format s = true ->
  exists y1 y2 y3 y4 m1 m2 d1 d2 h1 h2 mi1 mi2 s1 s2,
    s = [y1; y2; y3; y4; m1; m2; d1; d2; ord "T"; h1; h2; mi1; mi2; s1; s2;
         ord "Z"]
    /\ forallb is_digit
         [y1; y2; y3; y4; m1; m2; d1; d2; h1; h2; mi1; mi2; s1; s2] = true.
Proof.
  intros H.
  do 16 (destruct s as [|? s]; [discriminate H|]).
  destruct s; [|discriminate H].
  unfold spec_fixed_format in H.
  apply andb_prop in H as [H Hz]. apply andb_prop in H as [H Ht].
  apply N.eqb_eq in Hz, Ht. subst. eauto 20.
Qed.

(** On a string of the shape YYYYMMDD'T'HHMMSS'Z', with the format of the
    script, [strptime] reads each field at its fixed position.  When month,
    day, hour, minute and second are within 01..12, 01..31, 00..23, 00..59
    and 00..61 the result is that of the [datetime] constructor on the six
    numbers, which in turn rejects year 0, a day that the month does not
    have and the seconds 60 and 61; otherwise the string does not match the
    format. *)
Theorem strptime_fixed_format (s : str) :
  spec_fixed_format s = true ->
  strptime (Some s) "%Y%m%dT%H%M%SZ"
  = if (1 <=? field 4 2 s) && (field 4 2 s <=? 12)
       && ((1 <=? field 6 2 s) && (field 6 2 s <=? 31))
       && (field 9 2 s <=? 23) && (field 11 2 s <=? 59)
       && (field 13 2 s <=? 61)
    then datetime_new (field 0 4 s) (field 4 2 s) (field 6 2 s)
           (field 9 2 s) (field 11 2 s) (field 13 2 s) 0
    else Raise (ValueError (TimeDataMismatch s)).
Proof.
  intros H.
  destruct (spec_fixed_format_inv s H)
    as (y1 & y2 & y3 & y4 & m1 & m2 & d1 & d2 & h1 & h2 & mi1 & mi2 & s1
        & s2 & -> & Hd).
  unfold field. cbn [take drop]. by apply strptime_sixteen.
Qed.

(** The text of a [datetime] read from sixteen characters of the fixed
    shape shows the same digits. *)
Lemma datetime_str_sixteen
    (y1 y2 y3 y4 m1 m2 d1 d2 h1 h2 mi1 mi2 s1 s2 : N) (dt : datetime) :
  forallb is_digit [y1; y2; y3; y4; m1; m2; d1; d2; h1; h2; mi1; mi2; s1; s2]
    = true ->
  strptime (Some [y1; y2; y3; y4; m1; m2; d1; d2; ord "T"; h1; h2; mi1; mi2;
                  s1; s2; ord "Z"]) "%Y%m%dT%H%M%SZ" = Ok dt ->
  datetime_str dt
  = [y1; y2; y3; y4; ord "-"; m1; m2; ord "-"; d1; d2; ord " "; h1; h2;
     ord ":"; mi1; mi2; ord ":"; s1; s2].
Proof.
  intros H Hs. rewrite (strptime_sixteen _ _ _ _ _ _ _ _ _ _ _ _ _ _ H) in Hs.
  match type of Hs with (if ?c then _ else _) = _ => destruct c end;
    [|discriminate Hs].
  apply datetime_new_Ok in Hs as [-> _].
  cbn [forallb] in H. rewrite !andb_true_iff in H. destruct_and!.
  unfold datetime_str, isoformat, _format_time.
  cbn [year month day hour minute second microsecond Z.eqb negb].
  rewrite fmt_d_four_digits, !fmt_d_two_digits by done. reflexivity.
Qed.

(** When the value of [X-Amz-Date] has the shape YYYYMMDD'T'HHMMSS'Z' and
    the run succeeds, the first line of the report shows the signing time
    with the digits of the value, regrouped as YYYY-MM-DD HH:MM:SS. *)
Theorem report_echoes_signing_time
    (clock : nat -> datetime) (prog url : str) (parsed : ParseResult)
    (s : str) :
  urlparse url = Ok parsed ->
  first_value (query parsed) (lit "X-Amz-Date") = Some s ->
  spec_fixed_format s = true ->
  exit_status (run clock [prog; url]) = 0 ->
  output (run clock [prog; url]) !! 0%nat
  = Some (lit "URL generated at: "
          ++ take 4 s ++ lit "-" ++ take 2 (drop 4 s) ++ lit "-"
          ++ take 2 (drop 6 s) ++ lit " " ++ take 2 (drop 9 s) ++ lit ":"
          ++ take 2 (drop 11 s) ++ lit ":" ++ take 2 (drop 13 s)
          ++ lit " UTC").
Proof.
  intros Hu Hv Hf Hexit.
  destruct (run_success_inv _ _ Hexit)
    as (prog' & url' & parsed' & dt & n & expiry_time & Hargv & Hu' & Hnot
        & Hp & Hx).
  injection Hargv as <- <-. rewrite Hu in Hu'. injection Hu' as <-.
  rewrite (run_report _ _ _ _ _ _ _ Hu Hnot Hp Hx).
  cbn [output lookup list_lookup]. do 2 f_equal.
  apply parse_values_Ok in Hp as (Hs & _ & _). rewrite Hv in Hs.
  destruct (spec_fixed_format_inv s Hf)
    as (y1 & y2 & y3 & y4 & m1 & m2 & d1 & d2 & h1 & h2 & mi1 & mi2 & s1
        & s2 & -> & Hd).
  rewrite (datetime_str_sixteen _ _ _ _ _ _ _ _ _ _ _ _ _ _ _ Hd Hs).
  reflexivity.
Qed.

(** ** The components of an http(s) URL *)

Lemma free_of_contains (cs : list N) (s : str) (c : N) :
  free_of cs s = true -> In c cs -> contains c s = false.
Proof.
  unfold free_of. rewrite forallb_forall. intros H Hc.
  apply negb_true_iff. by apply H.
Qed.

Lemma contains_app (c : N) (a b : str) :
  contains c (a ++ b) = contains c a || contains c b.
Proof. apply existsb_app. Qed.

Lemma contains_cons (c x : N) (s : str) :
  contains c (x :: s) = N.eqb c x || contains c s.
Proof. reflexivity. Qed.

Lemma replace_absent (a : N) (b s : str) :
  contains a s = false -> replace a b s = s.
Proof.
  unfold replace. induction s as [|c s IH]; [done|].
  rewrite contains_cons. intros [H1 H2]%orb_false_iff.
  cbn [flat_map]. rewrite N.eqb_sym, H1, IH by done. reflexivity.
Qed.

Lemma find_at_app (c : N) (a t : str) (i : Z) :
  contains c a = false ->
  find_at c (a ++ t) i = find_at c t (i + Z.of_nat (length a)).
Proof.
  revert i. induction a as [|x a IH]; intros i.
  - intros _. cbn. f_equal. lia.
  - rewrite contains_cons. intros [H1 H2]%orb_false_iff.
    cbn [app find_at length]. rewrite N.eqb_sym, H1, IH by done.
    f_equal. lia.
Qed.

Lemma find_at_lower (c : N) (t : str) (i : Z) :
  find_at c t i = -1 \/ i <= find_at c t i.
Proof.
  revert i. induction t as [|x t IH]; intros i; cbn [find_at]; [by left|].
  destruct (N.eqb x c); [right; lia|].
  destruct (IH (i + 1)) as [->|H]; [by left|right; lia].
Qed.

Lemma split1_app (c : N) (a b : str) :
  contains c a = false -> split1 c (a ++ c :: b) = [a; b].
Proof.
  induction a as [|x a IH]; cbn [app split1].
  - by rewrite N.eqb_refl.
  - rewrite contains_cons. intros [H1 H2]%orb_false_iff.
    by rewrite N.eqb_sym, H1, IH.
Qed.

(** The network location ends at the first of [/], [?] and [#]. *)
Lemma _splitnetloc_spec (host t : str) (c : N) (t' : str) :
  contains (ord "/") host = false -> contains (ord "?") host = false ->
  contains (ord "#") host = false ->
  t = c :: t' -> In c [ord "/"; ord "?"; ord "#"] ->
  _splitnetloc (lit "//" ++ host ++ t) 2 = (host, t).
Proof.
  intros H1 H2 H3 Ht Hc. unfold _splitnetloc, find. cbn [fold_left].
  change (drop 2 (lit "//" ++ host ++ t)) with (host ++ t).
  rewrite !find_at_app by done. change (Z.of_nat 2) with 2.
  set (n := Z.of_nat (length host)).
  assert (length (lit "//" ++ host ++ t) = (2 + length host + length t)%nat)
    as Hlen by (rewrite !length_app; reflexivity).
  assert (Z.of_nat (length t) >= 1) as Hlt by (subst t; cbn [length]; lia).
  rewrite Hlen.
  pose proof (find_at_lower (ord "/") t (2 + n)) as L1.
  pose proof (find_at_lower (ord "?") t (2 + n)) as L2.
  pose proof (find_at_lower (ord "#") t (2 + n)) as L3.
  assert (find_at (ord "/") t (2 + n) = 2 + n
          \/ find_at (ord "?") t (2 + n) = 2 + n
          \/ find_at (ord "#") t (2 + n) = 2 + n) as Hhit.
  { subst t. cbn [find_at].
    destruct Hc as [<-|[<-|[<-|[]]]]; rewrite N.eqb_refl; auto. }
  set (w1 := find_at (ord "/") t (2 + n)) in *.
  set (w2 := find_at (ord "?") t (2 + n)) in *.
  set (w3 := find_at (ord "#") t (2 + n)) in *.
  match goal with
  | |- (drop 2 (take (Z.to_nat ?d) _), _) = _ =>
      assert (d = 2 + n) as ->
  end.
  { repeat match goal with
           | |- context [Z.leb ?a ?b] => destruct (Z.leb_spec a b)
           end; lia. }
  replace (Z.to_nat (2 + n)) with (length (lit "//" ++ host))
    by (rewrite length_app; cbn [length lit]; unfold n; cbn; lia).
  rewrite (app_assoc (lit "//") host t).
  rewrite take_app_length, drop_app_length. reflexivity.
Qed.

Lemma urlsplit_http (sch host path q tail : str) :
  sch = lit "http" \/ sch = lit "https" ->
  isascii host = true -> free_of netloc_delimiters host = true ->
  (path = [] \/ head path = Some (ord "/")) ->
  free_of [9; 10; 13; ord "?"; ord "#"]%N path = true ->
  free_of [9; 10; 13; ord "#"]%N q = true ->
  (tail = [] \/ head tail = Some (ord "#")) ->
  free_of [9; 10; 13]%N tail = true ->
  urlsplit (sch ++ lit "://" ++ host ++ path ++ lit "?" ++ q ++ tail)
  = Ok (sch, host, path, q, drop 1 tail).
Proof.
  intros Hsch Hascii Hhost Hpath Hpathc Hq Htail Htailc.
  set (t := path ++ lit "?" ++ q ++ tail).
  assert (forall c, In c [9; 10; 13]%N -> contains c (host ++ t) = false)
    as Hclean.
  { intros c Hc. unfold t. rewrite !contains_app.
    rewrite (free_of_contains _ _ c Hhost),
      (free_of_contains _ _ c Hpathc), (free_of_contains _ _ c Hq),
      (free_of_contains _ _ c Htailc);
      try (cbn [In netloc_delimiters] in *; tauto).
    cbn [In] in Hc. destruct Hc as [<-|[<-|[<-|[]]]]; reflexivity. }
  assert (exists c t', t = c :: t' /\ In c [ord "/"; ord "?"; ord "#"])
    as (c & t' & Ht & Hc).
  { unfold t. destruct Hpath as [->|Hp].
    - exists (ord "?"), (q ++ tail). split; [reflexivity|cbn; auto].
    - destruct path as [|c p]; [discriminate Hp|].
      assert (c = ord "/") as -> by (cbn [head] in Hp; congruence).
      eexists _, _. split; [reflexivity|cbn; auto]. }
  assert (contains (ord "#") path = false /\ contains (ord "?") path = false
          /\ contains (ord "#") q = false) as (Hp1 & Hp2 & Hq1).
  { repeat split; eapply free_of_contains; try eassumption; cbn; auto 6. }
  assert (contains (ord "/") host = false /\ contains (ord "?") host = false
          /\ contains (ord "#") host = false
          /\ contains (ord "[") host = false
          /\ contains (ord "]") host = false) as (N1 & N2 & N3 & N4 & N5).
  { repeat split; eapply free_of_contains; try eassumption;
      cbn; auto 10. }
  assert (_checknetloc host = Ok tt) as Hck.
  { unfold _checknetloc. by rewrite Hascii, orb_true_r. }
  assert ((if contains (ord "#") t
           then match split1 (ord "#") t with
                | [u; f] => (u, f)
                | _ => (t, [])
                end
           else (t, []))
          = (path ++ lit "?" ++ q, drop 1 tail)) as Hfrag.
  { unfold t. destruct Htail as [->|Hh].
    - rewrite !app_nil_r, !contains_app, Hp1, Hq1. reflexivity.
    - destruct tail as [|x frag]; [discriminate Hh|].
      assert (x = ord "#") as -> by (cbn [head] in Hh; congruence).
      rewrite !contains_app, contains_cons, N.eqb_refl, !orb_true_r.
      rewrite !app_assoc.
      rewrite split1_app; [reflexivity|].
      rewrite !contains_app, Hp1, Hq1. reflexivity. }
  assert (split1 (ord "?") (path ++ lit "?" ++ q) = [path; q]) as Hquery
    by (by apply split1_app).
  assert (contains (ord "?") (path ++ lit "?" ++ q) = true) as Hhas
    by (change (lit "?" ++ q) with (ord "?" :: q);
        rewrite contains_app, contains_cons, N.eqb_refl; cbn [orb];
        apply orb_true_r).
  assert (forall sch0 i,
            sch0 = lit "http" /\ i = 4 \/ sch0 = lit "https" /\ i = 5 ->
            urlsplit (sch0 ++ lit "://" ++ host ++ t)
            = Ok (sch0, host, path, q, drop 1 tail)) as Hboth.
  { intros sch0 i Hi. unfold urlsplit.
    set (url := sch0 ++ lit "://" ++ host ++ t).
    assert (fold_left (fun u b => replace b [] u) _UNSAFE_URL_BYTES_TO_REMOVE
              (lstrip _WHATWG_C0_CONTROL_OR_SPACE url) = url) as ->.
    { replace (lstrip _WHATWG_C0_CONTROL_OR_SPACE url) with url
        by (by destruct Hi as [[-> _]|[-> _]]).
      unfold _UNSAFE_URL_BYTES_TO_REMOVE. cbn [fold_left].
      rewrite (replace_absent 9 [] url), (replace_absent 13 [] url),
        (replace_absent 10 [] url); try reflexivity; unfold url;
        rewrite (contains_app _ sch0), (contains_app _ (lit "://")),
          Hclean by (cbn; auto);
        by destruct Hi as [[-> _]|[-> _]]. }
    replace (find (ord ":") url 0) with i
      by (by destruct Hi as [[-> ->]|[-> ->]]).
    match goal with
    | |- context [if ?c && ?d && ?e then _ else _] =>
        replace (c && d && e) with true
          by (by destruct Hi as [[-> ->]|[-> ->]])
    end.
    replace (take (Z.to_nat i) url) with sch0
      by (by destruct Hi as [[-> ->]|[-> ->]]).
    replace (drop (Z.to_nat i + 1) url) with (lit "//" ++ host ++ t)
      by (by destruct Hi as [[-> ->]|[-> ->]]).
    replace (map lower_char sch0) with sch0
      by (by destruct Hi as [[-> ->]|[-> ->]]).
    cbv beta iota zeta.
    change (str_eqb (take 2 (lit "//" ++ host ++ t)) (lit "//")) with true.
    cbv beta iota.
    rewrite (_splitnetloc_spec host t c t') by done.
    rewrite N4, N5. cbn [andb orb negb rbind]. rewrite Hck. cbn [rbind].
    rewrite Hfrag, Hhas, Hquery. reflexivity. }
  destruct Hsch as [-> | ->]; [apply (Hboth _ 4)|apply (Hboth _ 5)]; auto.
Qed.

Section HttpUrl.
Variables sch host pth q tail : str.
Hypothesis Hsch : sch = lit "http" \/ sch = lit "https".
Hypothesis Hascii : isascii host = true.
Hypothesis Hhost : free_of netloc_delimiters host = true.
Hypothesis Hpath : pth = [] \/ head pth = Some (ord "/").
Hypothesis Hpathc : free_of [9; 10; 13; ord "?"; ord "#"]%N pth = true.
Hypothesis Hq : free_of [9; 10; 13; ord "#"]%N q = true.
Hypothesis Htail : tail = [] \/ head tail = Some (ord "#").
Hypothesis Htailc : free_of [9; 10; 13]%N tail = true.

Lemma urlparse_http_query :
  exists parsed,
    urlparse (sch ++ lit "://" ++ host ++ pth ++ lit "?" ++ q ++ tail)
      = Ok parsed
    /\ query parsed = q.
Proof.
  unfold urlparse. rewrite urlsplit_http by done. cbn [rbind].
  destruct (existsb (str_eqb sch) uses_params && contains (ord ";") pth);
    [destruct (_splitparams pth)|]; eauto.
Qed.

(** [urlparse] on an http or https URL with a query string: the scheme,
    the network location up to the first [/] or [?], the query between the
    first [?] and the first [#], and the fragment after it.  The path is
    kept whole unless it holds a semicolon. *)
Theorem urlparse_components :
  exists parsed,
    urlparse (sch ++ lit "://" ++ host ++ pth ++ lit "?" ++ q ++ tail)
      = Ok parsed
    /\ scheme parsed = sch /\ netloc parsed = host /\ query parsed = q
    /\ fragment parsed = drop 1 tail
    /\ (contains (ord ";") pth = false ->
        path parsed = pth /\ params parsed = []).
Proof.
  unfold urlparse. rewrite urlsplit_http by done. cbn [rbind].
  destruct (contains (ord ";") pth) eqn:Hsemi.
  - rewrite andb_true_r.
    destruct (existsb (str_eqb sch) uses_params);
      [destruct (_splitparams pth)|]; eexists; repeat split; done.
  - rewrite andb_false_r. eexists; repeat split; done.
Qed.

End HttpUrl.

(** A fragment at the end of the URL has no effect on the run. *)
Theorem fragment_is_ignored
    (clock : nat -> datetime) (prog sch host pth q frag : str) :
  sch = lit "http" \/ sch = lit "https" ->
  isascii host = true -> free_of netloc_delimiters host = true ->
  (pth = [] \/ head pth = Some (ord "/")) ->
  free_of [9; 10; 13; ord "?"; ord "#"]%N pth = true ->
  free_of [9; 10; 13; ord "#"]%N q = true ->
  free_of [9; 10; 13]%N frag = true ->
  run clock [prog; sch ++ lit "://" ++ host ++ pth ++ lit "?" ++ q
                     ++ lit "#" ++ frag]
  = run clock [prog; sch ++ lit "://" ++ host ++ pth ++ lit "?" ++ q].
Proof.
  intros Hsch Hascii Hhost Hpath Hpathc Hq Hfrag.
  destruct (urlparse_http_query sch host pth q (lit "#" ++ frag))
    as (p1 & Hu1 & Hq1); try done; [by right|].
  destruct (urlparse_http_query sch host pth q [])
    as (p2 & Hu2 & Hq2); try done; [by left|].
  rewrite app_nil_r in Hu2.
  apply (run_determined clock _ _ _ _ _ Hu1 Hu2); by rewrite Hq1, Hq2.
Qed.

Lemma _days_in_month_le_31 (y m : Z) :
  1 <= m <= 12 -> _days_in_month y m <= 31.
Proof.
  intros Hm. unfold _days_in_month.
  assert (m = 1 \/ m = 2 \/ m = 3 \/ m = 4 \/ m = 5 \/ m = 6 \/ m = 7
          \/ m = 8 \/ m = 9 \/ m = 10 \/ m = 11 \/ m = 12) as E by lia.
  repeat destruct E as [E|E]; subst m; destruct (_is_leap y);
    vm_compute; discriminate.
Qed.

(** The values of a well-formed pre-signed URL parse to the [datetime] of
    the sixteen characters and the number of the digits. *)
Lemma parse_values_fixed_format (d e : str) :
  spec_fixed_format d = true ->
  valid_datetime
    {| year := field 0 4 d; month := field 4 2 d; day := field 6 2 d;
       hour := field 9 2 d; minute := field 11 2 d; second := field 13 2 d;
       microsecond := 0 |} ->
  e <> [] -> all_digits e -> (length e <= 640)%nat ->
  parse_values (Some d) (Some e)
  = Ok ({| year := field 0 4 d; month := field 4 2 d; day := field 6 2 d;
           hour := field 9 2 d; minute := field 11 2 d;
           second := field 13 2 d; microsecond := 0 |}, digits_value e).
Proof.
  intros Hf Hv He1 He2 He3.
  destruct (spec_fixed_format_inv d Hf)
    as (y1 & y2 & y3 & y4 & m1 & m2 & d1 & d2 & h1 & h2 & mi1 & mi2 & s1
        & s2 & -> & Hd).
  unfold parse_values.
  rewrite (strptime_sixteen _ _ _ _ _ _ _ _ _ _ _ _ _ _ Hd).
  unfold field in *. cbn [take drop] in *.
  pose proof Hv as Hb. apply valid_datetime_bounds in Hb.
  cbn [year month day hour minute second microsecond] in Hb.
  pose proof (_days_in_month_le_31 (digits_value [y1; y2; y3; y4])
                (digits_value [m1; m2]) ltac:(lia)) as H31.
  replace ((1 <=? digits_value [m1; m2]) && (digits_value [m1; m2] <=? 12)
           && ((1 <=? digits_value [d1; d2])
               && (digits_value [d1; d2] <=? 31))
           && (digits_value [h1; h2] <=? 23)
           && (digits_value [mi1; mi2] <=? 59)
           && (digits_value [s1; s2] <=? 61)) with true.
  2: { symmetry. rewrite !andb_true_iff, !Z.leb_le. lia. }
  unfold valid_datetime in Hv.
  cbn [year month day hour minute second microsecond] in Hv.
  rewrite Hv. cbn [rbind]. by rewrite int_digits.
Qed.

(** The whole run on a well-formed pre-signed URL: an http or https URL
    whose query string gives [X-Amz-Date] sixteen characters
    YYYYMMDD'T'HHMMSS'Z' that denote an existing date and time, and
    [X-Amz-Expires] a string of digits, with a representable expiry
    instant.  The report shows the signing time with the digits of the
    URL, the expiry instant that many seconds later, the clock reading and
    the verdict of their comparison, and the exit status is 0. *)
Theorem report_for_presigned_url
    (clock : nat -> datetime) (prog sch host pth q tail d e : str) :
  sch = lit "http" \/ sch = lit "https" ->
  isascii host = true -> free_of netloc_delimiters host = true ->
  (pth = [] \/ head pth = Some (ord "/")) ->
  free_of [9; 10; 13; ord "?"; ord "#"]%N pth = true ->
  free_of [9; 10; 13; ord "#"]%N q = true ->
  (tail = [] \/ head tail = Some (ord "#")) ->
  free_of [9; 10; 13]%N tail = true ->
  first_value q (lit "X-Amz-Date") = Some d ->
  first_value q (lit "X-Amz-Expires") = Some e ->
  spec_fixed_format d = true ->
  valid_datetime
    {| year := field 0 4 d; month := field 4 2 d; day := field 6 2 d;
       hour := field 9 2 d; minute := field 11 2 d; second := field 13 2 d;
       microsecond := 0 |} ->
  e <> [] -> all_digits e -> (length e <= 640)%nat ->
  representable
    (microseconds_since_origin
       {| year := field 0 4 d; month := field 4 2 d; day := field 6 2 d;
          hour := field 9 2 d; minute := field 11 2 d;
          second := field 13 2 d; microsecond := 0 |}
     + digits_value e * 1000000) ->
  exists expiry_time : datetime,
    valid_datetime expiry_time
    /\ microseconds_since_origin expiry_time
       = microseconds_since_origin
           {| year := field 0 4 d; month := field 4 2 d; day := field 6 2 d;
              hour := field 9 2 d; minute := field 11 2 d;
              second := field 13 2 d; microsecond := 0 |}
         + digits_value e * 1000000
    /\ run clock [prog; sch ++ lit "://" ++ host ++ pth ++ lit "?" ++ q
                          ++ tail]
       = {| output :=
              [lit "URL generated at: "
                 ++ take 4 d ++ lit "-" ++ take 2 (drop 4 d) ++ lit "-"
                 ++ take 2 (drop 6 d) ++ lit " " ++ take 2 (drop 9 d)
                 ++ lit ":" ++ take 2 (drop 11 d) ++ lit ":"
                 ++ take 2 (drop 13 d) ++ lit " UTC";
               lit "Expires at:      " ++ datetime_str expiry_time
                 ++ lit " UTC";
               lit "Current time:    " ++ datetime_str (clock 0%nat)
                 ++ lit " UTC";
               if datetime_lt (clock 0%nat) expiry_time
               then lit "The pre-signed URL is still valid."
               else lit "The pre-signed URL has expired."];
            exit_status := 0; traceback := None; clock_read_count := 1 |}.
Proof.
  intros Hsch Hascii Hhost Hpath Hpathc Hq Htail Htailc Hd He Hf Hv He1 He2
    He3 Hr.
  destruct (urlparse_http_query sch host pth q tail)
    as (parsed & Hu & Hquery); try done.
  pose proof (parse_values_fixed_format d e Hf Hv He1 He2 He3) as Hp.
  rewrite <- Hd, <- He, <- Hquery in Hp.
  destruct (run_representable clock prog _ _ _ _ Hu Hp Hr)
    as (expiry_time & _ & _ & Hve & Hte & Hrun).
  exists expiry_time. split; [done|]. split; [done|].
  rewrite Hrun.
  rewrite Hquery, Hd in Hp. apply parse_values_Ok in Hp as (Hs & _ & _).
  destruct (spec_fixed_format_inv d Hf)
    as (y1 & y2 & y3 & y4 & m1 & m2 & d1 & d2 & h1 & h2 & mi1 & mi2 & s1
        & s2 & -> & Hdig).
  unfold field in *. cbn [take drop] in *.
  rewrite (datetime_str_sixteen _ _ _ _ _ _ _ _ _ _ _ _ _ _ _ Hdig Hs).
  reflexivity.
Qed.

(** ** The width of the printed timestamps *)

Lemma fmt_d_width (w bound : nat) (n : Z) :
  forallb (fun k => Nat.eqb (length (fmt_d w (Z.of_nat k))) w) (seq 0 bound)
    = true ->
  0 <= n < Z.of_nat bound -> length (fmt_d w n) = w.
Proof.
  intros Hall Hn.
  pose proof (proj1 (forallb_forall _ _) Hall (Z.to_nat n)) as H.
  cbv beta in H. rewrite Z2Nat.id in H by lia.
  apply Nat.eqb_eq, H, in_seq. lia.
Qed.

Lemma fmt_d_2_width (n : Z) : 0 <= n <= 99 -> length (fmt_d 2 n) = 2%nat.
Proof.
  intros Hn. apply (fmt_d_width 2 100); [vm_compute; reflexivity|lia].
Qed.

Lemma fmt_d_4_width (n : Z) : 0 <= n <= 9999 -> length (fmt_d 4 n) = 4%nat.
Proof.
  intros Hn. apply (fmt_d_width 4 (100 * 100)); [vm_compute; reflexivity|lia].
Qed.

(** [str] of a valid [datetime] with no microseconds is nineteen
    characters long: YYYY-MM-DD HH:MM:SS. *)
Lemma datetime_str_width (d : datetime) :
  valid_datetime d -> microsecond d = 0 ->
  length (datetime_str d) = 19%nat.
Proof.
  intros Hv Hus. apply valid_datetime_bounds in Hv.
  unfold datetime_str, isoformat, _format_time. rewrite Hus.
  pose proof (_days_in_month_le_31 (year d) (month d) ltac:(lia)).
  cbn [Z.eqb negb]. rewrite !length_app, fmt_d_4_width, !fmt_d_2_width by lia.
  reflexivity.
Qed.

(** On a successful run the signing time and the expiry instant are
    printed to the second, in nineteen characters each, after labels of
    equal width; the clock reading is printed the same way when it has no
    microseconds. *)
Theorem report_timestamps_have_fixed_width
    (clock : nat -> datetime) (argv : list str) :
  exit_status (run clock argv) = 0 ->
  exists generated expires current verdict : str,
    output (run clock argv)
    = [lit "URL generated at: " ++ generated ++ lit " UTC";
       lit "Expires at:      " ++ expires ++ lit " UTC";
       lit "Current time:    " ++ current ++ lit " UTC";
       verdict]
    /\ length generated = 19%nat /\ length expires = 19%nat
    /\ (valid_datetime (clock 0%nat) -> microsecond (clock 0%nat) = 0 ->
        length current = 19%nat).
Proof.
  intros Hexit.
  destruct (run_success_inv _ _ Hexit)
    as (prog & url & parsed & dt & n & e & -> & Hu & Hnot & Hp & Hx).
  rewrite (run_report _ _ _ _ _ _ _ Hu Hnot Hp Hx). cbn [output].
  eexists _, _, _, _. split; [reflexivity|].
  apply parse_values_Ok in Hp as (Hs & _ & _).
  apply strptime_valid in Hs as [Hv Hus].
  destruct (expiry_of_spec dt n Hv) as [Hok Hbad].
  destruct (representable_dec (microseconds_since_origin dt + n * 1000000))
    as [Hr|Hr]; [|rewrite (Hbad Hr) in Hx; discriminate Hx].
  destruct (Hok Hr) as (e' & He' & Hve & Hte).
  rewrite Hx in He'. injection He' as <-.
  assert (microsecond e = 0) as Hue.
  { pose proof Hve as Hb. apply valid_datetime_bounds in Hb.
    unfold microseconds_since_origin in Hte. rewrite Hus in Hte. lia. }
  split; [by apply datetime_str_width|].
  split; [by apply datetime_str_width|].
  apply datetime_str_width.
Qed.

End Properties.

(** * Examples

    The theorems at concrete inputs, and the inputs on which the
    specification's wording fails.  The interpreter tables are those of
    [sample_runtime]. *)

Section Examples.
#[local] Existing Instance sample_runtime.

Ltac compute_prop :=
  vm_compute;
  repeat match goal with |- _ /\ _ => split end;
  first [reflexivity | discriminate | (intro; discriminate)].

Lemma C8_witness :
  run sample_clock [prog_name] =
  {| output := [lit "Usage: python check_presigned_url_expiry.py <presigned_url>"];
     exit_status := 1; traceback := None; clock_read_count := 0 |}.
Proof.
  apply (C8_usage_on_wrong_argument_count sample_clock prog_name []).
  left. reflexivity.
Defined.

Lemma C3_witness :
  run sample_clock [prog_name; url_no_date] =
  {| output := [lit "Could not find X-Amz-Date or X-Amz-Expires in the URL."];
     exit_status := 1; traceback := None; clock_read_count := 0 |}.
Proof.
  eapply C3_missing_parameter_diagnostic.
  - vm_compute. reflexivity.
  - left. vm_compute. reflexivity.
Defined.

(** C3 as worded fails on a URL whose host opens a square bracket and does
    not close it: its query string lacks X-Amz-Date, yet [urlparse] raises
    [ValueError] ("Invalid IPv6 URL") before the parameters are looked up;
    the script does not catch it and the run ends in a traceback, without
    the diagnostic. *)
Lemma C3_counterexample_unclosed_bracket :
  ~ (forall q : str,
       url_unclosed_bracket = lit "https://[x.example.com/obj?" ++ q ->
       parse_qs q !! lit "X-Amz-Date" = None
       \/ parse_qs q !! lit "X-Amz-Expires" = None ->
       run sample_clock [prog_name; url_unclosed_bracket] =
       {| output :=
            [lit "Could not find X-Amz-Date or X-Amz-Expires in the URL."];
          exit_status := 1; traceback := None; clock_read_count := 0 |}).
Proof.
  intros H.
  assert (run sample_clock [prog_name; url_unclosed_bracket] =
          {| output :=
               [lit "Could not find X-Amz-Date or X-Amz-Expires in the URL."];
             exit_status := 1; traceback := None; clock_read_count := 0 |})
    as Hrun.
  { apply (H (lit "X-Amz-Expires=3600")); [reflexivity|].
    left. vm_compute. reflexivity. }
  vm_compute in Hrun. discriminate Hrun.
Qed.


Lemma C10_witness :
  parse_qs (lit "X-Amz-Date=20200101T000000Z&X-Amz-Expires=")
    !! lit "X-Amz-Expires" = None
  /\ run sample_clock [prog_name; url_empty_expires] =
     {| output := [lit "Could not find X-Amz-Date or X-Amz-Expires in the URL."];
        exit_status := 1; traceback := None; clock_read_count := 0 |}.
Proof.
  apply (C10_empty_value_is_absent sample_clock prog_name url_empty_expires
           (lit "X-Amz-Expires")
           {| scheme := lit "https"; netloc := lit "x.example.com";
              path := lit "/obj"; params := [];
              query := lit "X-Amz-Date=20200101T000000Z&X-Amz-Expires=";
              fragment := [] |}).
  - vm_compute. reflexivity.
  - right. reflexivity.
  - exists (lit "X-Amz-Expires="). split.
    + apply list_elem_of_In. vm_compute. right. left. reflexivity.
    + exists (lit "X-Amz-Expires"). split; [vm_compute; reflexivity|].
      left. vm_compute. reflexivity.
  - intros field n v Hin Hs Hd. apply list_elem_of_In in Hin.
    vm_compute in Hin. destruct Hin as [<- | [<- | []]];
      vm_compute in Hs; injection Hs as <- <-.
    + vm_compute in Hd. discriminate Hd.
    + reflexivity.
Defined.

(** C10 as worded fails on a URL that ends in [X-Amz-Expires=] after an
    occurrence with a value: the parameter is present with an empty value,
    yet the earlier value is used and the run ends with the report and
    status 0. *)
Lemma C10_counterexample_value_then_blank :
  ~ (forall (parsed : ParseResult),
       urlparse url_3600_then_blank = Ok parsed ->
       (exists field, field ∈ split (ord "&") (query parsed)
                      /\ empty_field (lit "X-Amz-Expires") field) ->
       run sample_clock [prog_name; url_3600_then_blank] =
       {| output :=
            [lit "Could not find X-Amz-Date or X-Amz-Expires in the URL."];
          exit_status := 1; traceback := None; clock_read_count := 0 |}).
Proof.
  intros H.
  assert (run sample_clock [prog_name; url_3600_then_blank] =
          {| output :=
               [lit "Could not find X-Amz-Date or X-Amz-Expires in the URL."];
             exit_status := 1; traceback := None; clock_read_count := 0 |})
    as Hrun.
  { eapply H; [vm_compute; reflexivity|].
    exists (lit "X-Amz-Expires="). split.
    - apply list_elem_of_In. vm_compute. tauto.
    - exists (lit "X-Amz-Expires"). split; [vm_compute; reflexivity|].
      left. vm_compute. reflexivity. }
  vm_compute in Hrun. discriminate Hrun.
Qed.

(** At a clock reading of 02:00:00.000001, one hour after the URL of
    Scenario A expired. *)
Lemma C1_witness :
  (lit "The pre-signed URL is still valid."
     ∈ output (run sample_clock [prog_name; url_scenario])
   <-> microseconds_since_origin (sample_clock 0%nat)
       < microseconds_since_origin
           {| year := 2020; month := 1; day := 1; hour := 0; minute := 0;
              second := 0; microsecond := 0 |} + 3600 * 1000000)
  /\ (lit "The pre-signed URL has expired."
        ∈ output (run sample_clock [prog_name; url_scenario])
      <-> microseconds_since_origin
            {| year := 2020; month := 1; day := 1; hour := 0; minute := 0;
               second := 0; microsecond := 0 |} + 3600 * 1000000
          <= microseconds_since_origin (sample_clock 0%nat))
  /\ exit_status (run sample_clock [prog_name; url_scenario]) = 0.
Proof.
  eapply (C1_valid_or_expired sample_clock prog_name url_scenario).
  - vm_compute. reflexivity.
  - vm_compute. reflexivity.
  - compute_prop.
  - vm_compute. reflexivity.
Defined.

(** C1 as worded fails on a well-formed URL whose X-Amz-Expires is
    99999999999999999: both values parse, the addition raises
    [OverflowError], neither verdict is printed and the exit status is 1. *)
Lemma C1_counterexample_huge_expires :
  ~ (forall (parsed : ParseResult) (dt : datetime) (n : Z),
       urlparse url_huge_expires = Ok parsed ->
       parse_values (first_value (query parsed) (lit "X-Amz-Date"))
                    (first_value (query parsed) (lit "X-Amz-Expires"))
         = Ok (dt, n) ->
       valid_datetime (sample_clock 0%nat) ->
       (lit "The pre-signed URL is still valid."
          ∈ output (run sample_clock [prog_name; url_huge_expires])
        <-> microseconds_since_origin (sample_clock 0%nat)
            < microseconds_since_origin dt + n * 1000000)
       /\ (lit "The pre-signed URL has expired."
             ∈ output (run sample_clock [prog_name; url_huge_expires])
           <-> microseconds_since_origin dt + n * 1000000
               <= microseconds_since_origin (sample_clock 0%nat))
       /\ exit_status (run sample_clock [prog_name; url_huge_expires]) = 0).
Proof.
  intros H.
  edestruct H as (_ & _ & Hexit);
    [vm_compute; reflexivity | vm_compute; reflexivity
     | vm_compute; reflexivity |].
  vm_compute in Hexit. discriminate Hexit.
Qed.

Lemma C2_witness :
  exists expiry_time : datetime,
    output (run sample_clock [prog_name; url_scenario]) !! 1%nat
      = Some (lit "Expires at:      " ++ datetime_str expiry_time
              ++ lit " UTC")
    /\ valid_datetime expiry_time
    /\ seconds_since_origin expiry_time
       = seconds_since_origin
           {| year := 2020; month := 1; day := 1; hour := 0; minute := 0;
              second := 0; microsecond := 0 |} + 3600
    /\ microsecond expiry_time = 0.
Proof.
  eapply (C2_expiry_is_linear_sum sample_clock prog_name url_scenario).
  - vm_compute. reflexivity.
  - vm_compute. reflexivity.
  - compute_prop.
Defined.

(** C2 as worded fails on X-Amz-Date=99991231T235959Z with
    X-Amz-Expires=1: both values parse, and no expiry instant is
    reported. *)
Lemma C2_counterexample_last_second :
  ~ (forall (parsed : ParseResult) (dt : datetime) (n : Z),
       urlparse url_last_second = Ok parsed ->
       parse_values (first_value (query parsed) (lit "X-Amz-Date"))
                    (first_value (query parsed) (lit "X-Amz-Expires"))
         = Ok (dt, n) ->
       exists expiry_time : datetime,
         output (run sample_clock [prog_name; url_last_second]) !! 1%nat
           = Some (lit "Expires at:      " ++ datetime_str expiry_time
                   ++ lit " UTC")
         /\ valid_datetime expiry_time
         /\ seconds_since_origin expiry_time = seconds_since_origin dt + n).
Proof.
  intros H.
  edestruct H as (e & Hout & _);
    [vm_compute; reflexivity | vm_compute; reflexivity |].
  vm_compute in Hout. discriminate Hout.
Qed.

Lemma C7_witness :
  exit_status (run sample_clock [prog_name; url_negative_expires]) = 0
  /\ traceback (run sample_clock [prog_name; url_negative_expires]) = None
  /\ (exists expiry_time : datetime,
        output (run sample_clock [prog_name; url_negative_expires]) !! 1%nat
          = Some (lit "Expires at:      " ++ datetime_str expiry_time
                  ++ lit " UTC")
        /\ microseconds_since_origin expiry_time
           < microseconds_since_origin
               {| year := 2020; month := 1; day := 1; hour := 0;
                  minute := 0; second := 0; microsecond := 0 |})
  /\ (microseconds_since_origin
        {| year := 2020; month := 1; day := 1; hour := 0; minute := 0;
           second := 0; microsecond := 0 |}
      <= microseconds_since_origin (sample_clock 0%nat)
      -> output (run sample_clock [prog_name; url_negative_expires]) !! 3%nat
         = Some (lit "The pre-signed URL has expired.")).
Proof.
  eapply (C7_negative_expires_accepted sample_clock prog_name
            url_negative_expires).
  - vm_compute. reflexivity.
  - vm_compute. reflexivity.
  - reflexivity.
  - compute_prop.
  - vm_compute. reflexivity.
Defined.

(** C7 as worded fails on X-Amz-Date=00010101T000000Z with
    X-Amz-Expires=-1: the value parses as a negative integer, the
    subtraction raises [OverflowError] and the exit status is 1. *)
Lemma C7_counterexample_first_second :
  ~ (forall (parsed : ParseResult) (dt : datetime) (n : Z),
       urlparse url_first_second = Ok parsed ->
       parse_values (first_value (query parsed) (lit "X-Amz-Date"))
                    (first_value (query parsed) (lit "X-Amz-Expires"))
         = Ok (dt, n) ->
       n < 0 ->
       exit_status (run sample_clock [prog_name; url_first_second]) = 0
       /\ traceback (run sample_clock [prog_name; url_first_second]) = None).
Proof.
  intros H.
  edestruct H as (Hexit & _);
    [vm_compute; reflexivity | vm_compute; reflexivity | reflexivity |].
  vm_compute in Hexit. discriminate Hexit.
Qed.

(** Scenario D of the specification. *)
Lemma C4_witness :
  isinstance_Exception (ValueError (TimeDataMismatch (lit "bad-date"))) = true
  /\ exit_status (run sample_clock [prog_name; url_bad_date]) = 1
  /\ clock_read_count (run sample_clock [prog_name; url_bad_date]) = 0%nat
  /\ (stdout_accepts
        (lit "Error parsing date or expires: "
           ++ exception_str (ValueError (TimeDataMismatch (lit "bad-date"))))
      = true ->
      run sample_clock [prog_name; url_bad_date] =
      {| output := [lit "Error parsing date or expires: "
                      ++ exception_str
                           (ValueError (TimeDataMismatch (lit "bad-date")))];
         exit_status := 1; traceback := None; clock_read_count := 0 |})
  /\ (stdout_accepts
        (lit "Error parsing date or expires: "
           ++ exception_str (ValueError (TimeDataMismatch (lit "bad-date"))))
      = false ->
      run sample_clock [prog_name; url_bad_date] =
      {| output := []; exit_status := 1;
         traceback :=
           Some (UnicodeEncodeError
                   (lit "Error parsing date or expires: "
                      ++ exception_str
                           (ValueError (TimeDataMismatch (lit "bad-date")))));
         clock_read_count := 0 |}).
Proof.
  eapply (C4_parse_failure_diagnostic sample_clock prog_name url_bad_date
            _ (lit "bad-date") (lit "3600")).
  - vm_compute. reflexivity.
  - vm_compute. reflexivity.
  - vm_compute. reflexivity.
  - discriminate.
  - discriminate.
  - left. vm_compute. reflexivity.
Defined.

(** C4 as worded fails on X-Amz-Date=20200101t000000z: the value does not
    match the fixed format, whose letters are capital, yet [strptime]
    accepts it and the run ends with a report and status 0. *)
Lemma C4_counterexample_lowercase :
  ~ (forall (parsed : ParseResult) (amz_date : str),
       urlparse url_lowercase_tz = Ok parsed ->
       first_value (query parsed) (lit "X-Amz-Date") = Some amz_date ->
       spec_fixed_format amz_date = false ->
       exit_status (run sample_clock [prog_name; url_lowercase_tz]) = 1).
Proof.
  intros H.
  assert (exit_status (run sample_clock [prog_name; url_lowercase_tz]) = 1)
    as Hexit.
  { eapply H; [vm_compute; reflexivity | vm_compute; reflexivity
               | vm_compute; reflexivity]. }
  vm_compute in Hexit. discriminate Hexit.
Qed.

Lemma C5_witness :
  exists parsed : ParseResult,
    urlparse (lit "not a url") = Ok parsed
    /\ (query parsed = []
        \/ parse_qs (query parsed) !! lit "X-Amz-Date" = None
        \/ parse_qs (query parsed) !! lit "X-Amz-Expires" = None ->
        run sample_clock [prog_name; lit "not a url"] =
        {| output :=
             [lit "Could not find X-Amz-Date or X-Amz-Expires in the URL."];
           exit_status := 1; traceback := None; clock_read_count := 0 |}).
Proof.
  apply (C5_plain_url_never_a_url_error sample_clock prog_name
           (lit "not a url")).
  unfold plain. repeat (constructor; [reflexivity|]). constructor.
Defined.

(** C5 as worded fails on the URL [http://[]: decomposition raises
    [ValueError] ("Invalid IPv6 URL"), which the script does not catch; the
    run ends in a traceback, without the missing-parameter diagnostic. *)
Lemma C5_counterexample_open_bracket :
  ~ (exists parsed : ParseResult, urlparse url_open_bracket = Ok parsed)
  /\ run sample_clock [prog_name; url_open_bracket] =
     {| output := []; exit_status := 1;
        traceback := Some (ValueError InvalidIPv6URL);
        clock_read_count := 0 |}.
Proof.
  split.
  - intros [parsed H]. vm_compute in H. discriminate H.
  - vm_compute. reflexivity.
Qed.

Lemma C6_witness :
  exists amz_date expires : str,
    first_valued_occurrence
      (lit "X-Amz-Date=20200101T000000Z&X-Amz-Expires=3600&X-Amz-Expires=7200")
      (lit "X-Amz-Date") amz_date
    /\ first_valued_occurrence
         (lit "X-Amz-Date=20200101T000000Z&X-Amz-Expires=3600&X-Amz-Expires=7200")
         (lit "X-Amz-Expires") expires
    /\ params_get
         (parse_qs (lit "X-Amz-Date=20200101T000000Z&X-Amz-Expires=3600&X-Amz-Expires=7200"))
         (lit "X-Amz-Date") !! 0%nat
       = Some (Some (decode amz_date))
    /\ params_get
         (parse_qs (lit "X-Amz-Date=20200101T000000Z&X-Amz-Expires=3600&X-Amz-Expires=7200"))
         (lit "X-Amz-Expires") !! 0%nat
       = Some (Some (decode expires))
    /\ forall (url' : str) (parsed' : ParseResult) (amz_date' expires' : str),
         urlparse url' = Ok parsed' ->
         first_valued_occurrence (query parsed') (lit "X-Amz-Date")
           amz_date' ->
         first_valued_occurrence (query parsed') (lit "X-Amz-Expires")
           expires' ->
         decode amz_date' = decode amz_date ->
         decode expires' = decode expires ->
         run sample_clock [prog_name; url']
         = run sample_clock [prog_name; url_repeated_3600_7200].
Proof.
  apply (C6_first_valued_occurrence_wins sample_clock prog_name
           url_repeated_3600_7200
           {| scheme := lit "https"; netloc := lit "x.example.com";
              path := lit "/obj"; params := [];
              query := lit "X-Amz-Date=20200101T000000Z&X-Amz-Expires=3600&X-Amz-Expires=7200";
              fragment := [] |}).
  - vm_compute. reflexivity.
  - exists (lit "X-Amz-Date=20200101T000000Z"), (lit "X-Amz-Date"),
      (lit "20200101T000000Z").
    split; [apply list_elem_of_In; vm_compute; tauto|].
    split; [vm_compute; reflexivity|].
    split; [discriminate|vm_compute; reflexivity].
  - exists (lit "X-Amz-Expires=7200"), (lit "X-Amz-Expires"), (lit "7200").
    split; [apply list_elem_of_In; vm_compute; tauto|].
    split; [vm_compute; reflexivity|].
    split; [discriminate|vm_compute; reflexivity].
Defined.

(** C6 as worded fails when the first occurrence has an empty value: the
    two URLs agree on the first occurrence of each name and differ only in
    the second occurrence of X-Amz-Expires, which decides the expiry
    instant. *)
Lemma C6_counterexample_blank_first :
  output (run sample_clock [prog_name; url_blank_then_3600]) !! 1%nat
    = Some (lit "Expires at:      2020-01-01 01:00:00 UTC")
  /\ output (run sample_clock [prog_name; url_blank_then_7200]) !! 1%nat
     = Some (lit "Expires at:      2020-01-01 02:00:00 UTC")
  /\ run sample_clock [prog_name; url_blank_then_3600]
     <> run sample_clock [prog_name; url_blank_then_7200].
Proof.
  split; [vm_compute; reflexivity|]. split; [vm_compute; reflexivity|].
  intros H. vm_compute in H. discriminate H.
Qed.

(** On a standard output that encodes ASCII only, a value of X-Amz-Date
    with an accented letter after the date is rejected by [strptime] with a
    text that holds the letter; the [print] of the handler raises and the
    run ends in a traceback with nothing printed. *)
Lemma diagnostic_not_encodable :
  @run ascii_stdout_runtime sample_clock [prog_name; url_accented_date] =
  {| output := []; exit_status := 1;
     traceback :=
       Some (UnicodeEncodeError
               (lit "Error parsing date or expires: unconverted data remains: "
                  ++ [233%N]));
     clock_read_count := 0 |}.
Proof. vm_compute. reflexivity. Qed.

(** ** The further properties at concrete inputs *)

Lemma clock_not_read_on_failure_witness :
  exit_status (run sample_clock [prog_name; url_bad_date]) = 1
  /\ clock_read_count (run sample_clock [prog_name; url_bad_date]) = 0%nat.
Proof.
  apply (clock_not_read_on_failure sample_clock [prog_name; url_bad_date]).
  vm_compute. discriminate.
Defined.

Lemma uncaught_exceptions_witness :
  (exists prog url cause,
     [prog_name; url_open_bracket] = [prog; url]
     /\ urlparse url = Raise (ValueError cause)
     /\ ValueError InvalidIPv6URL = ValueError cause)
  \/ ValueError InvalidIPv6URL = OverflowError
  \/ (exists caught,
        isinstance_Exception caught = true
        /\ stdout_accepts (lit "Error parsing date or expires: "
                             ++ exception_str caught) = false
        /\ ValueError InvalidIPv6URL
           = UnicodeEncodeError
               (lit "Error parsing date or expires: "
                  ++ exception_str caught)).
Proof.
  apply (uncaught_exceptions sample_clock [prog_name; url_open_bracket]).
  vm_compute. reflexivity.
Defined.

Lemma overflow_exactly_out_of_range_witness :
  (traceback (run sample_clock [prog_name; url_huge_expires])
     = Some OverflowError
   <-> ~ representable
         (microseconds_since_origin
            {| year := 2020; month := 1; day := 1; hour := 0; minute := 0;
               second := 0; microsecond := 0 |}
          + 99999999999999999 * 1000000))
  /\ (traceback (run sample_clock [prog_name; url_huge_expires])
        = Some OverflowError ->
      output (run sample_clock [prog_name; url_huge_expires]) = []).
Proof.
  eapply (overflow_exactly_out_of_range sample_clock prog_name
            url_huge_expires).
  - vm_compute. reflexivity.
  - vm_compute. reflexivity.
Defined.

Lemma expiry_of_zero_witness :
  expiry_of {| year := 2020; month := 2; day := 29; hour := 23; minute := 59;
               second := 59; microsecond := 0 |} 0
  = Ok {| year := 2020; month := 2; day := 29; hour := 23; minute := 59;
          second := 59; microsecond := 0 |}.
Proof.
  apply (expiry_of_zero
           {| year := 2020; month := 2; day := 29; hour := 23; minute := 59;
              second := 59; microsecond := 0 |}).
  vm_compute. reflexivity.
Defined.

Lemma expiry_of_add_witness :
  expiry_of {| year := 2020; month := 2; day := 29; hour := 23; minute := 59;
               second := 59; microsecond := 0 |} (3600 + (-86400))
  = rbind (expiry_of {| year := 2020; month := 2; day := 29; hour := 23;
                        minute := 59; second := 59; microsecond := 0 |} 3600)
          (fun e => expiry_of e (-86400)).
Proof.
  apply (expiry_of_add
           {| year := 2020; month := 2; day := 29; hour := 23; minute := 59;
              second := 59; microsecond := 0 |} 3600 (-86400)).
  - vm_compute. reflexivity.
  - compute_prop.
Defined.

Lemma _ord2ymd_ymd2ord_witness :
  _ord2ymd (_ymd2ord 2020 2 29) = (2020, 2, 29).
Proof.
  apply (_ord2ymd_ymd2ord 2020 2 29).
  - lia.
  - compute_prop.
Defined.

(** At 02:00:00.000001 a URL signed at midnight for three hours is valid,
    and so is one signed for a day. *)
Lemma longer_validity_keeps_valid_witness :
  output (run sample_clock [prog_name; url_one_day]) !! 3%nat
  = Some (lit "The pre-signed URL is still valid.").
Proof.
  eapply (longer_validity_keeps_valid sample_clock prog_name
            url_three_hours url_one_day).
  - vm_compute. reflexivity.
  - vm_compute. reflexivity.
  - vm_compute. reflexivity.
  - vm_compute. reflexivity.
  - compute_prop.
  - compute_prop.
  - vm_compute. reflexivity.
  - lia.
  - vm_compute. reflexivity.
Defined.

Lemma expired_stays_expired_witness :
  output (run later_clock [prog_name; url_scenario]) !! 3%nat
  = Some (lit "The pre-signed URL has expired.").
Proof.
  eapply (expired_stays_expired sample_clock later_clock prog_name
            url_scenario).
  - vm_compute. reflexivity.
  - vm_compute. reflexivity.
  - compute_prop.
  - vm_compute. reflexivity.
  - vm_compute. reflexivity.
  - vm_compute. discriminate.
  - vm_compute. reflexivity.
Defined.

Lemma unrelated_parameters_ignored_witness :
  run sample_clock [prog_name; url_with_algorithm]
  = run sample_clock [prog_name; url_scenario].
Proof.
  eapply (unrelated_parameters_ignored sample_clock prog_name
            url_with_algorithm url_scenario _ _
            (lit "X-Amz-Date=20200101T000000Z")
            (lit "X-Amz-Algorithm=AWS4-HMAC-SHA256")
            (lit "X-Amz-Expires=3600")).
  - vm_compute. reflexivity.
  - vm_compute. reflexivity.
  - vm_compute. reflexivity.
  - vm_compute. reflexivity.
  - intros field n v Hin Hs. apply list_elem_of_In in Hin.
    vm_compute in Hin. destruct Hin as [<- | []].
    vm_compute in Hs. injection Hs as <- <-.
    split; vm_compute; discriminate.
Defined.

Lemma parameter_order_irrelevant_witness :
  run sample_clock [prog_name; url_scenario]
  = run sample_clock [prog_name; url_expires_first].
Proof.
  eapply (parameter_order_irrelevant sample_clock prog_name
            url_scenario url_expires_first _ _
            (lit "X-Amz-Date=20200101T000000Z")
            (lit "X-Amz-Expires=3600")).
  - vm_compute. reflexivity.
  - vm_compute. reflexivity.
  - vm_compute. reflexivity.
  - vm_compute. reflexivity.
  - right. vm_compute. reflexivity.
  - left. vm_compute. reflexivity.
Defined.

Lemma int_accepts_spaces_and_sign_witness :
  int (Some (lit " " ++ lit "-" ++ lit "3600" ++ lit " "))
  = Ok (if bool_decide (lit "-" = lit "-") then - digits_value (lit "3600")
        else digits_value (lit "3600")).
Proof.
  apply (int_accepts_spaces_and_sign (lit " ") (lit "-") (lit "3600")
           (lit " ")).
  - vm_compute. reflexivity.
  - vm_compute. reflexivity.
  - right. right. reflexivity.
  - discriminate.
  - repeat constructor.
  - cbn. lia.
Defined.

Lemma strptime_fixed_format_witness :
  strptime (Some (lit "20200229T235959Z")) "%Y%m%dT%H%M%SZ"
  = if (1 <=? field 4 2 (lit "20200229T235959Z"))
       && (field 4 2 (lit "20200229T235959Z") <=? 12)
       && ((1 <=? field 6 2 (lit "20200229T235959Z"))
           && (field 6 2 (lit "20200229T235959Z") <=? 31))
       && (field 9 2 (lit "20200229T235959Z") <=? 23)
       && (field 11 2 (lit "20200229T235959Z") <=? 59)
       && (field 13 2 (lit "20200229T235959Z") <=? 61)
    then datetime_new (field 0 4 (lit "20200229T235959Z"))
           (field 4 2 (lit "20200229T235959Z"))
           (field 6 2 (lit "20200229T235959Z"))
           (field 9 2 (lit "20200229T235959Z"))
           (field 11 2 (lit "20200229T235959Z"))
           (field 13 2 (lit "20200229T235959Z")) 0
    else Raise (ValueError (TimeDataMismatch (lit "20200229T235959Z"))).
Proof.
  apply (strptime_fixed_format (lit "20200229T235959Z")).
  vm_compute. reflexivity.
Defined.

Lemma report_echoes_signing_time_witness :
  output (run sample_clock [prog_name; url_scenario]) !! 0%nat
  = Some (lit "URL generated at: "
          ++ take 4 (lit "20200101T000000Z") ++ lit "-"
          ++ take 2 (drop 4 (lit "20200101T000000Z")) ++ lit "-"
          ++ take 2 (drop 6 (lit "20200101T000000Z")) ++ lit " "
          ++ take 2 (drop 9 (lit "20200101T000000Z")) ++ lit ":"
          ++ take 2 (drop 11 (lit "20200101T000000Z")) ++ lit ":"
          ++ take 2 (drop 13 (lit "20200101T000000Z")) ++ lit " UTC").
Proof.
  eapply (report_echoes_signing_time sample_clock prog_name url_scenario).
  - vm_compute. reflexivity.
  - vm_compute. reflexivity.
  - vm_compute. reflexivity.
  - vm_compute. reflexivity.
Defined.

Lemma urlparse_components_witness :
  exists parsed,
    urlparse (lit "https" ++ lit "://" ++ s3_host ++ s3_path ++ lit "?"
                ++ s3_query ++ lit "#top")
      = Ok parsed
    /\ scheme parsed = lit "https" /\ netloc parsed = s3_host
    /\ query parsed = s3_query
    /\ fragment parsed = drop 1 (lit "#top")
    /\ (contains (ord ";") s3_path = false ->
        path parsed = s3_path /\ params parsed = []).
Proof.
  apply (urlparse_components (lit "https") s3_host s3_path s3_query
           (lit "#top")).
  - right. reflexivity.
  - vm_compute. reflexivity.
  - vm_compute. reflexivity.
  - right. reflexivity.
  - vm_compute. reflexivity.
  - vm_compute. reflexivity.
  - right. reflexivity.
  - vm_compute. reflexivity.
Defined.

Lemma fragment_is_ignored_witness :
  run sample_clock [prog_name; lit "https" ++ lit "://" ++ s3_host ++ s3_path
                                 ++ lit "?" ++ s3_query ++ lit "#"
                                 ++ lit "top"]
  = run sample_clock [prog_name; lit "https" ++ lit "://" ++ s3_host
                                   ++ s3_path ++ lit "?" ++ s3_query].
Proof.
  apply (fragment_is_ignored sample_clock prog_name (lit "https") s3_host
           s3_path s3_query (lit "top")).
  - right. reflexivity.
  - vm_compute. reflexivity.
  - vm_compute. reflexivity.
  - right. reflexivity.
  - vm_compute. reflexivity.
  - vm_compute. reflexivity.
  - vm_compute. reflexivity.
Defined.

Lemma report_for_presigned_url_witness :
  exists expiry_time : datetime,
    valid_datetime expiry_time
    /\ microseconds_since_origin expiry_time
       = microseconds_since_origin
           {| year := field 0 4 (lit "20200101T000000Z");
              month := field 4 2 (lit "20200101T000000Z");
              day := field 6 2 (lit "20200101T000000Z");
              hour := field 9 2 (lit "20200101T000000Z");
              minute := field 11 2 (lit "20200101T000000Z");
              second := field 13 2 (lit "20200101T000000Z");
              microsecond := 0 |}
         + digits_value (lit "3600") * 1000000
    /\ run sample_clock
         [prog_name; lit "https" ++ lit "://" ++ s3_host ++ s3_path
                       ++ lit "?" ++ s3_query ++ []]
       = {| output :=
              [lit "URL generated at: "
                 ++ take 4 (lit "20200101T000000Z") ++ lit "-"
                 ++ take 2 (drop 4 (lit "20200101T000000Z")) ++ lit "-"
                 ++ take 2 (drop 6 (lit "20200101T000000Z")) ++ lit " "
                 ++ take 2 (drop 9 (lit "20200101T000000Z")) ++ lit ":"
                 ++ take 2 (drop 11 (lit "20200101T000000Z")) ++ lit ":"
                 ++ take 2 (drop 13 (lit "20200101T000000Z")) ++ lit " UTC";
               lit "Expires at:      " ++ datetime_str expiry_time
                 ++ lit " UTC";
               lit "Current time:    " ++ datetime_str (sample_clock 0%nat)
                 ++ lit " UTC";
               if datetime_lt (sample_clock 0%nat) expiry_time
               then lit "The pre-signed URL is still valid."
               else lit "The pre-signed URL has expired."];
            exit_status := 0; traceback := None; clock_read_count := 1 |}.
Proof.
  apply (report_for_presigned_url sample_clock prog_name (lit "https")
           s3_host s3_path s3_query [] (lit "20200101T000000Z")
           (lit "3600")).
  - right. reflexivity.
  - vm_compute. reflexivity.
  - vm_compute. reflexivity.
  - right. reflexivity.
  - vm_compute. reflexivity.
  - vm_compute. reflexivity.
  - left. reflexivity.
  - vm_compute. reflexivity.
  - vm_compute. reflexivity.
  - vm_compute. reflexivity.
  - vm_compute. reflexivity.
  - vm_compute. reflexivity.
  - discriminate.
  - repeat constructor.
  - cbn. lia.
  - compute_prop.
Defined.

Lemma report_timestamps_have_fixed_width_witness :
  exists generated expires current verdict : str,
    output (run sample_clock [prog_name; url_scenario])
    = [lit "URL generated at: " ++ generated ++ lit " UTC";
       lit "Expires at:      " ++ expires ++ lit " UTC";
       lit "Current time:    " ++ current ++ lit " UTC";
       verdict]
    /\ length generated = 19%nat /\ length expires = 19%nat
    /\ (valid_datetime (sample_clock 0%nat) ->
        microsecond (sample_clock 0%nat) = 0 ->
        length current = 19%nat).
Proof.
  apply (report_timestamps_have_fixed_width sample_clock
           [prog_name; url_scenario]).
  vm_compute. reflexivity.
Defined.

Lemma strptime_ignores_letter_case_witness :
  strptime (Some (lit "20200229t235959z")) "%Y%m%dT%H%M%SZ"
    = Ok {| year := 2020; month := 2; day := 29; hour := 23; minute := 59;
            second := 59; microsecond := 0 |}
  <-> strptime (Some (lit "20200229T235959Z")) "%Y%m%dT%H%M%SZ"
      = Ok {| year := 2020; month := 2; day := 29; hour := 23; minute := 59;
              second := 59; microsecond := 0 |}.
Proof.
  apply (strptime_ignores_letter_case
           (ord "2") (ord "0") (ord "2") (ord "0") (ord "0") (ord "2")
           (ord "2") (ord "9") (ord "2") (ord "3") (ord "5") (ord "9")
           (ord "5") (ord "9") (ord "t") (ord "z")).
  - vm_compute. reflexivity.
  - right. reflexivity.
  - right. reflexivity.
Defined.

End Examples.
